(** * The message handler of the English-teacher bot

    A shallow embedding of [services/messageHandler.js] (the current
    revision of the file; its first revision is in [Module Rev1]) and the
    properties of its dispatch pipeline:
    retry with backoff, reply chunking, the one-shot warm-up, the command
    router, the per-user level store and the top-level error barrier.

    The handler is an [async] function.  It is modelled in a resumption
    monad: a computation runs synchronously on the process-wide store up
    to its next [await], where it hands the store back together with the
    pending call and a continuation.  *)

From Stdlib Require Import ZArith NArith List Lia String Ascii Bool.
From stdpp Require Import base option list gmap.
Import ListNotations.

Local Open Scope N_scope.

(** ** JavaScript strings

    A JavaScript string is a sequence of UTF-16 code units; [length] and
    [slice] count code units. *)

Abbreviation jsstring := (list N).

(** Source literals are written as UTF-8 text and converted. *)
Fixpoint utf8_decode (bs : list N) : list N :=
  match bs with
  | [] => []
  | b0 :: r0 =>
    if b0 <? 128 then b0 :: utf8_decode r0
    else if b0 <? 224 then
      match r0 with
      | b1 :: r1 => ((b0 - 192) * 64 + (b1 - 128)) :: utf8_decode r1
      | [] => []
      end
    else if b0 <? 240 then
      match r0 with
      | b1 :: b2 :: r2 =>
        ((b0 - 224) * 4096 + (b1 - 128) * 64 + (b2 - 128)) :: utf8_decode r2
      | _ => []
      end
    else
      match r0 with
      | b1 :: b2 :: b3 :: r3 =>
        ((b0 - 240) * 262144 + (b1 - 128) * 4096 + (b2 - 128) * 64 + (b3 - 128))
          :: utf8_decode r3
      | _ => []
      end
  end.

Definition utf16_encode_cp (cp : N) : list N :=
  if cp <? 65536 then [cp]
  else [55296 + (cp - 65536) / 1024; 56320 + (cp - 65536) mod 1024].

Definition utf16_encode (cps : list N) : jsstring :=
  flat_map utf16_encode_cp cps.

Definition lit (s : string) : jsstring :=
  utf16_encode (utf8_decode (map N_of_ascii (list_ascii_of_string s))).

(** Line feed and the double quote, which the literals below splice in. *)
Definition nl : jsstring := [10].
Definition dquote : jsstring := [34].

(** White space and line terminators of ECMAScript ([String.prototype.trim]). *)
Definition is_space (c : N) : bool :=
  (c =? 9) || (c =? 10) || (c =? 11) || (c =? 12) || (c =? 13) || (c =? 32)
  || (c =? 160) || (c =? 5760) || ((8192 <=? c) && (c <=? 8202))
  || (c =? 8232) || (c =? 8233) || (c =? 8239) || (c =? 8287)
  || (c =? 12288) || (c =? 65279).

Fixpoint trimStart (s : jsstring) : jsstring :=
  match s with
  | c :: r => if is_space c then trimStart r else s
  | [] => []
  end.

Definition trimEnd (s : jsstring) : jsstring := rev (trimStart (rev s)).

Definition trim (s : jsstring) : jsstring := trimEnd (trimStart s).

(** [toLowerCase] on the ASCII letters.  Its result is only ever compared
    with the ASCII keywords [#ajuda], [#nivel] and [#resetar]; no code unit
    outside A-Z lower-cases to a letter of these keywords, so the
    comparisons are decided as in the source. *)
Definition lower_unit (c : N) : N :=
  if (65 <=? c) && (c <=? 90) then c + 32 else c.

Definition toLowerCase (s : jsstring) : jsstring := map lower_unit s.

Definition str_eqb (a b : jsstring) : bool := bool_decide (a = b).

Fixpoint startsWith (s p : jsstring) : bool :=
  match p, s with
  | [], _ => true
  | _ :: _, [] => false
  | x :: p', y :: s' => (x =? y) && startsWith s' p'
  end.

(** [s.includes(sub)] *)
Fixpoint includes (s sub : jsstring) : bool :=
  startsWith s sub ||
  match s with
  | [] => false
  | _ :: r => includes r sub
  end.

(** [s.slice(i, j)] for [0 <= i <= j]. *)
Definition slice (s : jsstring) (i j : nat) : jsstring :=
  take (j - i) (drop i s).

(** Truthiness of a string-or-undefined value, and [a || b] on them. *)
Definition truthy (v : option jsstring) : bool :=
  match v with
  | Some (_ :: _) => true
  | _ => false
  end.

Definition or_str (v : option jsstring) (d : jsstring) : jsstring :=
  match v with
  | Some (c :: r) => c :: r
  | _ => d
  end.

Definition or_opt (v w : option jsstring) : option jsstring :=
  if truthy v then v else w.

Local Close Scope N_scope.

(** ** Values exchanged with the collaborators *)

(** An error object as the handler inspects it: [err.response?.status],
    [err.code] and [err.message]. *)
Record JsError := {
  err_status : option Z;
  err_code : option jsstring;
  err_message : option jsstring
}.

(** A thrown value: [postWithRetry] throws [undefined] when its loop body
    never ran. *)
Inductive Thrown :=
| Undefined
| Err (e : JsError).

Definition TypeError (msg : string) : Thrown :=
  Err {| err_status := None; err_code := None; err_message := Some (lit msg) |}.

(** The value of [userLevels[userPhone] || 'basic']: a string or, under a
    name that the object has only by inheritance from [Object.prototype],
    the inherited value (a function, and for [__proto__] the prototype
    object itself), which is truthy and is no string. *)
Inductive Level :=
| LevelStr (l : jsstring)
| LevelInherited (name : jsstring).

(** Request bodies: [{ phone }] and [{ user_message, level, phone }]. *)
Inductive Payload :=
| ResetPayload (phone : jsstring)
| CorrectPayload (user_message : jsstring) (level : Level) (phone : jsstring).

(** The [data] of a backend response: anything without a [reply] property,
    or an object whose [reply] is a string or undefined. *)
Inductive Data :=
| NoData
| Obj (reply : option jsstring).

(** The promises the handler awaits. *)
Inductive Call :=
| SendText (to text : jsstring)
| Post (pathname : jsstring) (data : Payload)
| GetHealth
| Sleep (ms : Z).

Inductive Outcome :=
| Resolved (d : Data)
| Rejected (e : JsError).

(** A number or a string, for [err.response?.status || err.code || 'UNKNOWN']. *)
Inductive JsVal :=
| VNum (n : Z)
| VStr (s : jsstring).

Definition error_code (e : JsError) : JsVal :=
  match err_status e with
  | Some n => if (n =? 0)%Z then VStr (or_str (err_code e) (lit "UNKNOWN")) else VNum n
  | None => VStr (or_str (err_code e) (lit "UNKNOWN"))
  end.

(** One constructor per [console] call site of the file. *)
Inductive LogEntry :=
| WarnPostFailed (pathname : jsstring) (attempt tries : nat) (code : JsVal)
    (msg : option jsstring)
| WarnHealthFailed (attempt tries : nat) (code : JsVal) (msg : option jsstring)
| LogHealth (ok : Data)
| WarnHealthLate (msg : option jsstring)
| ErrorReset (msg : option jsstring)
| LogReceived (body : jsstring)
| LogSending (payload : Payload)
| ErrorBackend (code : JsVal) (msg : option jsstring)
| LogReply (botReply : jsstring)
| ErrorUnhandled (e : Thrown)
| WarnPostFailed1 (pathname : jsstring) (attempt tries : nat) (code : JsVal)
| ErrorBackendMsg (msg : option jsstring).

(** ** The process-wide state: [userLevels], [warmedUp] and the console *)

(** [userLevels] is a plain object: the map holds the properties of its
    own, each a string or [undefined]; what it inherits from
    [Object.prototype] is in [read_level] and [assign_level] below. *)
Record Store := {
  userLevels : gmap jsstring (option jsstring);
  warmedUp : bool;
  console : list LogEntry
}.

Definition initial_store : Store :=
  {| userLevels := ∅; warmedUp := false; console := [] |}.

Definition set_userLevels
    (f : gmap jsstring (option jsstring) -> gmap jsstring (option jsstring))
    (s : Store) : Store :=
  {| userLevels := f (userLevels s); warmedUp := warmedUp s; console := console s |}.

Definition set_warmedUp (b : bool) (s : Store) : Store :=
  {| userLevels := userLevels s; warmedUp := b; console := console s |}.

Definition add_console (l : LogEntry) (s : Store) : Store :=
  {| userLevels := userLevels s; warmedUp := warmedUp s; console := console s ++ [l] |}.

(** ** The resumption monad of [async] functions *)

(** How a call ends.  [Hang] is a loop that never ends. *)
Inductive Completion (A : Type) :=
| Return (a : A)
| Throw (e : Thrown)
| Hang.
Arguments Return {A} a.
Arguments Throw {A} e.
Arguments Hang {A}.

(** A computation either is done, or is suspended at an [await] on a call,
    with the store as it left it; it resumes with the outcome of the call
    and the store as it then is. *)
Inductive Res (A : Type) :=
| Done (c : Completion A) (s : Store)
| Await (c : Call) (s : Store) (k : Outcome -> Store -> Res A).
Arguments Done {A} c s.
Arguments Await {A} c s k.

Definition Task (A : Type) : Type := Store -> Res A.

Definition ret {A} (a : A) : Task A := fun s => Done (Return a) s.
Definition throw {A} (e : Thrown) : Task A := fun s => Done (Throw e) s.
Definition hang {A} : Task A := fun s => Done Hang s.

Fixpoint bindR {A B} (r : Res A) (f : A -> Task B) : Res B :=
  match r with
  | Done (Return a) s => f a s
  | Done (Throw e) s => Done (Throw e) s
  | Done Hang s => Done Hang s
  | Await c s k => Await c s (fun o s' => bindR (k o s') f)
  end.

Definition bind {A B} (t : Task A) (f : A -> Task B) : Task B :=
  fun s => bindR (t s) f.

(** [try { t } catch (e) { h e }] *)
Fixpoint catchR {A} (r : Res A) (h : Thrown -> Task A) : Res A :=
  match r with
  | Done (Throw e) s => h e s
  | Done c s => Done c s
  | Await c s k => Await c s (fun o s' => catchR (k o s') h)
  end.

Definition try_catch {A} (t : Task A) (h : Thrown -> Task A) : Task A :=
  fun s => catchR (t s) h.

(** [await c]: a rejection is thrown at the point of the [await]. *)
Definition settle (o : Outcome) : Task Data :=
  match o with
  | Resolved d => ret d
  | Rejected e => throw (Err e)
  end.

Definition await (c : Call) : Task Data :=
  fun s => Await c s settle.

Definition get_store : Task Store := fun s => Done (Return s) s.
Definition modify (f : Store -> Store) : Task unit := fun s => Done (Return tt) (f s).
Definition console_ (l : LogEntry) : Task unit := modify (add_console l).

Declare Scope task_scope.
Delimit Scope task_scope with task.
Bind Scope task_scope with Task.
Notation "'let*' x ':=' t 'in' k" := (bind t (fun x => k))
  (at level 10, x name, t at level 100, k at level 200) : task_scope.
Notation "t ;; k" := (bind t (fun _ => k))
  (at level 100, k at level 200, right associativity) : task_scope.
Local Open Scope task_scope.

(** Reading a property of a caught value; [undefined] has none. *)
Definition caught (e : Thrown) : Task JsError :=
  match e with
  | Err o => ret o
  | Undefined => throw (TypeError "Cannot read properties of undefined")
  end.

(** ** Configuration *)

(** [s.replace(/\/+$/, '')]: the run of slashes that ends the string, if
    there is one, is dropped. *)
Fixpoint strip_trailing_slashes (s : jsstring) : jsstring :=
  match s with
  | [] => []
  | c :: r =>
    match strip_trailing_slashes r with
    | [] => if (c =? 47)%N then [] else [c]
    | r' => c :: r'
    end
  end.

(** [(process.env.BACKEND_URL || 'http://localhost:8000').replace(/\/+$/, '')] *)
Definition BACKEND_URL (env_value : option jsstring) : jsstring :=
  strip_trailing_slashes (or_str env_value (lit "http://localhost:8000")).

(** [`${BACKEND_URL}/health`], the address of the probe. *)
Definition health_url (env_value : option jsstring) : jsstring :=
  BACKEND_URL env_value ++ lit "/health".

(** ** The HTTP client wrapper *)

(** [sleep(ms)]: a timer promise, which only ever resolves. *)
Definition sleep (ms : Z) : Task unit :=
  fun s => Await (Sleep ms) s (fun _ s' => Done (Return tt) s').

(** [if (delays[i]) await sleep(delays[i])]: an index past the end of the
    array reads [undefined], and both [undefined] and [0] are falsy. *)
Definition backoff (delays : list Z) (i : nat) : Task unit :=
  match delays !! i with
  | Some d => if (d =? 0)%Z then ret tt else sleep d
  | None => ret tt
  end.

Definition post_delays : list Z := [0; 2000; 5000]%Z.
Definition health_delays : list Z := [0; 1500; 3000]%Z.

(** The [for] loop of [postWithRetry]; [n] is [tries - i]. *)
Fixpoint postWithRetry_loop (pathname : jsstring) (data : Payload) (tries : nat)
    (n i : nat) (lastErr : Thrown) : Task Data :=
  match n with
  | O => throw lastErr
  | S n' =>
    try_catch
      (backoff post_delays i ;;
       await (Post pathname data))
      (fun err =>
         let* e := caught err in
         console_ (WarnPostFailed pathname (i + 1) tries (error_code e) (err_message e)) ;;
         postWithRetry_loop pathname data tries n' (S i) err)
  end.

Definition postWithRetry (pathname : jsstring) (data : Payload) (tries : nat) : Task Data :=
  postWithRetry_loop pathname data tries tries 0 Undefined.

Fixpoint getHealthWithRetry_loop (tries : nat) (n i : nat) (lastErr : Thrown) : Task Data :=
  match n with
  | O => throw lastErr
  | S n' =>
    try_catch
      (backoff health_delays i ;;
       await GetHealth)
      (fun err =>
         let* e := caught err in
         console_ (WarnHealthFailed (i + 1) tries (error_code e) (err_message e)) ;;
         getHealthWithRetry_loop tries n' (S i) err)
  end.

Definition getHealthWithRetry (tries : nat) : Task Data :=
  getHealthWithRetry_loop tries tries 0 Undefined.

(** The default value of the [tries] parameter of both functions. *)
Definition default_tries : nat := 3.

(** ** The reply dispatcher *)

(** The [for] loop of [sendSafe].  With [maxLen = 0] the source loop never
    advances; [fuel] bounds the number of loop tests and is only exhausted
    in that case. *)
Fixpoint sendSafe_loop (to text : jsstring) (maxLen : nat) (fuel i : nat) : Task unit :=
  match fuel with
  | O => hang
  | S fuel' =>
    if i <? length text then
      await (SendText to (slice text i (i + maxLen))) ;;
      sendSafe_loop to text maxLen fuel' (i + maxLen)
    else ret tt
  end.

Definition sendSafe (to text : jsstring) (maxLen : nat) : Task unit :=
  if length text <=? maxLen then await (SendText to text) ;; ret tt
  else sendSafe_loop to text maxLen (S (length text)) 0.

(** The default value of the [maxLen] parameter. *)
Definition default_maxLen : nat := 3000.

(** ** Inbound messages *)

Record Sender := { id : option jsstring }.

(** The properties of a message that the handler reads.  [isGroupMsg] is
    the truthiness of the property; the others are a string or undefined. *)
Record Message := {
  isGroupMsg : bool;
  from : option jsstring;
  sender : option Sender;
  body : option jsstring;
  type : option jsstring
}.

(** ** User-facing texts of the handler *)

Definition preparing_notice : jsstring := lit "⏳ Preparando o professor…".

Definition audio_disabled_notice : jsstring :=
  lit "🎙️ O recurso de áudio está temporariamente desativado. Use mensagens de texto por enquanto!".

Definition helpMessage : jsstring :=
  lit "📚 *Ajuda do Bot de Inglês*" ++ nl ++ nl ++
  lit "Comandos: *#ajuda*, *#nivel*, *#desafio*, *#quiz*, *#meta*, *#frase*, *#resetar*." ++ nl ++
  lit "Você também pode enviar frases para correção." ++ nl ++ nl ++
  lit "Ex.: " ++ dquote ++ lit "I go school yesterday" ++ dquote.

Definition levelMsg : jsstring :=
  lit "📊 *Escolha seu nível de inglês:*" ++ nl ++ nl ++
  lit "1️⃣ Iniciante" ++ nl ++ lit "2️⃣ Básico" ++ nl ++
  lit "3️⃣ Intermediário" ++ nl ++ lit "4️⃣ Avançado".

(** [levelMap], and a read of it: [None] is [undefined]. *)
Definition levelMap : list (jsstring * jsstring) :=
  [ (lit "1", lit "beginner"); (lit "2", lit "basic");
    (lit "3", lit "intermediate"); (lit "4", lit "advanced") ].

Fixpoint prop_get (o : list (jsstring * jsstring)) (k : jsstring) : option jsstring :=
  match o with
  | [] => None
  | (k', v) :: o' => if str_eqb k' k then Some v else prop_get o' k
  end.

(** The text of [undefined] inside a template literal. *)
Definition template_str (v : option jsstring) : jsstring :=
  match v with
  | Some x => x
  | None => lit "undefined"
  end.

Definition level_confirmation (level : option jsstring) : jsstring :=
  lit "✅ Nível definido como *" ++ template_str level ++ lit "*.".

Definition reset_ok_notice : jsstring :=
  lit "♻️ Sua memória foi limpa com sucesso. Podemos recomeçar!".

Definition reset_failed_notice : jsstring :=
  lit "⚠️ Não consegui resetar sua memória. Tente novamente.".

Definition backend_failed_notice : jsstring :=
  lit "⚠️ Tive dificuldade para falar com o professor agora. Tenta de novo daqui a pouco.".

Definition fallback_reply : jsstring := lit "❌ Erro ao processar a resposta.".

Definition correct_marker : jsstring := lit "✅ Muito bem!".
Definition incorrect_marker : jsstring := lit "❌ Ops!".
Definition correct_banner : jsstring := lit "🎉 *Resposta Correta!*" ++ nl ++ nl.
Definition incorrect_banner : jsstring := lit "📌 *Resposta Incorreta*" ++ nl ++ nl.

Definition unexpected_notice : jsstring :=
  lit "⚠️ Tive um erro inesperado aqui. Pode tentar de novo?".

(** ** The message handler *)

(** [message.from || message.sender?.id || 'unknown'] *)
Definition userPhone_of (m : Message) : jsstring :=
  or_str (or_opt (from m) (match sender m with Some x => id x | None => None end))
         (lit "unknown").

(** [(message.body || '').trim()] *)
Definition body_of (m : Message) : jsstring := trim (or_str (body m) []).

(** [message.type === 'ptt' || message.type === 'audio'] *)
Definition is_audio (m : Message) : bool :=
  match type m with
  | Some t => str_eqb t (lit "ptt") || str_eqb t (lit "audio")
  | None => false
  end.

(** The names of the properties that a plain object inherits from
    [Object.prototype]. *)
Definition object_prototype_names : list jsstring :=
  [ lit "constructor"; lit "hasOwnProperty"; lit "isPrototypeOf";
    lit "propertyIsEnumerable"; lit "toLocaleString"; lit "toString";
    lit "valueOf"; lit "__defineGetter__"; lit "__defineSetter__";
    lit "__lookupGetter__"; lit "__lookupSetter__"; lit "__proto__" ].

(** [userLevels[userPhone] = v], where [v] is a string or [undefined].
    [__proto__] is the accessor of [Object.prototype], whose setter
    ignores a value that is not an object; under every other name the
    object gets, or updates, a property of its own (the inherited methods
    are writable data properties, which an assignment shadows). *)
Definition assign_level (userPhone : jsstring) (v : option jsstring)
    (levels : gmap jsstring (option jsstring)) : gmap jsstring (option jsstring) :=
  if str_eqb userPhone (lit "__proto__") then levels
  else <[userPhone := v]> levels.

(** [userLevels[userPhone] || 'basic']: the property of its own if the
    object has one, else what it inherits under that name. *)
Definition read_level (levels : gmap jsstring (option jsstring)) (userPhone : jsstring)
  : Level :=
  match levels !! userPhone with
  | Some v => LevelStr (or_str v (lit "basic"))
  | None =>
    if bool_decide (userPhone ∈ object_prototype_names) then LevelInherited userPhone
    else LevelStr (lit "basic")
  end.

(** The warm-up block, run by the first message that gets this far. *)
Definition warmUp (userPhone : jsstring) : Task unit :=
  let* s := get_store in
  if negb (warmedUp s) then
    modify (set_warmedUp true) ;;
    try_catch
      (await (SendText userPhone preparing_notice) ;;
       let* ok := getHealthWithRetry default_tries in
       console_ (LogHealth ok))
      (fun e =>
         let* o := caught e in
         console_ (WarnHealthLate (err_message o)))
  else ret tt.

(** [data?.reply || '...'] *)
Definition botReply_of (data : Data) : jsstring :=
  match data with
  | Obj r => or_str r fallback_reply
  | NoData => fallback_reply
  end.

(** The final [if]/[else if]/[else] of the handler. *)
Definition dispatchReply (userPhone botReply : jsstring) : Task unit :=
  if includes botReply correct_marker then
    sendSafe userPhone (correct_banner ++ botReply) default_maxLen
  else if includes botReply incorrect_marker then
    sendSafe userPhone (incorrect_banner ++ botReply) default_maxLen
  else
    sendSafe userPhone botReply default_maxLen.

(** The [#resetar] branch. *)
Definition resetar (userPhone : jsstring) : Task unit :=
  try_catch
    (postWithRetry (lit "/resetar") (ResetPayload userPhone) default_tries ;;
     await (SendText userPhone reset_ok_notice) ;;
     ret tt)
    (fun error =>
       let* o := caught error in
       console_ (ErrorReset (err_message o)) ;;
       await (SendText userPhone reset_failed_notice) ;;
       ret tt).

(** The default path: post to [/correct] and forward the reply.  The
    [catch] block returns from the handler, which [None] stands for. *)
Definition correct (userPhone body : jsstring) : Task unit :=
  let* s := get_store in
  let payload :=
    CorrectPayload body (read_level (userLevels s) userPhone) userPhone in
  console_ (LogReceived body) ;;
  console_ (LogSending payload) ;;
  let* data :=
    try_catch
      (let* d := postWithRetry (lit "/correct") payload default_tries in
       ret (Some d))
      (fun err =>
         let* o := caught err in
         console_ (ErrorBackend (error_code o) (err_message o)) ;;
         await (SendText userPhone backend_failed_notice) ;;
         ret None) in
  match data with
  | None => ret tt
  | Some data =>
    let botReply := botReply_of data in
    console_ (LogReply botReply) ;;
    dispatchReply userPhone botReply
  end.

(** The command router: the [try] block from the audio check on. *)
Definition route (m : Message) (userPhone body : jsstring) : Task unit :=
  if is_audio m then
    await (SendText userPhone audio_disabled_notice) ;;
    ret tt
  else
  let textLower := toLowerCase body in
  if str_eqb textLower (lit "#ajuda") then
    await (SendText userPhone helpMessage) ;;
    ret tt
  else if str_eqb textLower (lit "#nivel") then
    await (SendText userPhone levelMsg) ;;
    ret tt
  else if bool_decide (body ∈ [lit "1"; lit "2"; lit "3"; lit "4"]) then
    modify (set_userLevels (assign_level userPhone (prop_get levelMap body))) ;;
    await (SendText userPhone (level_confirmation (prop_get levelMap body))) ;;
    ret tt
  else if str_eqb textLower (lit "#resetar") then
    resetar userPhone
  else
    correct userPhone body.

(** The [try] block of [handleMessage].  [None] is a [null] or [undefined]
    message, whose first property read throws. *)
Definition handleMessage_try (message : option Message) : Task unit :=
  match message with
  | None => throw (TypeError "Cannot read properties of undefined")
  | Some m =>
    if isGroupMsg m then ret tt else
    let userPhone := userPhone_of m in
    let body := body_of m in
    if bool_decide (body = []) then ret tt else
    warmUp userPhone ;;
    route m userPhone body
  end.

(** [message?.from || 'unknown'], the addressee in the [catch] block. *)
Definition catch_phone (message : option Message) : jsstring :=
  or_str (match message with Some m => from m | None => None end) (lit "unknown").

(** [handleMessage(client, message)]: the [try] block under the top-level
    [catch], whose own send is wrapped in an empty [catch]. *)
Definition handleMessage (message : option Message) : Task unit :=
  try_catch (handleMessage_try message)
    (fun e =>
       console_ (ErrorUnhandled e) ;;
       let userPhone := catch_phone message in
       try_catch
         (await (SendText userPhone unexpected_notice) ;;
          ret tt)
         (fun _ => ret tt)).

(** ** Running a computation against its collaborators *)

(** The collaborators answer each call; an answer may depend on the
    request and on how many requests of that kind came before. *)
Record Env := {
  client_sendText : nat -> jsstring -> jsstring -> Outcome;
  api_post : nat -> jsstring -> Payload -> Outcome;
  axios_get_health : nat -> Outcome
}.

Abbreviation Trace := (list (Call * Outcome)).

Definition is_send (c : Call) : bool :=
  match c with SendText _ _ => true | _ => false end.
Definition is_post (c : Call) : bool :=
  match c with Post _ _ => true | _ => false end.
Definition is_health (c : Call) : bool :=
  match c with GetHealth => true | _ => false end.
Definition is_sleep (c : Call) : bool :=
  match c with Sleep _ => true | _ => false end.

Definition calls (p : Call -> bool) (tr : Trace) : list (Call * Outcome) :=
  List.filter (fun x => p (fst x)) tr.

Definition answer (env : Env) (tr : Trace) (c : Call) : Outcome :=
  match c with
  | SendText to text => client_sendText env (length (calls is_send tr)) to text
  | Post pathname data => api_post env (length (calls is_post tr)) pathname data
  | GetHealth => axios_get_health env (length (calls is_health tr))
  | Sleep _ => Resolved NoData
  end.

(** One computation run to its end without interleaving: each call is
    answered at once and appended to the trace. *)
Fixpoint run {A} (env : Env) (tr : Trace) (r : Res A) : Completion A * Store * Trace :=
  match r with
  | Done c s => (c, s, tr)
  | Await c s k =>
    let o := answer env tr c in
    run env (tr ++ [(c, o)]) (k o s)
  end.

Definition exec {A} (env : Env) (t : Task A) (s : Store) (tr : Trace)
  : Completion A * Store * Trace :=
  run env tr (t s).

(** Messages handled one after the other in one process. *)
Fixpoint handleAll (env : Env) (ms : list (option Message)) (s : Store) (tr : Trace)
  : Store * Trace :=
  match ms with
  | [] => (s, tr)
  | m :: ms' =>
    let '(_, s', tr') := exec env (handleMessage m) s tr in
    handleAll env ms' s' tr'
  end.

(** ** The first revision of the file

    Its [postWithRetry]: two tries by default, and a fixed pause of 800 ms
    after every failed attempt but the last. *)
Module Rev1.

Fixpoint postWithRetry_loop (path : jsstring) (data : Payload) (tries : nat)
    (n i : nat) (lastErr : Thrown) : Task Data :=
  match n with
  | O => throw lastErr
  | S n' =>
    try_catch
      (await (Post path data))
      (fun err =>
         let* e := caught err in
         console_ (WarnPostFailed1 path (i + 1) tries (error_code e)) ;;
         (if i <? tries - 1 then sleep 800 else ret tt) ;;
         postWithRetry_loop path data tries n' (S i) err)
  end.

Definition postWithRetry (path : jsstring) (data : Payload) (tries : nat) : Task Data :=
  postWithRetry_loop path data tries tries 0 Undefined.

Definition default_tries : nat := 2.

(** Its handler: no warm-up block, the first revision's retry helper, and
    the reply sent in one message whatever its length. *)

Definition helpMessage : jsstring :=
  lit "📚 *Ajuda do Bot de Inglês*" ++ nl ++ nl
  ++ lit "Este bot foi criado para te ajudar a aprender inglês de forma simples, rápida e divertida! 🤓✨"
  ++ nl ++ nl ++ lit "✅ *Comandos disponíveis:*" ++ nl
  ++ lit "• *#ajuda* → Mostra esta mensagem de ajuda." ++ nl
  ++ lit "• *#nivel* → Escolha seu nível de inglês." ++ nl
  ++ lit "• *#desafio* → Mini desafio com lacuna pra preencher." ++ nl
  ++ lit "• *#quiz* → Quiz de múltipla escolha!" ++ nl
  ++ lit "• *#meta* → Uma meta motivacional para te incentivar" ++ nl
  ++ lit "• *#frase* → Frase curta com tradução" ++ nl
  ++ lit "• *#resetar* → Limpa sua memória e histórico. ♻️" ++ nl ++ nl
  ++ lit "💬 Você também pode enviar frases ou perguntas em inglês ou português para correção e explicação."
  ++ nl ++ nl ++ lit "🔤 *Exemplos:*" ++ nl ++ lit "- I go school yesterday" ++ nl
  ++ lit "- What's the difference between 'make' and 'do'?" ++ nl ++ lit "- O que significa "
  ++ dquote ++ lit "used to" ++ dquote ++ lit "?" ++ nl ++ nl ++ lit "🚀 Vamos aprender juntos!".

Definition backend_failed_notice : jsstring :=
  lit "⚠️ Ocorreu um erro ao tentar corrigir sua frase. Tente novamente em alguns segundos.".

Definition dispatchReply (userPhone botReply : jsstring) : Task unit :=
  if includes botReply correct_marker then
    await (SendText userPhone (correct_banner ++ botReply)) ;; ret tt
  else if includes botReply incorrect_marker then
    await (SendText userPhone (incorrect_banner ++ botReply)) ;; ret tt
  else
    await (SendText userPhone botReply) ;; ret tt.

Definition resetar (userPhone : jsstring) : Task unit :=
  try_catch
    (postWithRetry (lit "/resetar") (ResetPayload userPhone) default_tries ;;
     await (SendText userPhone reset_ok_notice) ;;
     ret tt)
    (fun error =>
       let* o := caught error in
       console_ (ErrorReset (err_message o)) ;;
       await (SendText userPhone reset_failed_notice) ;;
       ret tt).

Definition correct (userPhone body : jsstring) : Task unit :=
  let* s := get_store in
  let payload :=
    CorrectPayload body (read_level (userLevels s) userPhone) userPhone in
  console_ (LogReceived body) ;;
  console_ (LogSending payload) ;;
  let* data :=
    try_catch
      (let* d := postWithRetry (lit "/correct") payload default_tries in
       ret (Some d))
      (fun err =>
         let* o := caught err in
         console_ (ErrorBackend (error_code o) (err_message o)) ;;
         await (SendText userPhone backend_failed_notice) ;;
         ret None) in
  match data with
  | None => ret tt
  | Some data =>
    let botReply := botReply_of data in
    console_ (LogReply botReply) ;;
    dispatchReply userPhone botReply
  end.

Definition route (m : Message) (userPhone body : jsstring) : Task unit :=
  if is_audio m then
    await (SendText userPhone audio_disabled_notice) ;;
    ret tt
  else
  let textLower := toLowerCase body in
  if str_eqb textLower (lit "#ajuda") then
    await (SendText userPhone helpMessage) ;;
    ret tt
  else if str_eqb textLower (lit "#nivel") then
    await (SendText userPhone levelMsg) ;;
    ret tt
  else if bool_decide (body ∈ [lit "1"; lit "2"; lit "3"; lit "4"]) then
    modify (set_userLevels (assign_level userPhone (prop_get levelMap body))) ;;
    await (SendText userPhone (level_confirmation (prop_get levelMap body))) ;;
    ret tt
  else if str_eqb textLower (lit "#resetar") then
    resetar userPhone
  else
    correct userPhone body.

Definition handleMessage_try (message : option Message) : Task unit :=
  match message with
  | None => throw (TypeError "Cannot read properties of undefined")
  | Some m =>
    if isGroupMsg m then ret tt else
    let userPhone := userPhone_of m in
    let body := body_of m in
    if bool_decide (body = []) then ret tt else
    route m userPhone body
  end.

Definition handleMessage (message : option Message) : Task unit :=
  try_catch (handleMessage_try message)
    (fun e =>
       console_ (ErrorUnhandled e) ;;
       let userPhone := catch_phone message in
       try_catch
         (await (SendText userPhone unexpected_notice) ;;
          ret tt)
         (fun _ => ret tt)).

End Rev1.

(** * Specification-side definitions *)

(** ** Observations on traces *)

Definition is_resolved (o : Outcome) : bool :=
  match o with Resolved _ => true | Rejected _ => false end.

(** The texts handed to [client.sendText], in order. *)
Fixpoint sent_texts (tr : Trace) : list jsstring :=
  match tr with
  | [] => []
  | (SendText _ text, _) :: r => text :: sent_texts r
  | _ :: r => sent_texts r
  end.

(** ** Chunking, in the words of the specification *)

Definition ceil_div (l c : nat) : nat := (l + c - 1) / c.

(** Consecutive chunks of at most [c] code units; a text that fits is one
    message. *)
Definition chunks_of (text : jsstring) (c : nat) : list jsstring :=
  if length text <=? c then [text]
  else map (fun j => take c (drop (j * c) text)) (seq 0 (ceil_div (length text) c)).

(** Sending texts one after the other, stopping at the first rejection. *)
Fixpoint send_all (env : Env) (to : jsstring) (texts : list jsstring) (tr : Trace)
  : Completion unit * Trace :=
  match texts with
  | [] => (Return tt, tr)
  | t :: r =>
    let o := answer env tr (SendText to t) in
    match o with
    | Resolved _ => send_all env to r (tr ++ [(SendText to t, o)])
    | Rejected e => (Throw (Err e), tr ++ [(SendText to t, o)])
    end
  end.

(** ** Retrying, as a function of what the backend answers *)

(** How an awaited call completes. *)
Definition completion_of (o : Outcome) : Completion Data :=
  match o with
  | Resolved d => Return d
  | Rejected e => Throw (Err e)
  end.

(** The outcomes of the attempts of a loop that may try [n] times, when
    request number [p] is answered [ask p]: it stops at the first success. *)
Fixpoint attempts (ask : nat -> Outcome) (p n : nat) : list Outcome :=
  match n with
  | O => []
  | S n' =>
    match ask p with
    | Resolved d => [Resolved d]
    | Rejected e => Rejected e :: attempts ask (S p) n'
    end
  end.

(** The timer awaited before attempt [i], if any. *)
Definition backoff_calls (delays : list Z) (i : nat) : Trace :=
  match delays !! i with
  | Some d => if (d =? 0)%Z then [] else [(Sleep d, Resolved NoData)]
  | None => []
  end.

(** The calls of a loop whose attempts, from attempt [i] on, end as [outs]. *)
Fixpoint retry_calls (delays : list Z) (c : Call) (outs : list Outcome) (i : nat) : Trace :=
  match outs with
  | [] => []
  | o :: r => backoff_calls delays i ++ (c, o) :: retry_calls delays c r (S i)
  end.

(** The warnings it logs. *)
Fixpoint retry_log (warn : nat -> JsError -> LogEntry) (outs : list Outcome) (i : nat)
  : list LogEntry :=
  match outs with
  | [] => []
  | Rejected e :: r => warn i e :: retry_log warn r (S i)
  | Resolved _ :: r => retry_log warn r (S i)
  end.

(** How it ends: with the last outcome, or with [lastErr] as it was
    when no attempt was made. *)
Definition retry_result (outs : list Outcome) (lastErr : Thrown) : Completion Data :=
  match last outs with
  | Some o => completion_of o
  | None => Throw lastErr
  end.

Definition add_consoles (ls : list LogEntry) (s : Store) : Store :=
  {| userLevels := userLevels s; warmedUp := warmedUp s; console := console s ++ ls |}.

Definition warn_post (pathname : jsstring) (tries : nat) (i : nat) (e : JsError) : LogEntry :=
  WarnPostFailed pathname (i + 1) tries (error_code e) (err_message e).

Definition warn_health (tries : nat) (i : nat) (e : JsError) : LogEntry :=
  WarnHealthFailed (i + 1) tries (error_code e) (err_message e).

(** The time slept before each [Post] of a trace, since the previous
    [Post] or the start of the trace. *)
Fixpoint attempt_delays_from (acc : Z) (tr : Trace) : list Z :=
  match tr with
  | [] => []
  | (Sleep ms, _) :: r => attempt_delays_from (acc + ms) r
  | (Post _ _, _) :: r => acc :: attempt_delays_from 0 r
  | _ :: r => attempt_delays_from acc r
  end.

Definition attempt_delays (tr : Trace) : list Z := attempt_delays_from 0 tr.

Fixpoint strictly_increasing (l : list Z) : bool :=
  match l with
  | a :: r =>
    match r with
    | b :: _ => (a <? b)%Z && strictly_increasing r
    | [] => true
    end
  | [] => true
  end.

(** The schedule read at index [i]: the time slept before attempt [i]. *)
Definition delay_before (delays : list Z) (i : nat) : Z := default 0%Z (delays !! i).

(** ** Collaborators used in the examples *)

Definition error_503 : JsError :=
  {| err_status := Some 503%Z; err_code := None; err_message := Some (lit "Service Unavailable") |}.

Definition send_failed : JsError :=
  {| err_status := None; err_code := None; err_message := Some (lit "send failed") |}.

(** A client that accepts every send, a healthy backend that rejects its
    first [k] posts and then echoes a fixed reply. *)
Definition flaky_env (k : nat) (reply : jsstring) : Env :=
  {| client_sendText := fun _ _ _ => Resolved NoData;
     api_post := fun n _ _ => if n <? k then Rejected error_503 else Resolved (Obj (Some reply));
     axios_get_health := fun _ => Resolved NoData |}.

(** The same with a backend that is down and a client that rejects the
    sends numbered in [bad]. *)
Definition down_env (bad : list nat) : Env :=
  {| client_sendText := fun n _ _ =>
       if bool_decide (n ∈ bad) then Rejected send_failed else Resolved NoData;
     api_post := fun _ _ _ => Rejected error_503;
     axios_get_health := fun _ => Rejected error_503 |}.

(** ** Properties of every step of a computation

    [sat P R Q s0 r]: in [r], entered with store [s0], every call
    satisfies [P], every synchronous stretch takes the store it starts
    from to one related to it by [R], and every completion satisfies [Q],
    whatever the calls answer and whatever store the computation finds
    each time it resumes. *)
Fixpoint sat {A} (P : Call -> Prop) (R : Store -> Store -> Prop)
    (Q : Completion A -> Prop) (s0 : Store) (r : Res A) : Prop :=
  match r with
  | Done c s => R s0 s /\ Q c
  | Await c s k => P c /\ R s0 s /\ forall o s1, sat P R Q s1 (k o s1)
  end.

(** The top-level [catch] of the handler, as a function of how the [try]
    block ended. *)
Definition barrier (env : Env) (message : option Message)
    (res : Completion unit * Store * Trace) : Completion unit * Store * Trace :=
  match res with
  | (Throw e, s1, tr1) =>
    (Return tt, add_console (ErrorUnhandled e) s1,
     tr1 ++ [(SendText (catch_phone message) unexpected_notice,
              answer env tr1 (SendText (catch_phone message) unexpected_notice))])
  | other => other
  end.

(** A completion that is a return or a thrown error object: the loop did
    not spin and nothing threw [undefined]. *)
Definition settled {A} (c : Completion A) : Prop :=
  match c with
  | Return _ => True
  | Throw (Err _) => True
  | Throw Undefined => False
  | Hang => False
  end.

(** ** Words of the router *)

Definition level_digits : list jsstring := [lit "1"; lit "2"; lit "3"; lit "4"].

Definition keywords : list jsstring := [lit "#ajuda"; lit "#nivel"; lit "#resetar"].

(** The request body of the default path for a message and a store. *)
Definition correct_payload (m : Message) (s : Store) : Payload :=
  CorrectPayload (body_of m)
    (read_level (userLevels s) (userPhone_of m))
    (userPhone_of m).

(** How often a text occurs among texts. *)
Definition count_text (t : jsstring) (l : list jsstring) : nat :=
  length (List.filter (str_eqb t) l).

(** ** Reply annotation, in the words of the specification *)

(** The header put before a reply: the "correct" one when its marker
    occurs, else the "incorrect" one when that marker occurs, else none. *)
Definition banner_of (reply : jsstring) : jsstring :=
  if includes reply correct_marker then correct_banner
  else if includes reply incorrect_marker then incorrect_banner
  else [].

(** ** Messages used in the examples *)

Definition chat (u b : string) : Message :=
  {| isGroupMsg := false; from := Some (lit u); sender := None;
     body := Some (lit b); type := Some (lit "chat") |}.

Definition group_chat (u b : string) : Message :=
  {| isGroupMsg := true; from := Some (lit u); sender := None;
     body := Some (lit b); type := Some (lit "chat") |}.

Definition voice_note (u b : string) : Message :=
  {| isGroupMsg := false; from := Some (lit u); sender := None;
     body := Some (lit b); type := Some (lit "ptt") |}.

(** A store in which the warm-up has already happened. *)
Definition warm_store : Store :=
  {| userLevels := ∅; warmedUp := true; console := [] |}.

(** ** The level store across messages *)

(** A message that reaches the level-choice branch of the router. *)
Definition is_level_choice (m : Message) : bool :=
  negb (isGroupMsg m) && negb (is_audio m) && bool_decide (body_of m ∈ level_digits).

(** ... and does so for user [u]. *)
Definition chooses_level (u : jsstring) (message : option Message) : bool :=
  match message with
  | Some m => is_level_choice m && str_eqb (userPhone_of m) u
  | None => false
  end.

(** The level store after a message. *)
Definition levels_after (message : option Message)
    (levels : gmap jsstring (option jsstring)) : gmap jsstring (option jsstring) :=
  match message with
  | Some m =>
    if is_level_choice m
    then assign_level (userPhone_of m) (prop_get levelMap (body_of m)) levels
    else levels
  | None => levels
  end.

(** A stretch of computation that leaves the level store as it was. *)
Definition levels_kept (a b : Store) : Prop := userLevels b = userLevels a.

(** ... and one that leaves what is stored for user [u] as it was. *)
Definition level_kept (u : jsstring) (a b : Store) : Prop :=
  userLevels b !! u = userLevels a !! u.

(** ** The reset flow *)

(** Whether a run of attempts ended with a success. *)
Definition succeeded (outs : list Outcome) : bool :=
  match last outs with
  | Some (Resolved _) => true
  | _ => false
  end.

(** The sends of the [#resetar] branch after its posts: the confirmation
    when the reset went through (and then the failure notice too when the
    client rejects the confirmation, since that send sits inside the same
    [try]), the failure notice otherwise. *)
Definition reset_replies (env : Env) (u : jsstring) (tr : Trace) (ok : bool) : Trace :=
  if ok then
    let o := answer env tr (SendText u reset_ok_notice) in
    (SendText u reset_ok_notice, o) ::
    (if is_resolved o then []
     else [(SendText u reset_failed_notice,
            answer env (tr ++ [(SendText u reset_ok_notice, o)])
              (SendText u reset_failed_notice))])
  else
    [(SendText u reset_failed_notice, answer env tr (SendText u reset_failed_notice))].

(** How a run ends whose last send ended as the last call of [sends]. *)
Definition after_sends (sends : Trace) : Completion unit :=
  match last sends with
  | Some (_, Rejected e) => Throw (Err e)
  | _ => Return tt
  end.

(** ** The warm-up across messages *)

(** A stretch of computation that does not clear the warm-up flag. *)
Definition flag_kept (a b : Store) : Prop := warmedUp a = true -> warmedUp b = true.

(** A message that gets as far as the warm-up block: not from a group,
    with a body. *)
Definition triggers_warmUp (message : option Message) : bool :=
  match message with
  | Some m => negb (isGroupMsg m) && negb (bool_decide (body_of m = []))
  | None => false
  end.

(** ** The retry loop of the first revision *)

Definition warn_post1 (pathname : jsstring) (tries : nat) (i : nat) (e : JsError) : LogEntry :=
  WarnPostFailed1 pathname (i + 1) tries (error_code e).

(** Its calls: the pause follows a rejected attempt that is not the last
    of the [tries]. *)
Fixpoint rev1_retry_calls (c : Call) (tries : nat) (outs : list Outcome) (i : nat) : Trace :=
  match outs with
  | [] => []
  | o :: r =>
    (c, o) ::
    (if is_resolved o then []
     else if i <? tries - 1 then [(Sleep 800, Resolved NoData)] else []) ++
    rev1_retry_calls c tries r (S i)
  end.

(** ** Further observations *)

(** The time slept before each call that satisfies [p], since the previous
    such call or the start of the trace. *)
Fixpoint pauses_before (p : Call -> bool) (acc : Z) (tr : Trace) : list Z :=
  match tr with
  | [] => []
  | (c, _) :: r =>
    if p c then acc :: pauses_before p 0 r
    else
      match c with
      | Sleep ms => pauses_before p (acc + ms) r
      | _ => pauses_before p acc r
      end
  end.

(** A client that accepts whatever it is asked to send. *)
Definition accepts_all (env : Env) : Prop :=
  forall n to text, is_resolved (client_sendText env n to text) = true.

(** * Properties *)

(** ** Laws of [run] *)

Section RunLaws.
Context {A B : Type} (env : Env).

Lemma run_bindR (r : Res A) (f : A -> Task B) tr :
  run env tr (bindR r f) =
  match run env tr r with
  | (Return a, s1, tr1) => run env tr1 (f a s1)
  | (Throw e, s1, tr1) => (Throw e, s1, tr1)
  | (Hang, s1, tr1) => (Hang, s1, tr1)
  end.
Proof.
  revert tr. induction r as [c s|c s k IH]; intros tr.
  - destruct c; reflexivity.
  - simpl. apply IH.
Qed.

Lemma run_catchR (r : Res A) (h : Thrown -> Task A) tr :
  run env tr (catchR r h) =
  match run env tr r with
  | (Throw e, s1, tr1) => run env tr1 (h e s1)
  | other => other
  end.
Proof.
  revert tr. induction r as [c s|c s k IH]; intros tr.
  - destruct c; reflexivity.
  - simpl. apply IH.
Qed.

Lemma exec_bind (t : Task A) (f : A -> Task B) s tr :
  exec env (bind t f) s tr =
  match exec env t s tr with
  | (Return a, s1, tr1) => exec env (f a) s1 tr1
  | (Throw e, s1, tr1) => (Throw e, s1, tr1)
  | (Hang, s1, tr1) => (Hang, s1, tr1)
  end.
Proof. apply run_bindR. Qed.

Lemma exec_try_catch (t : Task A) (h : Thrown -> Task A) s tr :
  exec env (try_catch t h) s tr =
  match exec env t s tr with
  | (Throw e, s1, tr1) => exec env (h e) s1 tr1
  | other => other
  end.
Proof. apply run_catchR. Qed.

Lemma exec_ret (a : A) s tr : exec env (ret a) s tr = (Return a, s, tr).
Proof. reflexivity. Qed.

Lemma exec_throw e s tr : exec env (throw e : Task A) s tr = (Throw e, s, tr).
Proof. reflexivity. Qed.
End RunLaws.

Lemma exec_await env c s tr :
  exec env (await c) s tr =
  (completion_of (answer env tr c), s, tr ++ [(c, answer env tr c)]).
Proof.
  unfold exec, await; simpl. destruct (answer env tr c); reflexivity.
Qed.

Lemma exec_sleep env ms s tr :
  exec env (sleep ms) s tr = (Return tt, s, tr ++ [(Sleep ms, Resolved NoData)]).
Proof. reflexivity. Qed.

Lemma exec_modify env f s tr : exec env (modify f) s tr = (Return tt, f s, tr).
Proof. reflexivity. Qed.

Lemma exec_console env l s tr :
  exec env (console_ l) s tr = (Return tt, add_console l s, tr).
Proof. reflexivity. Qed.

Lemma exec_get_store env s tr : exec env get_store s tr = (Return s, s, tr).
Proof. reflexivity. Qed.

Lemma calls_app p (tr1 tr2 : Trace) : calls p (tr1 ++ tr2) = calls p tr1 ++ calls p tr2.
Proof. apply List.filter_app. Qed.

(** ** Rules for [sat] *)

Section SatRules.
Context (P : Call -> Prop) (R : Store -> Store -> Prop).
Context (Rrefl : forall s, R s s) (Rtrans : forall a b c, R a b -> R b c -> R a c).

Lemma sat_pre {A} (Q : Completion A -> Prop) s0 s r :
  R s0 s -> sat P R Q s r -> sat P R Q s0 r.
Proof using Rrefl Rtrans.
  intros H. destruct r as [c s'|c s' k]; simpl.
  - intros [? ?]. eauto.
  - intros (? & ? & ?). eauto.
Qed.

Lemma sat_weaken {A} (Q Q' : Completion A -> Prop) s0 r :
  (forall c, Q c -> Q' c) -> sat P R Q s0 r -> sat P R Q' s0 r.
Proof using Rrefl Rtrans.
  intros HQ. revert s0. induction r as [c s|c s k IH]; intros s0; simpl.
  - intros [? ?]. auto.
  - intros (? & ? & Hk). repeat split; auto.
Qed.

Lemma sat_ret {A} (Q : Completion A -> Prop) a s :
  Q (Return a) -> sat P R Q s (ret a s).
Proof using Rrefl Rtrans. simpl. auto. Qed.

Lemma sat_throw {A} (Q : Completion A -> Prop) e s :
  Q (Throw e) -> sat P R Q s (throw e s).
Proof using Rrefl Rtrans. simpl. auto. Qed.

Lemma sat_modify (Q : Completion unit -> Prop) f s :
  R s (f s) -> Q (Return tt) -> sat P R Q s (modify f s).
Proof using Rrefl Rtrans. simpl. auto. Qed.

Lemma sat_get_store (Q : Completion Store -> Prop) s :
  Q (Return s) -> sat P R Q s (get_store s).
Proof using Rrefl Rtrans. simpl. auto. Qed.

Lemma sat_await (Q : Completion Data -> Prop) c s :
  P c -> (forall d, Q (Return d)) -> (forall e, Q (Throw (Err e))) ->
  sat P R Q s (await c s).
Proof using Rrefl Rtrans.
  intros Hc Hd He. simpl. repeat split; auto.
  intros [d|e] s1; simpl; auto.
Qed.

Lemma sat_sleep (Q : Completion unit -> Prop) ms s :
  P (Sleep ms) -> Q (Return tt) -> sat P R Q s (sleep ms s).
Proof using Rrefl Rtrans. intros Hc Hq. simpl. repeat split; auto. Qed.

Lemma sat_bindR {A B} (Q1 : Completion A -> Prop) (Q2 : Completion B -> Prop)
    s0 (r : Res A) (f : A -> Task B) :
  sat P R Q1 s0 r ->
  (forall a s, Q1 (Return a) -> sat P R Q2 s (f a s)) ->
  (forall e, Q1 (Throw e) -> Q2 (Throw e)) ->
  (Q1 Hang -> Q2 Hang) ->
  sat P R Q2 s0 (bindR r f).
Proof using Rrefl Rtrans.
  intros Hr Hf He Hh. revert s0 Hr.
  induction r as [c s|c s k IH]; intros s0; simpl.
  - intros [HR HQ]. destruct c as [a|e|]; simpl; auto.
    apply (sat_pre _ _ s); auto.
  - intros (? & ? & Hk). repeat split; auto.
Qed.

Lemma sat_bind {A B} (Q1 : Completion A -> Prop) (Q2 : Completion B -> Prop)
    s (t : Task A) (f : A -> Task B) :
  sat P R Q1 s (t s) ->
  (forall a s', Q1 (Return a) -> sat P R Q2 s' (f a s')) ->
  (forall e, Q1 (Throw e) -> Q2 (Throw e)) ->
  (Q1 Hang -> Q2 Hang) ->
  sat P R Q2 s (bind t f s).
Proof using Rrefl Rtrans. apply sat_bindR. Qed.

Lemma sat_catchR {A} (Q1 Q2 : Completion A -> Prop) s0 (r : Res A) h :
  sat P R Q1 s0 r ->
  (forall e s, Q1 (Throw e) -> sat P R Q2 s (h e s)) ->
  (forall a, Q1 (Return a) -> Q2 (Return a)) ->
  (Q1 Hang -> Q2 Hang) ->
  sat P R Q2 s0 (catchR r h).
Proof using Rrefl Rtrans.
  intros Hr Hh Ha Hg. revert s0 Hr.
  induction r as [c s|c s k IH]; intros s0; simpl.
  - intros [HR HQ]. destruct c as [a|e|]; simpl; auto.
    apply (sat_pre _ _ s); auto.
  - intros (? & ? & Hk). repeat split; auto.
Qed.

Lemma sat_try_catch {A} (Q1 Q2 : Completion A -> Prop) s (t : Task A) h :
  sat P R Q1 s (t s) ->
  (forall e s', Q1 (Throw e) -> sat P R Q2 s' (h e s')) ->
  (forall a, Q1 (Return a) -> Q2 (Return a)) ->
  (Q1 Hang -> Q2 Hang) ->
  sat P R Q2 s (try_catch t h s).
Proof using Rrefl Rtrans. apply sat_catchR. Qed.

(** What [sat] says of a run. *)
Lemma sat_run {A} (Q : Completion A -> Prop) env (r : Res A) :
  forall s0 tr, sat P R Q s0 r ->
  exists c s' ext,
    run env tr r = (c, s', tr ++ ext) /\ Q c /\ R s0 s' /\
    Forall (fun x => P (fst x)) ext.
Proof using Rrefl Rtrans.
  induction r as [c s|c s k IH]; intros s0 tr; simpl.
  - intros [HR HQ]. exists c, s, []. rewrite app_nil_r. by repeat split.
  - intros (Hc & HR & Hk).
    destruct (IH (answer env tr c) s s (tr ++ [(c, answer env tr c)]) (Hk _ _))
      as (c' & s' & ext & E & HQ & HR' & HP).
    exists c', s', ((c, answer env tr c) :: ext).
    rewrite E, <- app_assoc. repeat split; eauto.
Qed.
End SatRules.

(** ** The reply dispatcher: [sendSafe] *)

Lemma ceil_div_lt l c j : 0 < c -> (j * c < l <-> j < ceil_div l c).
Proof.
  intros Hc. unfold ceil_div. split; intros H.
  - apply Nat.div_le_lower_bound; [lia | nia].
  - pose proof (Nat.div_mod_eq (l + c - 1) c) as E.
    pose proof (Nat.mod_upper_bound (l + c - 1) c ltac:(lia)) as U.
    nia.
Qed.

(** [ceil_div] is the ceiling of the quotient. *)
Lemma ceil_div_bounds l c :
  0 < c -> 0 < l -> (ceil_div l c - 1) * c < l <= ceil_div l c * c.
Proof.
  intros Hc Hl.
  pose proof (proj2 (ceil_div_lt l c 0 Hc)) as H0.
  pose proof (ceil_div_lt l c (ceil_div l c - 1) Hc) as H1.
  pose proof (ceil_div_lt l c (ceil_div l c) Hc) as H2.
  destruct (Nat.eq_dec (ceil_div l c) 0) as [E|E].
  - rewrite E in *. lia.
  - split; [apply H1; lia|].
    destruct (Nat.le_gt_cases l (ceil_div l c * c)) as [?|G]; [done|].
    apply H2 in G. lia.
Qed.

Lemma exec_sendSafe_loop env to text c s :
  0 < c ->
  forall k fuel j tr,
    ceil_div (length text) c - j = k ->
    k < fuel ->
    exec env (sendSafe_loop to text c fuel (j * c)) s tr =
    (let '(r, tr') := send_all env to
        (map (fun j => take c (drop (j * c) text)) (seq j k)) tr in (r, s, tr')).
Proof.
  intros Hc. induction k as [|k IH]; intros fuel j tr Hk Hf.
  - destruct fuel as [|fuel]; [lia|]. simpl sendSafe_loop.
    assert ((j * c <? length text) = false) as ->.
    { apply Nat.ltb_ge. destruct (Nat.le_gt_cases (length text) (j * c)) as [?|H]; [done|].
      apply (ceil_div_lt _ _ _ Hc) in H. lia. }
    reflexivity.
  - destruct fuel as [|fuel]; [lia|]. simpl sendSafe_loop.
    assert ((j * c <? length text) = true) as ->.
    { apply Nat.ltb_lt, ceil_div_lt; [done|lia]. }
    rewrite exec_bind, exec_await. cbn [seq map send_all].
    unfold slice. replace (j * c + c - j * c) with c by lia.
    destruct (answer env tr _) as [d|e]; simpl completion_of; cbn iota.
    + replace (j * c + c) with (S j * c) by lia. apply IH; lia.
    + reflexivity.
Qed.

(** [sendSafe] sends the chunks of the text, and never spins when the
    chunk size is positive. *)
Lemma exec_sendSafe env to text c s tr :
  0 < c ->
  exec env (sendSafe to text c) s tr =
  (let '(r, tr') := send_all env to (chunks_of text c) tr in (r, s, tr')).
Proof.
  intros Hc. unfold sendSafe, chunks_of.
  destruct (length text <=? c) eqn:E.
  - rewrite exec_bind, exec_await. cbn [send_all].
    destruct (answer env tr _); reflexivity.
  - apply Nat.leb_gt in E.
    apply (exec_sendSafe_loop env to text c s Hc _ _ 0 tr); [lia|].
    pose proof (ceil_div_bounds (length text) c Hc ltac:(lia)). nia.
Qed.

Lemma send_all_trace env to texts tr :
  exists ext k,
    snd (send_all env to texts tr) = tr ++ ext /\
    map fst ext = map (SendText to) (take k texts) /\
    ((fst (send_all env to texts tr) = Return tt /\ k = length texts /\
      Forall (fun x => is_resolved (snd x) = true) ext) \/
     (exists e t pre,
        fst (send_all env to texts tr) = Throw (Err e) /\
        ext = pre ++ [(SendText to t, Rejected e)])).
Proof.
  revert tr. induction texts as [|t r IH]; intros tr.
  - exists [], 0. simpl. rewrite app_nil_r.
    split; [done|]. split; [done|]. left. by repeat split.
  - cbn [send_all]. destruct (answer env tr (SendText to t)) as [d|e] eqn:Ho.
    + destruct (IH (tr ++ [(SendText to t, Resolved d)])) as (ext & k & E1 & E2 & E3).
      exists ((SendText to t, Resolved d) :: ext), (S k).
      rewrite E1, <- app_assoc. split; [done|]. split; [simpl; by rewrite E2|].
      destruct E3 as [(Hc & Hk & Hall)|(e & t' & pre & Hc & Hext)].
      * left. split; [done|]. split; [simpl; lia|]. by constructor.
      * right. exists e, t', ((SendText to t, Resolved d) :: pre).
        split; [done|]. by rewrite Hext.
    + exists [(SendText to t, Rejected e)], 1. simpl. split; [done|].
      split; [done|].
      right. by exists e, t, [].
Qed.

Lemma chunks_of_fits text c : length text <= c -> chunks_of text c = [text].
Proof. intros H. unfold chunks_of. by apply Nat.leb_le in H as ->. Qed.

Lemma chunks_of_length text c :
  c < length text -> length (chunks_of text c) = ceil_div (length text) c.
Proof.
  intros H. unfold chunks_of. apply Nat.leb_gt in H as ->.
  by rewrite length_map, length_seq.
Qed.

Lemma chunks_of_bounded text c :
  Forall (fun ch => length ch <= c) (chunks_of text c).
Proof.
  unfold chunks_of. destruct (length text <=? c) eqn:E.
  - apply Nat.leb_le in E. by constructor.
  - apply Forall_map, Forall_forall. intros j _. simpl. rewrite length_take. lia.
Qed.

Lemma concat_slices (text : jsstring) c k j :
  concat (map (fun j => take c (drop (j * c) text)) (seq j k)) =
  take (k * c) (drop (j * c) text).
Proof.
  revert j. induction k as [|k IH]; intros j; simpl.
  - done.
  - rewrite IH. replace (S j * c) with (j * c + c) by lia.
    rewrite <- drop_drop. apply take_take_drop.
Qed.

Lemma chunks_of_concat text c : 0 < c -> concat (chunks_of text c) = text.
Proof.
  intros Hc. unfold chunks_of. destruct (length text <=? c) eqn:E.
  - simpl. by rewrite app_nil_r.
  - apply Nat.leb_gt in E. rewrite concat_slices. simpl. rewrite drop_0.
    apply take_ge. pose proof (ceil_div_bounds (length text) c Hc). lia.
Qed.

(** What a run of [sendSafe] sends. *)
Lemma sendSafe_sends_consecutive_chunks_aux env to text c s tr :
  0 < c ->
  exists r ext,
    exec env (sendSafe to text c) s tr = (r, s, tr ++ ext) /\
    concat (chunks_of text c) = text /\
    ((r = Return tt /\ map fst ext = map (SendText to) (chunks_of text c)) \/
     (exists e t pre, r = Throw (Err e) /\ ext = pre ++ [(SendText to t, Rejected e)])).
Proof.
  intros Hc.
  destruct (send_all_trace env to (chunks_of text c) tr) as (ext & k & E1 & E2 & E3).
  exists (fst (send_all env to (chunks_of text c) tr)), ext.
  split.
  { rewrite exec_sendSafe by done.
    destruct (send_all env to (chunks_of text c) tr) as [r tr'] eqn:E.
    simpl in *. by subst. }
  split; [by apply chunks_of_concat|].
  destruct E3 as [(Hr & Hk & _)|(e & t & pre & Hr & Hext)].
  - left. split; [done|]. by rewrite E2, Hk, firstn_all.
  - right. by exists e, t, pre.
Qed.

(** C3.  For a positive chunk size [c], [sendSafe] hands the client the
    chunks of the text in order and nothing else: a text of at most [c]
    code units is one message; a longer one is cut into [ceil (L / c)]
    consecutive chunks of at most [c] code units whose concatenation is
    the text.  The run returns once every chunk is sent; it stops early
    only when the client rejects a send, and then throws that rejection. *)
Theorem sendSafe_sends_consecutive_chunks env to text c s tr :
  0 < c ->
  exists r ext,
    exec env (sendSafe to text c) s tr = (r, s, tr ++ ext) /\
    (length text <= c -> chunks_of text c = [text]) /\
    (c < length text ->
       length (chunks_of text c) = ceil_div (length text) c /\
       (ceil_div (length text) c - 1) * c < length text <= ceil_div (length text) c * c) /\
    Forall (fun ch => length ch <= c) (chunks_of text c) /\
    concat (chunks_of text c) = text /\
    (exists k, map fst ext = map (SendText to) (take k (chunks_of text c))) /\
    ((r = Return tt /\ map fst ext = map (SendText to) (chunks_of text c)) \/
     (exists e t pre, r = Throw (Err e) /\ ext = pre ++ [(SendText to t, Rejected e)])).
Proof.
  intros Hc.
  destruct (send_all_trace env to (chunks_of text c) tr) as (ext & k & E1 & E2 & E3).
  exists (fst (send_all env to (chunks_of text c) tr)), ext.
  split.
  { rewrite exec_sendSafe by done.
    destruct (send_all env to (chunks_of text c) tr) as [r tr'] eqn:E.
    simpl in *. by subst. }
  split; [apply chunks_of_fits|].
  split.
  { intros H. split; [by apply chunks_of_length|].
    apply ceil_div_bounds; lia. }
  split; [apply chunks_of_bounded|].
  split; [by apply chunks_of_concat|].
  split; [by exists k|].
  destruct E3 as [(Hr & Hk & _)|(e & t & pre & Hr & Hext)].
  - left. split; [done|]. by rewrite E2, Hk, firstn_all.
  - right. by exists e, t, pre.
Qed.

(** ** The HTTP client wrapper: [postWithRetry] and [getHealthWithRetry] *)

Lemma exec_backoff env delays i s tr :
  exec env (backoff delays i) s tr = (Return tt, s, tr ++ backoff_calls delays i).
Proof.
  unfold backoff, backoff_calls. destruct (delays !! i) as [d|].
  - destruct (d =? 0)%Z; [|reflexivity]. by rewrite exec_ret, app_nil_r.
  - by rewrite exec_ret, app_nil_r.
Qed.

Lemma calls_backoff p delays i :
  p (Sleep 0) = false -> (forall d, p (Sleep d) = p (Sleep 0)) ->
  calls p (backoff_calls delays i) = [].
Proof.
  intros H0 H. unfold backoff_calls. destruct (delays !! i) as [d|]; [|done].
  destruct (d =? 0)%Z; [done|]. unfold calls. simpl. by rewrite H, H0.
Qed.

Lemma retry_result_rejected e outs lastErr :
  retry_result (Rejected e :: outs) lastErr = retry_result outs (Err e).
Proof.
  unfold retry_result. destruct outs as [|o' outs]; [done|].
  rewrite last_cons_cons, last_cons. by destruct (last outs).
Qed.

Lemma add_consoles_nil s : add_consoles [] s = s.
Proof. destruct s. unfold add_consoles. simpl. by rewrite app_nil_r. Qed.

Lemma add_consoles_cons l ls s :
  add_consoles ls (add_console l s) = add_consoles (l :: ls) s.
Proof. unfold add_consoles, add_console. simpl. by rewrite <- app_assoc. Qed.

(** [postWithRetry] as a function of the backend's answers. *)
Lemma exec_postWithRetry_loop env pathname data tries n :
  forall i lastErr s tr,
    exec env (postWithRetry_loop pathname data tries n i lastErr) s tr =
    (let outs := attempts (fun p => api_post env p pathname data)
                          (length (calls is_post tr)) n in
     (retry_result outs lastErr,
      add_consoles (retry_log (warn_post pathname tries) outs i) s,
      tr ++ retry_calls post_delays (Post pathname data) outs i)).
Proof.
  induction n as [|n IH]; intros i lastErr s tr.
  - simpl. by rewrite add_consoles_nil, app_nil_r.
  - cbn [postWithRetry_loop attempts].
    rewrite exec_try_catch, exec_bind, exec_backoff, exec_await.
    assert (answer env (tr ++ backoff_calls post_delays i) (Post pathname data) =
            api_post env (length (calls is_post tr)) pathname data) as ->.
    { unfold answer. by rewrite calls_app, calls_backoff, app_nil_r. }
    destruct (api_post env (length (calls is_post tr)) pathname data) as [d|e] eqn:Ho;
      cbn [completion_of].
    + cbn [retry_calls retry_log]. unfold retry_result. simpl last.
      by rewrite add_consoles_nil, <- app_assoc.
    + cbn [caught]. rewrite exec_bind, exec_ret, exec_bind, exec_console, IH.
      rewrite !calls_app, calls_backoff, app_nil_r by done.
      cbn [calls List.filter fst is_post]. rewrite length_app. cbn [length].
      rewrite Nat.add_1_r. cbn zeta.
      rewrite retry_result_rejected, add_consoles_cons.
      cbn [retry_calls retry_log]. by rewrite <- !app_assoc.
Qed.

Lemma exec_postWithRetry env pathname data tries s tr :
  exec env (postWithRetry pathname data tries) s tr =
  (let outs := attempts (fun p => api_post env p pathname data)
                        (length (calls is_post tr)) tries in
   (retry_result outs Undefined,
    add_consoles (retry_log (warn_post pathname tries) outs 0) s,
    tr ++ retry_calls post_delays (Post pathname data) outs 0)).
Proof. apply exec_postWithRetry_loop. Qed.

Lemma exec_getHealthWithRetry_loop env tries n :
  forall i lastErr s tr,
    exec env (getHealthWithRetry_loop tries n i lastErr) s tr =
    (let outs := attempts (axios_get_health env) (length (calls is_health tr)) n in
     (retry_result outs lastErr,
      add_consoles (retry_log (warn_health tries) outs i) s,
      tr ++ retry_calls health_delays GetHealth outs i)).
Proof.
  induction n as [|n IH]; intros i lastErr s tr.
  - simpl. by rewrite add_consoles_nil, app_nil_r.
  - cbn [getHealthWithRetry_loop attempts].
    rewrite exec_try_catch, exec_bind, exec_backoff, exec_await.
    assert (answer env (tr ++ backoff_calls health_delays i) (GetHealth) =
            axios_get_health env (length (calls is_health tr))) as ->.
    { unfold answer. by rewrite calls_app, calls_backoff, app_nil_r. }
    destruct (axios_get_health env (length (calls is_health tr))) as [d|e] eqn:Ho;
      cbn [completion_of].
    + cbn [retry_calls retry_log]. unfold retry_result. simpl last.
      by rewrite add_consoles_nil, <- app_assoc.
    + cbn [caught]. rewrite exec_bind, exec_ret, exec_bind, exec_console, IH.
      rewrite !calls_app, calls_backoff, app_nil_r by done.
      cbn [calls List.filter fst is_health]. rewrite length_app. cbn [length].
      rewrite Nat.add_1_r. cbn zeta.
      rewrite retry_result_rejected, add_consoles_cons.
      cbn [retry_calls retry_log]. by rewrite <- !app_assoc.
Qed.

Lemma attempts_success ask p n k v :
  k < n ->
  (forall j, j < k -> is_resolved (ask (p + j)) = false) ->
  ask (p + k) = Resolved v ->
  exists errs,
    length errs = k /\ attempts ask p n = map Rejected errs ++ [Resolved v].
Proof.
  revert p n. induction k as [|k IH]; intros p n Hn Hfail Hok.
  - exists []. destruct n as [|n]; [lia|]. simpl.
    rewrite Nat.add_0_r in Hok. by rewrite Hok.
  - destruct n as [|n]; [lia|]. simpl.
    pose proof (Hfail 0 ltac:(lia)) as H0. rewrite Nat.add_0_r in H0.
    destruct (ask p) as [d|e]; [done|].
    destruct (IH (S p) n ltac:(lia)) as (errs & Hlen & Heq).
    + intros j Hj. replace (S p + j) with (p + S j) by lia. apply Hfail. lia.
    + by replace (S p + k) with (p + S k) by lia.
    + exists (e :: errs). simpl. by rewrite Hlen, Heq.
Qed.

Lemma attempts_all_fail ask p n :
  (forall j, j < n -> is_resolved (ask (p + j)) = false) ->
  exists errs,
    length errs = n /\ attempts ask p n = map Rejected errs /\
    (forall j e, errs !! j = Some e -> ask (p + j) = Rejected e).
Proof.
  revert p. induction n as [|n IH]; intros p Hfail.
  - by exists [].
  - simpl. pose proof (Hfail 0 ltac:(lia)) as H0. rewrite Nat.add_0_r in H0.
    destruct (ask p) as [d|e] eqn:E; [done|].
    destruct (IH (S p)) as (errs & Hlen & Heq & Hget).
    { intros j Hj. replace (S p + j) with (p + S j) by lia. apply Hfail. lia. }
    exists (e :: errs). split; [simpl; lia|]. split; [simpl; by rewrite Heq|].
    intros [|j] e'; simpl.
    + intros [= <-]. by rewrite Nat.add_0_r.
    + intros H. replace (p + S j) with (S p + j) by lia. by apply Hget.
Qed.

Lemma calls_retry p delays c outs i :
  p (Sleep 0) = false -> (forall d, p (Sleep d) = p (Sleep 0)) ->
  calls p (retry_calls delays c outs i) =
  if p c then map (fun o => (c, o)) outs else [].
Proof.
  intros H0 H. revert i. induction outs as [|o' outs IH]; intros i.
  - by destruct (p c).
  - cbn [retry_calls]. rewrite calls_app, calls_backoff by done.
    cbn [app map]. change (calls ?p (?x :: ?r)) with
      (if p (fst x) then x :: calls p r else calls p r).
    cbn [fst]. rewrite IH. by destruct (p c).
Qed.

Lemma calls_post_retry delays pathname data outs i :
  calls is_post (retry_calls delays (Post pathname data) outs i) =
  map (fun o => (Post pathname data, o)) outs.
Proof. by rewrite calls_retry. Qed.

Lemma calls_health_retry delays outs i :
  calls is_health (retry_calls delays GetHealth outs i) =
  map (fun o => (GetHealth, o)) outs.
Proof. by rewrite calls_retry. Qed.

Lemma sent_texts_app tr1 tr2 : sent_texts (tr1 ++ tr2) = sent_texts tr1 ++ sent_texts tr2.
Proof.
  induction tr1 as [|[c o] tr1 IH]; [done|].
  destruct c; simpl; by rewrite ?IH.
Qed.

Lemma sent_texts_retry delays c outs i :
  is_send c = false -> sent_texts (retry_calls delays c outs i) = [].
Proof.
  intros Hc. revert i. induction outs as [|o' outs IH]; intros i; [done|].
  cbn [retry_calls]. rewrite sent_texts_app.
  assert (sent_texts (backoff_calls delays i) = []) as ->.
  { unfold backoff_calls. destruct (delays !! i) as [d|]; [|done]. by destruct (d =? 0)%Z. }
  destruct c; try done; simpl; apply IH.
Qed.

Lemma attempt_delays_retry delays pathname data outs i :
  attempt_delays (retry_calls delays (Post pathname data) outs i) =
  map (delay_before delays) (seq i (length outs)).
Proof.
  unfold attempt_delays. revert i.
  induction outs as [|o outs IH]; intros i; [done|].
  cbn [retry_calls length seq map]. rewrite <- IH.
  unfold backoff_calls, delay_before.
  destruct (delays !! i) as [d|]; [|done]. simpl.
  destruct (d =? 0)%Z eqn:E; [|done].
  apply Z.eqb_eq in E. by subst.
Qed.

Lemma attempts_length ask p n : length (attempts ask p n) <= n.
Proof.
  revert p. induction n as [|n IH]; intros p; simpl; [lia|].
  destruct (ask p); simpl; [lia|]. specialize (IH (S p)). lia.
Qed.

Lemma store_after_consoles ls s :
  userLevels (add_consoles ls s) = userLevels s /\
  warmedUp (add_consoles ls s) = warmedUp s.
Proof. done. Qed.

(** C1 (as amended).  When the backend rejects the first [N - 1] attempts
    and accepts attempt [N], with [N] at most [tries] and at most the three
    entries of the schedule, [postWithRetry] returns the payload of that
    attempt after exactly [N] posts of the request; the time slept before
    attempt [i] is entry [i] of [[0; 2000; 5000]]: nothing before the first
    attempt, and strictly more before each later one. *)
Theorem postWithRetry_succeeds_on_attempt_N env pathname data tries N v s tr :
  1 <= N -> N <= tries -> N <= length post_delays ->
  (forall j, j < N - 1 ->
     is_resolved (api_post env (length (calls is_post tr) + j) pathname data) = false) ->
  api_post env (length (calls is_post tr) + (N - 1)) pathname data = Resolved v ->
  exists s' ext,
    exec env (postWithRetry pathname data tries) s tr = (Return v, s', tr ++ ext) /\
    length (calls is_post ext) = N /\
    Forall (fun x => fst x = Post pathname data) (calls is_post ext) /\
    attempt_delays ext = take N post_delays /\
    attempt_delays ext !! 0 = Some 0%Z /\
    strictly_increasing (attempt_delays ext) = true /\
    userLevels s' = userLevels s /\ warmedUp s' = warmedUp s.
Proof.
  intros H1 Htries H3 Hfail Hok.
  destruct (attempts_success (fun p => api_post env p pathname data)
              (length (calls is_post tr)) tries (N - 1) v ltac:(lia) Hfail Hok)
    as (errs & Hlen & Hatt).
  rewrite exec_postWithRetry. cbn zeta. rewrite Hatt.
  eexists _, _. split.
  { f_equal. f_equal. unfold retry_result. by rewrite last_snoc. }
  assert (length (map Rejected errs ++ [Resolved v]) = N) as HlenN.
  { rewrite length_app, length_map. simpl. lia. }
  rewrite calls_post_retry, attempt_delays_retry, length_map, HlenN.
  split; [done|].
  split; [by apply Forall_map, Forall_forall|].
  unfold post_delays in *. simpl in H3.
  destruct N as [|[|[|[|N]]]]; try lia; by repeat split.
Qed.

(** The hypotheses of [postWithRetry_succeeds_on_attempt_N] hold of a
    backend that rejects two posts and answers the third. *)
Lemma postWithRetry_succeeds_on_attempt_N_witness :
  exists s' ext,
    exec (flaky_env 2 (lit "ok")) (postWithRetry (lit "/correct") (ResetPayload (lit "u1")) 3)
         initial_store [] = (Return (Obj (Some (lit "ok"))), s', [] ++ ext) /\
    length (calls is_post ext) = 3 /\
    attempt_delays ext = [0; 2000; 5000]%Z.
Proof.
  destruct (postWithRetry_succeeds_on_attempt_N (flaky_env 2 (lit "ok")) (lit "/correct")
              (ResetPayload (lit "u1")) 3 3 (Obj (Some (lit "ok"))) initial_store [])
    as (s' & ext & E & Hn & _ & Hd & _).
  - lia.
  - lia.
  - simpl. lia.
  - intros j Hj. simpl in *. destruct j as [|[|j]]; [reflexivity|reflexivity|lia].
  - reflexivity.
  - exists s', ext. by repeat split.
Defined.

(** C1 (as stated) fails past the end of the schedule: with [tries = 4] and
    a backend that accepts the fourth attempt, that attempt is made with no
    delay at all, after one that waited 5000 ms. *)
Lemma postWithRetry_fourth_attempt_not_delayed :
  let env := flaky_env 3 (lit "ok") in
  let pathname := lit "/correct" in
  let data := ResetPayload (lit "u1") in
  (forall j, j < 4 - 1 -> is_resolved (api_post env j pathname data) = false) /\
  api_post env (4 - 1) pathname data = Resolved (Obj (Some (lit "ok"))) /\
  let '(r, _, tr) := exec env (postWithRetry pathname data 4) initial_store [] in
  r = Return (Obj (Some (lit "ok"))) /\
  length (calls is_post tr) = 4 /\
  attempt_delays tr = [0; 2000; 5000; 0]%Z /\
  strictly_increasing (attempt_delays tr) = false.
Proof.
  split.
  { intros j Hj. destruct j as [|[|[|j]]]; [reflexivity..|lia]. }
  split; [reflexivity|]. vm_compute. by repeat split.
Qed.


(** ** The branches of the router *)

Lemma route_audio m userPhone body :
  is_audio m = true ->
  route m userPhone body = (await (SendText userPhone audio_disabled_notice) ;; ret tt).
Proof. intros H. unfold route. by rewrite H. Qed.

Lemma digit_not_keyword body :
  body ∈ level_digits ->
  str_eqb (toLowerCase body) (lit "#ajuda") = false /\
  str_eqb (toLowerCase body) (lit "#nivel") = false /\
  str_eqb (toLowerCase body) (lit "#resetar") = false.
Proof.
  unfold level_digits. rewrite !elem_of_cons, elem_of_nil.
  intros [->|[->|[->|[->|[]]]]]; by vm_compute.
Qed.

Lemma route_level m userPhone body :
  is_audio m = false -> body ∈ level_digits ->
  route m userPhone body =
  (modify (set_userLevels (assign_level userPhone (prop_get levelMap body))) ;;
   await (SendText userPhone (level_confirmation (prop_get levelMap body))) ;;
   ret tt).
Proof.
  intros Ha Hd. unfold route. rewrite Ha.
  destruct (digit_not_keyword body Hd) as (-> & -> & _).
  fold level_digits. by rewrite bool_decide_eq_true_2.
Qed.

Lemma route_resetar m userPhone body :
  is_audio m = false -> toLowerCase body = lit "#resetar" ->
  route m userPhone body = resetar userPhone.
Proof.
  intros Ha Hr. unfold route. rewrite Ha, Hr.
  fold level_digits. rewrite bool_decide_eq_false_2.
  - by vm_compute.
  - intros Hd. destruct (digit_not_keyword body Hd) as (_ & _ & H).
    rewrite Hr in H. by vm_compute in H.
Qed.

Lemma route_default m userPhone body :
  is_audio m = false -> toLowerCase body ∉ keywords -> body ∉ level_digits ->
  route m userPhone body = correct userPhone body.
Proof.
  intros Ha Hk Hd. unfold route. rewrite Ha.
  unfold keywords in Hk. rewrite !not_elem_of_cons in Hk.
  destruct Hk as (H1 & H2 & H3 & _).
  unfold str_eqb. rewrite !bool_decide_eq_false_2 by done. done.
Qed.

(** ** Every step of the handler *)

Section HandlerSteps.
Context (P : Call -> Prop) (R : Store -> Store -> Prop).
Context (Rrefl : forall s, R s s) (Rtrans : forall a b c, R a b -> R b c -> R a c).
Context (Psend : forall to text, P (SendText to text)).
Context (Ppost : forall pathname data, P (Post pathname data)).
Context (Psleep : forall ms, P (Sleep ms)).
Context (Phealth : P GetHealth).
Context (Rconsole : forall l s, R s (add_console l s)).
Context (Rlevels : forall f s, R s (set_userLevels f s)).
Context (Rwarm : forall s, R s (set_warmedUp true s)).

Local Notation "'rule' x" := (x P R Rrefl Rtrans) (at level 10, only parsing).

Lemma sat_caught e s :
  sat P R (fun c => settled c /\ forall o, c = Return o -> e = Err o) s (caught e s).
Proof using Rrefl.
  destruct e as [|o]; simpl; repeat split; auto; congruence.
Qed.

Lemma sat_backoff delays i s : sat P R (fun c => c = Return tt) s (backoff delays i s).
Proof using Rrefl Rtrans Psleep.
  unfold backoff. destruct (delays !! i) as [d|]; [|by apply (rule sat_ret)].
  destruct (d =? 0)%Z; [by apply (rule sat_ret)|]. by apply (rule sat_sleep).
Qed.

Lemma sat_console l s : sat P R (fun c => c = Return tt) s (console_ l s).
Proof using Rrefl Rtrans Rconsole. by apply (rule sat_modify). Qed.

Lemma sat_postWithRetry_loop pathname data tries n :
  forall i lastErr s,
    (n = 0 -> exists e, lastErr = Err e) ->
    sat P R settled s (postWithRetry_loop pathname data tries n i lastErr s).
Proof using Rrefl Rtrans Ppost Psleep Rconsole.
  induction n as [|n IH]; intros i lastErr s Hn.
  - destruct (Hn eq_refl) as [e ->]. by apply (rule sat_throw).
  - cbn [postWithRetry_loop].
    apply (rule sat_try_catch) with (Q1 := settled); try done.
    + eapply (rule sat_bind); [apply sat_backoff| | |]; try done.
      intros _ s' _. by apply (rule sat_await).
    + intros e s' He. destruct e as [|o]; [done|]. cbn [caught].
      eapply (rule sat_bind);
        [by apply (rule sat_ret) with (Q := fun c => c = Return o)| | |]; try done.
      intros a s'' _.
      eapply (rule sat_bind); [apply sat_console| | |]; try done.
      intros _ s3 _. apply IH. eauto.
Qed.

Lemma sat_postWithRetry pathname data s :
  sat P R settled s (postWithRetry pathname data default_tries s).
Proof using Rrefl Rtrans Ppost Psleep Rconsole.
  apply sat_postWithRetry_loop. intros [=].
Qed.

Lemma sat_getHealthWithRetry_loop tries n :
  forall i lastErr s,
    (n = 0 -> exists e, lastErr = Err e) ->
    sat P R settled s (getHealthWithRetry_loop tries n i lastErr s).
Proof using Rrefl Rtrans Phealth Psleep Rconsole.
  induction n as [|n IH]; intros i lastErr s Hn.
  - destruct (Hn eq_refl) as [e ->]. by apply (rule sat_throw).
  - cbn [getHealthWithRetry_loop].
    apply (rule sat_try_catch) with (Q1 := settled); try done.
    + eapply (rule sat_bind); [apply sat_backoff| | |]; try done.
      intros _ s' _. by apply (rule sat_await).
    + intros e s' He. destruct e as [|o]; [done|]. cbn [caught].
      eapply (rule sat_bind);
        [by apply (rule sat_ret) with (Q := fun c => c = Return o)| | |]; try done.
      intros a s'' _.
      eapply (rule sat_bind); [apply sat_console| | |]; try done.
      intros _ s3 _. apply IH. eauto.
Qed.

Lemma sat_bind_settled {A B} (t : Task A) (f : A -> Task B) s :
  sat P R settled s (t s) ->
  (forall a s', sat P R settled s' (f a s')) ->
  sat P R settled s (bind t f s).
Proof using Rrefl Rtrans.
  intros Ht Hf. apply (rule sat_bind) with (Q1 := settled); auto.
Qed.

Lemma sat_try_catch_settled {A} (t : Task A) h s :
  sat P R settled s (t s) ->
  (forall o s', sat P R settled s' (h (Err o) s')) ->
  sat P R settled s (try_catch t h s).
Proof using Rrefl Rtrans.
  intros Ht Hh. apply (rule sat_try_catch) with (Q1 := settled); auto.
  intros [|o] s'; [done|auto].
Qed.

Lemma sat_await_settled c s : P c -> sat P R settled s (await c s).
Proof using Rrefl Rtrans. intros Hc. by apply (rule sat_await). Qed.

Lemma sat_ret_settled {A} (a : A) s : sat P R settled s (ret a s).
Proof using Rrefl Rtrans. by apply (rule sat_ret). Qed.

Lemma sat_console_settled l s : sat P R settled s (console_ l s).
Proof using Rrefl Rtrans Rconsole. by apply (rule sat_modify). Qed.

Lemma sat_send to text s :
  sat P R settled s ((await (SendText to text) ;; ret tt) s).
Proof using Rrefl Rtrans Psend.
  apply sat_bind_settled; [by apply sat_await_settled|].
  intros. apply sat_ret_settled.
Qed.

Lemma sat_sendSafe_loop to text c fuel :
  0 < c ->
  forall i s,
    0 < fuel -> length text < i + fuel ->
    sat P R settled s (sendSafe_loop to text c fuel i s).
Proof using Rrefl Rtrans Psend.
  intros Hc. induction fuel as [|fuel IH]; intros i s Hf Hi; [lia|].
  cbn [sendSafe_loop]. destruct (i <? length text) eqn:E.
  - apply Nat.ltb_lt in E.
    apply sat_bind_settled; [by apply sat_await_settled|].
    intros _ s'. apply IH; lia.
  - apply sat_ret_settled.
Qed.

Lemma sat_sendSafe to text c s :
  0 < c -> sat P R settled s (sendSafe to text c s).
Proof using Rrefl Rtrans Psend.
  intros Hc. unfold sendSafe. destruct (length text <=? c).
  - apply sat_send.
  - apply sat_sendSafe_loop; [done|lia|lia].
Qed.

Lemma sat_dispatchReply userPhone botReply s :
  sat P R settled s (dispatchReply userPhone botReply s).
Proof using Rrefl Rtrans Psend.
  unfold dispatchReply.
  destruct (includes botReply correct_marker);
    [|destruct (includes botReply incorrect_marker)];
    apply sat_sendSafe; unfold default_maxLen; lia.
Qed.

Lemma sat_resetar userPhone s : sat P R settled s (resetar userPhone s).
Proof using Rrefl Rtrans Psend Ppost Psleep Rconsole.
  unfold resetar. apply sat_try_catch_settled.
  - apply sat_bind_settled; [apply sat_postWithRetry|].
    intros _ s'. apply sat_send.
  - intros o s'. cbn [caught].
    apply sat_bind_settled; [apply sat_ret_settled|]. intros a s''.
    apply sat_bind_settled; [apply sat_console_settled|]. intros _ s3.
    apply sat_send.
Qed.

Lemma sat_correct userPhone body s : sat P R settled s (correct userPhone body s).
Proof using Rrefl Rtrans Psend Ppost Psleep Rconsole.
  unfold correct.
  apply sat_bind_settled; [by apply (rule sat_get_store)|]. intros s0 s1.
  apply sat_bind_settled; [apply sat_console_settled|]. intros _ s2.
  apply sat_bind_settled; [apply sat_console_settled|]. intros _ s3.
  apply sat_bind_settled.
  - apply sat_try_catch_settled.
    + apply sat_bind_settled; [apply sat_postWithRetry|].
      intros d s4. apply sat_ret_settled.
    + intros o s4. cbn [caught].
      apply sat_bind_settled; [apply sat_ret_settled|]. intros a s5.
      apply sat_bind_settled; [apply sat_console_settled|]. intros _ s6.
      apply sat_bind_settled; [by apply sat_await_settled|]. intros _ s7.
      apply sat_ret_settled.
  - intros [data|] s4; [|apply sat_ret_settled].
    apply sat_bind_settled; [apply sat_console_settled|]. intros _ s5.
    apply sat_dispatchReply.
Qed.

(** The router away from the level choice. *)
Lemma sat_route_other m userPhone body s :
  is_audio m = true \/ body ∉ level_digits ->
  sat P R settled s (route m userPhone body s).
Proof using Rrefl Rtrans Psend Ppost Psleep Rconsole.
  intros Hc. unfold route.
  destruct (is_audio m); [apply sat_send|].
  destruct (str_eqb _ _); [apply sat_send|].
  destruct (str_eqb _ _); [apply sat_send|].
  fold level_digits. destruct Hc as [[=]|Hd].
  rewrite bool_decide_eq_false_2 by done.
  destruct (str_eqb _ _); [apply sat_resetar|apply sat_correct].
Qed.

Lemma sat_route m userPhone body s : sat P R settled s (route m userPhone body s).
Proof using Rrefl Rtrans Psend Ppost Psleep Rconsole Rlevels.
  destruct (is_audio m) eqn:Ha; [apply sat_route_other; auto|].
  destruct (decide (body ∈ level_digits)) as [Hd|Hd]; [|apply sat_route_other; auto].
  rewrite route_level by done.
  apply sat_bind_settled; [by apply (rule sat_modify)|]. intros _ s'.
  apply sat_send.
Qed.

(** The warm-up block swallows whatever goes wrong inside it. *)
Lemma sat_warmUp userPhone s :
  sat P R (fun c => c = Return tt) s (warmUp userPhone s).
Proof using Rrefl Rtrans Psend Psleep Phealth Rconsole Rwarm.
  unfold warmUp.
  apply (rule sat_bind) with (Q1 := fun c => exists a, c = Return a);
    [apply (rule sat_get_store); eauto| |by intros e [a [=]]|by intros [a [=]]].
  intros s0 s1 _. destruct (negb (warmedUp s0)); [|by apply (rule sat_ret)].
  apply (rule sat_bind) with (Q1 := fun c => c = Return tt);
    [by apply (rule sat_modify)| |done|done].
  intros _ s2 _.
  apply (rule sat_try_catch) with (Q1 := settled).
  - apply sat_bind_settled; [by apply sat_await_settled|]. intros _ s3.
    apply sat_bind_settled.
    + apply sat_getHealthWithRetry_loop. intros [=].
    + intros ok s4. apply sat_console_settled.
  - intros [|o] s3; [done|]. intros _. cbn [caught].
    apply (rule sat_bind) with (Q1 := fun c => c = Return o);
      [by apply (rule sat_ret)| |done|done].
    intros a s4 _. apply sat_console.
  - by intros [].
  - done.
Qed.

(** Once [warmedUp] is set the block does nothing. *)
Lemma sat_warmUp_warm userPhone s :
  warmedUp s = true ->
  sat P R (fun c => c = Return tt) s (warmUp userPhone s).
Proof using Rrefl Rtrans.
  intros Hw. unfold warmUp, bind, get_store. simpl. rewrite Hw. simpl. auto.
Qed.

(** The handler around a warm-up block and a router with these
    properties. *)
Lemma sat_handleMessage_parts message s :
  (forall userPhone, sat P R (fun c => c = Return tt) s (warmUp userPhone s)) ->
  (forall m s',
     message = Some m -> isGroupMsg m = false -> body_of m <> [] ->
     sat P R settled s' (route m (userPhone_of m) (body_of m) s')) ->
  sat P R (fun c => c = Return tt) s (handleMessage message s).
Proof using Rrefl Rtrans Psend Rconsole.
  intros Hw Hr. unfold handleMessage.
  apply (rule sat_try_catch) with (Q1 := settled).
  - destruct message as [m|]; cbn [handleMessage_try]; [|by apply (rule sat_throw)].
    destruct (isGroupMsg m) eqn:Hg; [apply sat_ret_settled|].
    destruct (bool_decide _) eqn:Hb; [apply sat_ret_settled|].
    apply bool_decide_eq_false in Hb.
    apply (rule sat_bind) with (Q1 := fun c => c = Return tt); [apply Hw| |done|done].
    intros _ s' _. by apply Hr.
  - intros e s' _.
    apply (rule sat_bind) with (Q1 := fun c => c = Return tt);
      [apply sat_console| |done|done].
    intros _ s1 _.
    apply (rule sat_try_catch) with (Q1 := settled).
    + apply sat_send.
    + intros e' s2 _. by apply (rule sat_ret).
    + by intros [].
    + done.
  - by intros [].
  - done.
Qed.

Lemma sat_handleMessage_around message s :
  (forall userPhone, sat P R (fun c => c = Return tt) s (warmUp userPhone s)) ->
  sat P R (fun c => c = Return tt) s (handleMessage message s).
Proof using Rrefl Rtrans Psend Ppost Psleep Rconsole Rlevels.
  intros Hw. apply sat_handleMessage_parts; [done|]. intros. apply sat_route.
Qed.

Lemma sat_handleMessage message s :
  sat P R (fun c => c = Return tt) s (handleMessage message s).
Proof using Rrefl Rtrans Psend Ppost Psleep Phealth Rconsole Rlevels Rwarm.
  apply sat_handleMessage_around. intros. apply sat_warmUp.
Qed.

Lemma sat_handleMessage_warm message s :
  warmedUp s = true ->
  sat P R (fun c => c = Return tt) s (handleMessage message s).
Proof using Rrefl Rtrans Psend Ppost Psleep Rconsole Rlevels.
  intros Hw. apply sat_handleMessage_around. intros. by apply sat_warmUp_warm.
Qed.
End HandlerSteps.

(** ** Runs of the handler *)

(** The handler is its [try] block under the top-level [catch]. *)
Lemma exec_handleMessage env message s tr :
  exec env (handleMessage message) s tr =
  barrier env message (exec env (handleMessage_try message) s tr).
Proof.
  unfold handleMessage. rewrite exec_try_catch.
  destruct (exec env (handleMessage_try message) s tr) as [[c s1] tr1].
  destruct c as [a|e|]; [done| |done]. cbn [barrier].
  rewrite exec_bind, exec_console, exec_try_catch, exec_bind, exec_await.
  by destruct (answer env tr1 _).
Qed.

Lemma attempts_nonempty ask p n : attempts ask p (S n) <> [].
Proof. simpl. by destruct (ask p). Qed.

Lemma retry_result_settled outs lastErr :
  outs <> [] -> settled (retry_result outs lastErr).
Proof.
  intros H. unfold retry_result. destruct (last outs) as [o|] eqn:E.
  - by destruct o.
  - by apply last_None in E.
Qed.

(** What the warm-up block does: nothing once [warmedUp] is set; otherwise
    it sets the flag, sends the notice and, if that went through, probes
    [/health] up to three times.  It always returns. *)
Lemma exec_warmUp env userPhone s tr :
  exists sw ext,
    exec env (warmUp userPhone) s tr = (Return tt, sw, tr ++ ext) /\
    userLevels sw = userLevels s /\
    warmedUp sw = true /\
    (warmedUp s = true -> sw = s /\ ext = []) /\
    (warmedUp s = false ->
       exists outs,
         length outs <= default_tries /\
         ext = (SendText userPhone preparing_notice,
                answer env tr (SendText userPhone preparing_notice))
               :: (if is_resolved (answer env tr (SendText userPhone preparing_notice))
                   then retry_calls health_delays GetHealth outs 0 else [])).
Proof.
  unfold warmUp. rewrite exec_bind, exec_get_store.
  destruct (warmedUp s) eqn:Hw; cbn [negb].
  { exists s, []. rewrite exec_ret, app_nil_r. by repeat split. }
  rewrite exec_bind, exec_modify, exec_try_catch, exec_bind, exec_await.
  destruct (answer env tr (SendText userPhone preparing_notice)) as [d|e] eqn:Ho;
    cbn [completion_of is_resolved].
  - rewrite exec_bind. unfold getHealthWithRetry.
    rewrite exec_getHealthWithRetry_loop. cbn zeta.
    set (outs := attempts _ _ _).
    pose proof (retry_result_settled outs Undefined (attempts_nonempty _ _ _)) as Hs.
    pose proof (attempts_length (axios_get_health env)
                  (length (calls is_health
                     (tr ++ [(SendText userPhone preparing_notice, Resolved d)])))
                  default_tries) as Hl.
    fold outs in Hl.
    destruct (retry_result outs Undefined) as [ok|[|o]|]; try done.
    + rewrite exec_console. eexists _, _. split; [by rewrite <- app_assoc|].
      repeat split; try done. intros _. by exists outs.
    + cbn [caught]. rewrite exec_bind, exec_ret, exec_console.
      eexists _, _. split; [by rewrite <- app_assoc|].
      repeat split; try done. intros _. by exists outs.
  - cbn [caught]. rewrite exec_bind, exec_ret, exec_console.
    eexists _, _. split; [done|].
    repeat split; try done. intros _. exists []. split; [simpl; lia|done].
Qed.

(** What the calls of the warm-up block are not: posts; and what it sends. *)
Lemma warmUp_calls env userPhone s tr sw ext :
  exec env (warmUp userPhone) s tr = (Return tt, sw, tr ++ ext) ->
  calls is_post ext = [] /\
  length (calls is_health ext) <= default_tries /\
  sent_texts ext = (if warmedUp s then [] else [preparing_notice]) /\
  length (calls is_send ext) = (if warmedUp s then 0 else 1).
Proof.
  intros E.
  destruct (exec_warmUp env userPhone s tr) as (sw' & ext' & E' & _ & _ & Hwarm & Hcold).
  rewrite E in E'. injection E' as _ Hext. apply app_inv_head in Hext. subst ext'.
  destruct (warmedUp s).
  - destruct (Hwarm eq_refl) as [_ ->]. simpl. repeat split; try done. lia.
  - destruct (Hcold eq_refl) as (outs & Hl & ->).
    destruct (is_resolved _).
    + change (?x :: ?l) with ([x] ++ l).
      rewrite !calls_app, !sent_texts_app, !calls_retry, sent_texts_retry by done.
      simpl. rewrite length_map. by repeat split.
    + simpl. repeat split; try done. lia.
Qed.

(** A message that is not from a group and has a body goes through the
    warm-up block and then the router. *)
Lemma exec_handleMessage_routed env m s tr :
  isGroupMsg m = false -> body_of m <> [] ->
  exists sw pre,
    exec env (handleMessage (Some m)) s tr =
    barrier env (Some m)
      (exec env (route m (userPhone_of m) (body_of m)) sw (tr ++ pre)) /\
    exec env (warmUp (userPhone_of m)) s tr = (Return tt, sw, tr ++ pre) /\
    userLevels sw = userLevels s /\
    warmedUp sw = true /\
    (warmedUp s = true -> sw = s /\ pre = []) /\
    calls is_post pre = [] /\
    length (calls is_health pre) <= default_tries /\
    sent_texts pre = (if warmedUp s then [] else [preparing_notice]) /\
    length (calls is_send pre) = (if warmedUp s then 0 else 1).
Proof.
  intros Hg Hb.
  destruct (exec_warmUp env (userPhone_of m) s tr) as (sw & pre & E & Hl & Hw & Hs & _).
  exists sw, pre. split.
  { rewrite exec_handleMessage. cbn [handleMessage_try]. rewrite Hg.
    rewrite bool_decide_eq_false_2 by done.
    by rewrite exec_bind, E. }
  split; [done|]. split; [done|]. split; [done|]. split; [done|].
  by apply (warmUp_calls env (userPhone_of m) s tr sw pre).
Qed.

(** Group messages, empty bodies and missing messages. *)
Lemma exec_handleMessage_group env m s tr :
  isGroupMsg m = true -> exec env (handleMessage (Some m)) s tr = (Return tt, s, tr).
Proof.
  intros Hg. rewrite exec_handleMessage. cbn [handleMessage_try]. by rewrite Hg.
Qed.

Lemma exec_handleMessage_empty env m s tr :
  body_of m = [] -> exec env (handleMessage (Some m)) s tr = (Return tt, s, tr).
Proof.
  intros Hb. rewrite exec_handleMessage. cbn [handleMessage_try]. rewrite Hb.
  by destruct (isGroupMsg m).
Qed.


(** ** Exhausted retries reach the user as one notice *)

Lemma exec_send_ret env to text s tr :
  exec env (await (SendText to text) ;; ret tt) s tr =
  (match answer env tr (SendText to text) with
   | Resolved _ => Return tt
   | Rejected e => Throw (Err e)
   end, s, tr ++ [(SendText to text, answer env tr (SendText to text))]).
Proof.
  rewrite exec_bind, exec_await. by destruct (answer env tr _).
Qed.






(** ** Reply annotation *)

Lemma sent_texts_sends (ext : Trace) to texts :
  map fst ext = map (SendText to) texts -> sent_texts ext = texts.
Proof.
  revert texts. induction ext as [|[c o] ext IH]; intros [|t texts]; try done.
  simpl. intros [= -> H]. by rewrite (IH _ H).
Qed.

(** C10.  The reply is sent with at most one banner before it: the
    "correct" banner whenever the correct-marker occurs in it (also when
    the incorrect-marker occurs too), the "incorrect" banner when only the
    incorrect-marker occurs, none otherwise; what follows the banner is
    the reply itself, and a run that returns has sent exactly the banner
    followed by the reply. *)
Theorem reply_gets_at_most_one_banner userPhone botReply :
  dispatchReply userPhone botReply =
    sendSafe userPhone (banner_of botReply ++ botReply) default_maxLen /\
  (banner_of botReply = [] \/ banner_of botReply = correct_banner \/
   banner_of botReply = incorrect_banner) /\
  (includes botReply correct_marker = true -> banner_of botReply = correct_banner) /\
  (includes botReply correct_marker = false ->
   includes botReply incorrect_marker = true -> banner_of botReply = incorrect_banner) /\
  (includes botReply correct_marker = false ->
   includes botReply incorrect_marker = false -> banner_of botReply = []) /\
  (forall env s tr,
     exists r ext,
       exec env (dispatchReply userPhone botReply) s tr = (r, s, tr ++ ext) /\
       (r = Return tt -> concat (sent_texts ext) = banner_of botReply ++ botReply)).
Proof.
  assert (dispatchReply userPhone botReply =
          sendSafe userPhone (banner_of botReply ++ botReply) default_maxLen) as Heq.
  { unfold dispatchReply, banner_of.
    destruct (includes botReply correct_marker); [reflexivity|].
    destruct (includes botReply incorrect_marker); reflexivity. }
  split; [exact Heq|].
  split.
  { unfold banner_of. destruct (includes botReply correct_marker).
    - right. left. reflexivity.
    - destruct (includes botReply incorrect_marker).
      + right. right. reflexivity.
      + left. reflexivity. }
  split; [unfold banner_of; intros ->; reflexivity|].
  split; [unfold banner_of; intros -> ->; reflexivity|].
  split; [unfold banner_of; intros -> ->; reflexivity|].
  intros env s tr. rewrite Heq.
  destruct (sendSafe_sends_consecutive_chunks_aux env userPhone
              (banner_of botReply ++ botReply) default_maxLen s tr)
    as (r & ext & E & Hcat & Hr); [unfold default_maxLen; lia|].
  exists r, ext. split; [exact E|]. intros ->.
  destruct Hr as [[_ Hall]|(e & t & pre & [=] & _)].
  rewrite (sent_texts_sends _ _ _ Hall). exact Hcat.
Qed.

(** A reply with both markers gets the "correct" banner. *)
Example both_markers_correct_banner :
  banner_of (lit "❌ Ops! ... ✅ Muito bem!") = correct_banner.
Proof. by vm_compute. Qed.

(** ** The level store *)

Lemma barrier_result env message c s1 tr1 :
  exists s' rescue,
    barrier env message (c, s1, tr1) =
      (match c with Throw _ => Return tt | _ => c end, s', tr1 ++ rescue) /\
    userLevels s' = userLevels s1 /\ warmedUp s' = warmedUp s1 /\
    ((forall e, c <> Throw e) -> s' = s1 /\ rescue = []) /\
    (forall e, c = Throw e ->
       rescue = [(SendText (catch_phone message) unexpected_notice,
                  answer env tr1 (SendText (catch_phone message) unexpected_notice))]).
Proof.
  destruct c as [a|e|]; cbn [barrier].
  - exists s1, []. rewrite app_nil_r. by repeat split.
  - eexists _, _. split; [reflexivity|]. split; [reflexivity|]. split; [reflexivity|].
    split; [intros Hne; by destruct (Hne e)|].
    intros e' [= <-]. reflexivity.
  - exists s1, []. rewrite app_nil_r. by repeat split.
Qed.

Lemma levels_kept_refl s : levels_kept s s.
Proof. done. Qed.

Lemma levels_kept_trans a b c : levels_kept a b -> levels_kept b c -> levels_kept a c.
Proof. unfold levels_kept. congruence. Qed.

Lemma level_digit_mapped body :
  body ∈ level_digits <-> exists lvl, (body, lvl) ∈ levelMap.
Proof.
  unfold level_digits, levelMap. split.
  - rewrite !elem_of_cons, elem_of_nil.
    intros [->|[->|[->|[->|[]]]]]; eexists; rewrite !elem_of_cons; eauto.
  - intros [lvl H]. rewrite !elem_of_cons, elem_of_nil in H.
    rewrite !elem_of_cons.
    destruct H as [[= -> _]|[[= -> _]|[[= -> _]|[[= -> _]|[]]]]]; auto.
Qed.

Lemma nil_not_digit : [] ∉ level_digits.
Proof.
  unfold level_digits. rewrite !not_elem_of_cons.
  repeat split; try apply not_elem_of_nil; intros H; vm_compute in H; discriminate H.
Qed.

Lemma levelMap_get body lvl : (body, lvl) ∈ levelMap -> prop_get levelMap body = Some lvl.
Proof.
  unfold levelMap. rewrite !elem_of_cons, elem_of_nil.
  intros [[= -> ->]|[[= -> ->]|[[= -> ->]|[[= -> ->]|[]]]]]; by vm_compute.
Qed.

(** The level-choice branch. *)
Lemma exec_route_level env m s tr lvl :
  is_audio m = false -> (body_of m, lvl) ∈ levelMap ->
  exec env (route m (userPhone_of m) (body_of m)) s tr =
  (match answer env tr (SendText (userPhone_of m) (level_confirmation (Some lvl))) with
   | Resolved _ => Return tt
   | Rejected e => Throw (Err e)
   end,
   set_userLevels (assign_level (userPhone_of m) (Some lvl)) s,
   tr ++ [(SendText (userPhone_of m) (level_confirmation (Some lvl)),
           answer env tr (SendText (userPhone_of m) (level_confirmation (Some lvl))))]).
Proof.
  intros Ha Hl. rewrite route_level; [|done|apply level_digit_mapped; eauto].
  rewrite (levelMap_get _ _ Hl). by rewrite exec_bind, exec_modify, exec_send_ret.
Qed.

(** Every message changes the level store as [levels_after] says: only a
    level choice touches it, and only for its sender. *)
Lemma exec_handleMessage_levels env message s tr :
  exists s' ext,
    exec env (handleMessage message) s tr = (Return tt, s', tr ++ ext) /\
    userLevels s' = levels_after message (userLevels s).
Proof.
  destruct message as [m|].
  2:{ rewrite exec_handleMessage. cbn [handleMessage_try]. rewrite exec_throw.
      cbn [barrier]. by eexists _, _. }
  unfold levels_after, is_level_choice.
  destruct (isGroupMsg m) eqn:Hg.
  { rewrite exec_handleMessage_group by done. exists s, []. by rewrite app_nil_r. }
  destruct (decide (body_of m = [])) as [Hb|Hb].
  { rewrite exec_handleMessage_empty by done. exists s, []. rewrite app_nil_r.
    split; [done|]. rewrite Hb. cbn [negb andb].
    rewrite bool_decide_eq_false_2; [by rewrite andb_false_r|apply nil_not_digit]. }
  destruct (exec_handleMessage_routed env m s tr Hg Hb)
    as (sw & pre & E & _ & Hl & _). rewrite E. cbn [negb andb].
  destruct (is_audio m) eqn:Ha; cbn [negb andb].
  - destruct (sat_run (fun _ => True) levels_kept levels_kept_refl levels_kept_trans
                settled env (route m (userPhone_of m) (body_of m) sw) sw (tr ++ pre))
      as (c & s1 & ext & Er & Hc & Hk & _).
    { apply (sat_route_other (fun _ => True) levels_kept
               levels_kept_refl levels_kept_trans); [done|done|done|done|by left]. }
    unfold exec. rewrite Er.
    destruct (barrier_result env (Some m) c s1 ((tr ++ pre) ++ ext))
      as (s' & rescue & -> & Hl' & _).
    exists s', (pre ++ ext ++ rescue). rewrite <- !app_assoc.
    split; [by destruct c as [a|e|]; [destruct a| |]|]. congruence.
  - destruct (decide (body_of m ∈ level_digits)) as [Hd|Hd].
    + rewrite bool_decide_eq_true_2 by done.
      destruct (proj1 (level_digit_mapped _) Hd) as [lvl Hlvl].
      rewrite (exec_route_level env m sw (tr ++ pre) lvl Ha Hlvl).
      rewrite (levelMap_get _ _ Hlvl).
      set (o := answer env (tr ++ pre)
                  (SendText (userPhone_of m) (level_confirmation (Some lvl)))).
      set (c := match o with Resolved _ => Return tt | Rejected e => Throw (Err e) end).
      set (sent := (SendText (userPhone_of m) (level_confirmation (Some lvl)), o)).
      destruct (barrier_result env (Some m) c
                  (set_userLevels (assign_level (userPhone_of m) (Some lvl)) sw)
                  ((tr ++ pre) ++ [sent]))
        as (s' & rescue & -> & Hl' & _).
      exists s', (pre ++ [sent] ++ rescue). rewrite <- !app_assoc.
      split; [by subst c; destruct o|].
      rewrite Hl'. cbn [userLevels set_userLevels]. by rewrite Hl.
    + rewrite bool_decide_eq_false_2 by done.
      destruct (sat_run (fun _ => True) levels_kept levels_kept_refl levels_kept_trans
                  settled env (route m (userPhone_of m) (body_of m) sw) sw (tr ++ pre))
        as (c & s1 & ext & Er & Hc & Hk & _).
      { apply (sat_route_other (fun _ => True) levels_kept
                 levels_kept_refl levels_kept_trans); [done|done|done|done|by right]. }
      unfold exec. rewrite Er.
      destruct (barrier_result env (Some m) c s1 ((tr ++ pre) ++ ext))
        as (s' & rescue & -> & Hl' & _).
      exists s', (pre ++ ext ++ rescue). rewrite <- !app_assoc.
      split; [by destruct c as [a|e|]; [destruct a| |]|]. congruence.
Qed.

(** ** The reset flow *)

Lemma exec_resetar env u s tr :
  let outs := attempts (fun p => api_post env p (lit "/resetar") (ResetPayload u))
                       (length (calls is_post tr)) default_tries in
  let tr1 := tr ++ retry_calls post_delays (Post (lit "/resetar") (ResetPayload u)) outs 0 in
  exists s',
    exec env (resetar u) s tr =
    (after_sends (reset_replies env u tr1 (succeeded outs)), s',
     tr1 ++ reset_replies env u tr1 (succeeded outs)) /\
    userLevels s' = userLevels s.
Proof.
  intros outs tr1. unfold resetar.
  rewrite exec_try_catch, exec_bind, exec_postWithRetry. cbn zeta.
  fold outs. fold tr1.
  pose proof (retry_result_settled outs Undefined (attempts_nonempty _ _ _)) as Hs.
  unfold succeeded, reset_replies, after_sends. unfold retry_result in *.
  destruct (last outs) as [[d|e]|]; cbn [completion_of] in *; [| |done].
  - rewrite exec_send_ret.
    destruct (answer env tr1 (SendText u reset_ok_notice)) as [d'|e'];
      cbn [is_resolved].
    + eexists. split; reflexivity.
    + cbn [caught]. rewrite exec_bind, exec_ret, exec_bind, exec_console, exec_send_ret.
      rewrite <- app_assoc. cbn [app].
      destruct (answer env (tr1 ++ [(SendText u reset_ok_notice, Rejected e')])
                  (SendText u reset_failed_notice));
        eexists; split; reflexivity.
  - cbn [caught]. rewrite exec_bind, exec_ret, exec_bind, exec_console, exec_send_ret.
    destruct (answer env tr1 (SendText u reset_failed_notice));
      eexists; split; reflexivity.
Qed.

Lemma attempts_failed_length ask p n :
  succeeded (attempts ask p n) = false -> length (attempts ask p n) = n.
Proof.
  revert p. induction n as [|n IH]; intros p; [done|].
  simpl. destruct (ask p) as [d|e]; [done|].
  intros H. simpl. f_equal. apply IH.
  unfold succeeded in *. rewrite last_cons in H.
  by destruct (last (attempts ask (S p) n)) as [[d|e']|].
Qed.

Lemma calls_sends_only p (rest : Trace) :
  (forall to text, p (SendText to text) = false) ->
  Forall (fun x => is_send (fst x) = true) rest -> calls p rest = [].
Proof.
  intros Hp. induction 1 as [|[c o] rest Hc _ IH]; [done|].
  unfold calls in *. simpl in *. destruct c; try done. by rewrite Hp.
Qed.

Lemma body_of_reset_nonempty m :
  toLowerCase (body_of m) = lit "#resetar" -> body_of m <> [].
Proof. intros H E. rewrite E in H. by vm_compute in H. Qed.

Lemma reset_notices_distinct : reset_ok_notice <> reset_failed_notice.
Proof. by vm_compute. Qed.

(** C8 (as amended).  For a message that is not from a group, is not an
    audio or voice note, and whose trimmed body is [#resetar] in any
    letter case: no stretch of its handling changes the level store,
    however the handling is interleaved with that of other messages; run
    on its own, the handler posts [{ phone }] to [/resetar] (up to three
    attempts), then sends the confirmation if an attempt went through and
    the failure notice if all three were rejected, two different texts;
    it returns, and the level store is the one it started from. *)
Theorem resetar_keeps_levels m :
  isGroupMsg m = false -> is_audio m = false ->
  toLowerCase (body_of m) = lit "#resetar" ->
  (forall s,
     sat (fun _ => True) levels_kept (fun c => c = Return tt) s
         (handleMessage (Some m) s)) /\
  (forall env s tr,
     let u := userPhone_of m in
     let outs := attempts (fun p => api_post env p (lit "/resetar") (ResetPayload u))
                          (length (calls is_post tr)) default_tries in
     exists s' pre rescue,
       let tr1 := tr ++ pre ++
                  retry_calls post_delays (Post (lit "/resetar") (ResetPayload u)) outs 0 in
       exec env (handleMessage (Some m)) s tr =
       (Return tt, s', tr1 ++ reset_replies env u tr1 (succeeded outs) ++ rescue) /\
       userLevels s' = userLevels s /\
       outs <> [] /\
       calls is_post pre = [] /\ calls is_post rescue = [] /\
       (succeeded outs = true ->
          exists o more,
            reset_replies env u tr1 (succeeded outs) =
            (SendText u reset_ok_notice, o) :: more) /\
       (succeeded outs = false ->
          length outs = default_tries /\
          exists o,
            reset_replies env u tr1 (succeeded outs) =
            [(SendText u reset_failed_notice, o)])) /\
  reset_ok_notice <> reset_failed_notice.
Proof.
  intros Hg Ha Hr. pose proof (body_of_reset_nonempty m Hr) as Hb.
  split; [|split; [|apply reset_notices_distinct]].
  - intros s.
    apply sat_handleMessage_parts;
      try done; auto using levels_kept_refl, levels_kept_trans.
    + exact levels_kept_trans.
    + intros u. apply sat_warmUp; try done. exact levels_kept_trans.
    + intros m' s' [= <-] _ _. rewrite route_resetar by done.
      apply sat_resetar; try done. exact levels_kept_trans.
  - intros env s tr u outs.
    destruct (exec_handleMessage_routed env m s tr Hg Hb)
      as (sw & pre & E & _ & Hl & _ & _ & Hp & _).
    rewrite E, route_resetar by done.
    destruct (exec_resetar env (userPhone_of m) sw (tr ++ pre)) as (s1 & Er & Hl1).
    rewrite calls_app, Hp, app_nil_r in Er. fold u in Er. fold outs in Er.
    fold u. rewrite Er.
    set (tr1 := (tr ++ pre) ++
                retry_calls post_delays (Post (lit "/resetar") (ResetPayload u)) outs 0).
    set (replies := reset_replies env u tr1 (succeeded outs)).
    destruct (barrier_result env (Some m) (after_sends replies) s1 (tr1 ++ replies))
      as (s' & rescue & -> & Hl' & _ & Hno & Hyes).
    exists s', pre, rescue. cbn zeta.
    replace (tr ++ pre ++
             retry_calls post_delays (Post (lit "/resetar") (ResetPayload u)) outs 0)
      with tr1 by (unfold tr1; by rewrite <- app_assoc).
    fold replies.
    split.
    { rewrite <- app_assoc. f_equal. f_equal. unfold after_sends.
      by destruct (last replies) as [[c [d|e]]|]. }
    split; [congruence|].
    split; [apply attempts_nonempty|].
    split; [exact Hp|].
    split.
    { unfold after_sends in *.
      destruct (last replies) as [[c [d|e]]|];
        try (by destruct (Hno ltac:(done)) as [_ ->]).
      by rewrite (Hyes _ eq_refl). }
    split.
    + intros Hok. subst replies. rewrite Hok. unfold reset_replies. by eexists _, _.
    + intros Hf. split; [by apply attempts_failed_length|].
      subst replies. rewrite Hf. unfold reset_replies. by eexists.
Qed.

(** ** Level choice and the default path *)

(** The default path posts the message with the stored level, or ["basic"],
    and then only sends. *)
Lemma exec_correct env u b s tr :
  let payload := CorrectPayload b (read_level (userLevels s) u) u in
  let outs := attempts (fun p => api_post env p (lit "/correct") payload)
                       (length (calls is_post tr)) default_tries in
  exists r s' rest,
    exec env (correct u b) s tr =
    (r, s', tr ++ retry_calls post_delays (Post (lit "/correct") payload) outs 0 ++ rest) /\
    userLevels s' = userLevels s /\
    Forall (fun x => is_send (fst x) = true) rest /\
    settled r.
Proof.
  intros payload outs. unfold correct.
  rewrite exec_bind, exec_get_store, exec_bind, exec_console, exec_bind, exec_console.
  rewrite exec_bind, exec_try_catch, exec_bind, exec_postWithRetry. cbn zeta.
  fold payload. fold outs.
  pose proof (retry_result_settled outs Undefined (attempts_nonempty _ _ _)) as Hs.
  destruct (retry_result outs Undefined) as [d|[|e]|]; try done.
  - rewrite exec_ret. cbn iota beta. rewrite exec_bind, exec_console.
    match goal with |- context [exec env (dispatchReply u ?r) ?s0 ?tr0] =>
      destruct (sat_run (fun c => is_send c = true) levels_kept
                  levels_kept_refl levels_kept_trans settled env
                  (dispatchReply u r s0) s0 tr0) as (c & s1 & ext & Er & Hc & Hk & Hp)
    end.
    { by apply (sat_dispatchReply _ _ levels_kept_refl levels_kept_trans). }
    unfold exec. rewrite Er. exists c, s1, ext. rewrite <- app_assoc.
    split; [reflexivity|]. split; [by rewrite Hk|]. split; [exact Hp|exact Hc].
  - cbn [caught]. rewrite exec_bind, exec_ret, exec_bind, exec_console, exec_bind, exec_await.
    set (o := answer env _ _).
    destruct o as [d|e'] eqn:Ho; cbn [completion_of].
    + rewrite exec_ret. cbn iota beta. rewrite exec_ret.
      eexists _, _, [(SendText u backend_failed_notice, Resolved d)].
      rewrite <- app_assoc. split; [reflexivity|]. split; [reflexivity|].
      split; [by repeat constructor|exact I].
    + eexists _, _, [(SendText u backend_failed_notice, Rejected e')].
      rewrite <- app_assoc. split; [reflexivity|]. split; [reflexivity|].
      split; [by repeat constructor|exact I].
Qed.

Lemma handleAll_levels env ms :
  forall s tr u,
    Forall (fun x => chooses_level u x = false) ms ->
    userLevels (fst (handleAll env ms s tr)) !! u = userLevels s !! u.
Proof.
  induction ms as [|message ms IH]; intros s tr u Hns; [done|].
  apply Forall_cons in Hns as [Hn Hns]. cbn [handleAll].
  destruct (exec_handleMessage_levels env message s tr) as (s' & ext & E & Hl).
  rewrite E, (IH _ _ _ Hns), Hl.
  destruct message as [m|]; [|done]. cbn [levels_after chooses_level] in *.
  destruct (is_level_choice m); [|done]. cbn [andb] in Hn.
  apply bool_decide_eq_false in Hn. unfold assign_level.
  destruct (str_eqb (userPhone_of m) (lit "__proto__")); [done|].
  by rewrite lookup_insert_ne.
Qed.

Lemma level_kept_refl u s : level_kept u s s.
Proof. reflexivity. Qed.

Lemma level_kept_trans u a b c : level_kept u a b -> level_kept u b c -> level_kept u a c.
Proof. unfold level_kept. congruence. Qed.

(** No step of a handler changes what is stored for a user, unless the
    message is a level choice of that user. *)
Lemma sat_handleMessage_level_kept message u s :
  chooses_level u message = false ->
  sat (fun _ => True) (level_kept u) (fun c => c = Return tt) s (handleMessage message s).
Proof.
  intros Hn.
  apply (sat_handleMessage_parts (fun _ => True) (level_kept u)
           (level_kept_refl u) (level_kept_trans u)); [done|by intros| |].
  - intros userPhone.
    apply (sat_warmUp (fun _ => True) (level_kept u)
             (level_kept_refl u) (level_kept_trans u)); try done; by intros.
  - intros m s' -> Hg Hb.
    destruct (is_audio m) eqn:Ha.
    { apply (sat_route_other (fun _ => True) (level_kept u)
               (level_kept_refl u) (level_kept_trans u));
        [done|done|done|by intros|by left]. }
    destruct (decide (body_of m ∈ level_digits)) as [Hd|Hd].
    2:{ apply (sat_route_other (fun _ => True) (level_kept u)
                 (level_kept_refl u) (level_kept_trans u));
          [done|done|done|by intros|by right]. }
    cbn [chooses_level] in Hn. unfold is_level_choice in Hn.
    rewrite Hg, Ha, (bool_decide_eq_true_2 _ Hd) in Hn. cbn [negb andb] in Hn.
    apply bool_decide_eq_false in Hn.
    rewrite route_level by done.
    apply (sat_bind_settled (fun _ => True) (level_kept u)
             (level_kept_refl u) (level_kept_trans u)).
    + apply (sat_modify (fun _ => True) (level_kept u)
               (level_kept_refl u) (level_kept_trans u)); [|exact I].
      unfold level_kept, assign_level. cbn [userLevels set_userLevels].
      destruct (str_eqb (userPhone_of m) (lit "__proto__")); [reflexivity|].
      by rewrite lookup_insert_ne.
    + intros _ s2.
      apply (sat_send (fun _ => True) (level_kept u)
               (level_kept_refl u) (level_kept_trans u)). done.
Qed.

Lemma level_confirmation_text lvl :
  level_confirmation (Some lvl) = lit "✅ Nível definido como *" ++ lvl ++ lit "*.".
Proof. reflexivity. Qed.

(** The router stores the level and only then suspends, on the send of
    the confirmation. *)
Lemma route_level_first_await m s lvl :
  is_audio m = false -> (body_of m, lvl) ∈ levelMap ->
  exists k,
    route m (userPhone_of m) (body_of m) s =
    Await (SendText (userPhone_of m) (level_confirmation (Some lvl)))
          (set_userLevels (assign_level (userPhone_of m) (Some lvl)) s) k.
Proof.
  intros Ha Hl. rewrite route_level; [|done|apply level_digit_mapped; eauto].
  rewrite (levelMap_get _ _ Hl). by eexists.
Qed.

(** On the default path the router builds the payload from the store it
    is entered with, and its first call is the post of that payload. *)
Lemma route_default_first_await m s :
  is_audio m = false -> toLowerCase (body_of m) ∉ keywords -> body_of m ∉ level_digits ->
  exists s' k,
    route m (userPhone_of m) (body_of m) s =
    Await (Post (lit "/correct") (correct_payload m s)) s' k /\
    userLevels s' = userLevels s.
Proof.
  intros Ha Hk Hd. rewrite route_default by done.
  unfold correct_payload. generalize (userPhone_of m) (body_of m). intros u b.
  unfold correct, postWithRetry, default_tries. cbn [postWithRetry_loop].
  change (backoff post_delays 0) with (@ret unit tt).
  lazy [bind bindR get_store console_ modify try_catch catchR ret await].
  eexists _, _. split; reflexivity.
Qed.

(** Once the warm-up has happened the handler goes straight to the
    router. *)
Lemma handleMessage_warm_route m s :
  isGroupMsg m = false -> body_of m <> [] -> warmedUp s = true ->
  handleMessage (Some m) s =
  catchR (route m (userPhone_of m) (body_of m) s)
    (fun e =>
       console_ (ErrorUnhandled e) ;;
       let userPhone := catch_phone (Some m) in
       try_catch
         (await (SendText userPhone unexpected_notice) ;;
          ret tt)
         (fun _ => ret tt)).
Proof.
  intros Hg Hb Hw.
  unfold handleMessage, try_catch. cbn [handleMessage_try]. rewrite Hg.
  rewrite bool_decide_eq_false_2 by done.
  unfold bind at 1. unfold warmUp, bind at 1. cbn [get_store bindR]. rewrite Hw.
  reflexivity.
Qed.

Lemma levelMap_value_nonempty body lvl : (body, lvl) ∈ levelMap -> lvl <> [].
Proof.
  intros Hl ->. unfold levelMap in Hl. rewrite !elem_of_cons, elem_of_nil in Hl.
  by destruct Hl as [[=]|[[=]|[[=]|[[=]|[]]]]].
Qed.

(** C7 (as amended).  For a message that is not from a group and is not an
    audio or voice note, whose trimmed body is a key of the fixed mapping
    [1: beginner, 2: basic, 3: intermediate, 4: advanced]: a confirmation
    naming the mapped level is sent, and the level is stored under the
    sender's id before the handler suspends on that send; [userLevels]
    being a plain object, nothing is stored under the id [__proto__].
    A default-path message posts the level that is stored for its sender
    when the router builds the payload, which is its first step: the
    stored level if there is one, ["basic"] if there is none and the id is
    not the name of a property inherited from [Object.prototype], and the
    inherited value, which is no level, if it is such a name.  No step of
    the handling of a message changes what is stored for a user unless the
    message is a level choice of that user, however the handlers are
    interleaved.  So, when messages are handled one after the other, the
    chosen level is the one posted for every later default-path message of
    that user until their next choice. *)
Theorem level_choice_sets_level_for_later_corrections env :
  levelMap = [ (lit "1", lit "beginner"); (lit "2", lit "basic");
               (lit "3", lit "intermediate"); (lit "4", lit "advanced") ] /\
  (forall m s tr lvl,
     isGroupMsg m = false -> is_audio m = false -> (body_of m, lvl) ∈ levelMap ->
     exists s' pre o rescue,
       exec env (handleMessage (Some m)) s tr =
       (Return tt, s',
        tr ++ pre ++
        (SendText (userPhone_of m)
           (lit "✅ Nível definido como *" ++ lvl ++ lit "*."), o) :: rescue) /\
       (userPhone_of m <> lit "__proto__" ->
        userLevels s' = <[userPhone_of m := Some lvl]> (userLevels s)) /\
       (userPhone_of m = lit "__proto__" -> userLevels s' = userLevels s) /\
       sent_texts pre = (if warmedUp s then [] else [preparing_notice]) /\
       (is_resolved o = true -> rescue = [])) /\
  (forall m s lvl,
     isGroupMsg m = false -> is_audio m = false -> (body_of m, lvl) ∈ levelMap ->
     (exists k,
        route m (userPhone_of m) (body_of m) s =
        Await (SendText (userPhone_of m)
                 (lit "✅ Nível definido como *" ++ lvl ++ lit "*."))
              (set_userLevels (assign_level (userPhone_of m) (Some lvl)) s) k) /\
     (warmedUp s = true ->
      exists k,
        handleMessage (Some m) s =
        Await (SendText (userPhone_of m)
                 (lit "✅ Nível definido como *" ++ lvl ++ lit "*."))
              (set_userLevels (assign_level (userPhone_of m) (Some lvl)) s) k)) /\
  (forall m s tr,
     isGroupMsg m = false -> body_of m <> [] -> is_audio m = false ->
     toLowerCase (body_of m) ∉ keywords -> body_of m ∉ level_digits ->
     exists s' pre outs rest,
       exec env (handleMessage (Some m)) s tr =
       (Return tt, s',
        tr ++ pre ++
        retry_calls post_delays (Post (lit "/correct") (correct_payload m s)) outs 0 ++
        rest) /\
       outs <> [] /\ calls is_post pre = [] /\ calls is_post rest = []) /\
  (forall m s,
     isGroupMsg m = false -> body_of m <> [] -> is_audio m = false ->
     toLowerCase (body_of m) ∉ keywords -> body_of m ∉ level_digits ->
     (exists s' k,
        route m (userPhone_of m) (body_of m) s =
        Await (Post (lit "/correct") (correct_payload m s)) s' k /\
        userLevels s' = userLevels s) /\
     (warmedUp s = true ->
      exists s' k,
        handleMessage (Some m) s =
        Await (Post (lit "/correct") (correct_payload m s)) s' k /\
        userLevels s' = userLevels s)) /\
  (forall m s lvl,
     userLevels s !! userPhone_of m = Some (Some lvl) -> lvl <> [] ->
     correct_payload m s = CorrectPayload (body_of m) (LevelStr lvl) (userPhone_of m)) /\
  (forall m s,
     userLevels s !! userPhone_of m = None ->
     userPhone_of m ∉ object_prototype_names ->
     correct_payload m s =
     CorrectPayload (body_of m) (LevelStr (lit "basic")) (userPhone_of m)) /\
  (forall m s,
     userLevels s !! userPhone_of m = None ->
     userPhone_of m ∈ object_prototype_names ->
     correct_payload m s =
     CorrectPayload (body_of m) (LevelInherited (userPhone_of m)) (userPhone_of m)) /\
  (forall message u s,
     chooses_level u message = false ->
     sat (fun _ => True) (level_kept u) (fun c => c = Return tt) s
         (handleMessage message s)) /\
  (forall ms s tr u,
     Forall (fun x => chooses_level u x = false) ms ->
     userLevels (fst (handleAll env ms s tr)) !! u = userLevels s !! u) /\
  (forall m1 ms m2 s tr lvl,
     isGroupMsg m1 = false -> is_audio m1 = false -> (body_of m1, lvl) ∈ levelMap ->
     userPhone_of m1 <> lit "__proto__" ->
     Forall (fun x => chooses_level (userPhone_of m1) x = false) ms ->
     userPhone_of m2 = userPhone_of m1 ->
     correct_payload m2 (fst (handleAll env (Some m1 :: ms) s tr)) =
     CorrectPayload (body_of m2) (LevelStr lvl) (userPhone_of m1)).
Proof.
  assert (forall m s tr lvl,
     isGroupMsg m = false -> is_audio m = false -> (body_of m, lvl) ∈ levelMap ->
     exists s' pre o rescue,
       exec env (handleMessage (Some m)) s tr =
       (Return tt, s',
        tr ++ pre ++
        (SendText (userPhone_of m)
           (lit "✅ Nível definido como *" ++ lvl ++ lit "*."), o) :: rescue) /\
       (userPhone_of m <> lit "__proto__" ->
        userLevels s' = <[userPhone_of m := Some lvl]> (userLevels s)) /\
       (userPhone_of m = lit "__proto__" -> userLevels s' = userLevels s) /\
       sent_texts pre = (if warmedUp s then [] else [preparing_notice]) /\
       (is_resolved o = true -> rescue = [])) as Hchoice.
  { intros m s tr lvl Hg Ha Hl.
    assert (body_of m <> []) as Hb.
    { intros E. rewrite E in Hl. unfold levelMap in Hl.
      rewrite !elem_of_cons, elem_of_nil in Hl.
      by destruct Hl as [[=]|[[=]|[[=]|[[=]|[]]]]]. }
    destruct (exec_handleMessage_routed env m s tr Hg Hb)
      as (sw & pre & E & _ & Hlv & _ & _ & _ & _ & Ht & _).
    rewrite E, (exec_route_level env m sw (tr ++ pre) lvl Ha Hl).
    change (level_confirmation (Some lvl))
      with (lit "✅ Nível definido como *" ++ lvl ++ lit "*.").
    assert (forall s1 : Store,
              userLevels s1 = assign_level (userPhone_of m) (Some lvl) (userLevels sw) ->
              (userPhone_of m <> lit "__proto__" ->
               userLevels s1 = <[userPhone_of m := Some lvl]> (userLevels s)) /\
              (userPhone_of m = lit "__proto__" -> userLevels s1 = userLevels s)) as Hst.
    { intros s1 ->. unfold assign_level, str_eqb. rewrite Hlv. split.
      - intros Hne. by rewrite bool_decide_eq_false_2.
      - intros He. by rewrite bool_decide_eq_true_2. }
    set (o := answer env (tr ++ pre) _).
    destruct o as [d|e] eqn:Ho; cbn [barrier].
    - eexists _, pre, (Resolved d), []. rewrite <- app_assoc.
      split; [reflexivity|].
      destruct (Hst (set_userLevels (assign_level (userPhone_of m) (Some lvl)) sw)
                  eq_refl) as [H1 H2].
      split; [exact H1|]. split; [exact H2|]. split; [exact Ht|reflexivity].
    - eexists (add_console (ErrorUnhandled (Err e))
                 (set_userLevels (assign_level (userPhone_of m) (Some lvl)) sw)),
        pre, (Rejected e),
        [(SendText (catch_phone (Some m)) unexpected_notice, _)].
      rewrite <- !app_assoc.
      split; [reflexivity|].
      destruct (Hst (add_console (ErrorUnhandled (Err e))
                       (set_userLevels (assign_level (userPhone_of m) (Some lvl)) sw))
                  eq_refl) as [H1 H2].
      split; [exact H1|]. split; [exact H2|]. split; [exact Ht|intros [=]]. }
  split; [reflexivity|]. split; [exact Hchoice|].
  split.
  { intros m s lvl Hg Ha Hl.
    destruct (route_level_first_await m s lvl Ha Hl) as [k Hk].
    rewrite level_confirmation_text in Hk.
    split; [exists k; exact Hk|]. intros Hw.
    assert (body_of m <> []) as Hb.
    { intros E. rewrite E in Hl. unfold levelMap in Hl.
      rewrite !elem_of_cons, elem_of_nil in Hl.
      by destruct Hl as [[=]|[[=]|[[=]|[[=]|[]]]]]. }
    rewrite (handleMessage_warm_route m s Hg Hb Hw), Hk. cbn [catchR].
    eexists. reflexivity. }
  split.
  { intros m s tr Hg Hb Ha Hk Hd.
    destruct (exec_handleMessage_routed env m s tr Hg Hb)
      as (sw & pre & E & _ & Hlv & _ & _ & Hp & _).
    rewrite E, route_default by done.
    destruct (exec_correct env (userPhone_of m) (body_of m) sw (tr ++ pre))
      as (r & s1 & rest & Er & _ & Hsends & Hset).
    rewrite Hlv, calls_app, Hp, app_nil_r in Er. fold (correct_payload m s) in Er.
    rewrite Er.
    match goal with |- context [barrier env (Some m) (r, s1, ?t)] =>
      destruct (barrier_result env (Some m) r s1 t)
        as (s' & rescue & -> & _ & _ & Hno & Hyes)
    end.
    eexists s', pre, _, (rest ++ rescue). rewrite <- !app_assoc.
    split.
    { f_equal. f_equal. by destruct r as [[]|[|e]|]. }
    split; [apply attempts_nonempty|]. split; [done|].
    rewrite calls_app, (calls_sends_only is_post rest) by done.
    destruct r as [a|e|];
      try (by destruct (Hno ltac:(done)) as [_ ->]).
    by rewrite (Hyes _ eq_refl). }
  split.
  { intros m s Hg Hb Ha Hk Hd.
    destruct (route_default_first_await m s Ha Hk Hd) as (s' & k & Hr & Hl).
    split; [by exists s', k|]. intros Hw.
    rewrite (handleMessage_warm_route m s Hg Hb Hw), Hr. cbn [catchR].
    eexists _, _. split; [reflexivity|exact Hl]. }
  split.
  { intros m s lvl H Hn. unfold correct_payload, read_level. rewrite H.
    by destruct lvl. }
  split.
  { intros m s H Hn. unfold correct_payload, read_level. rewrite H.
    by rewrite bool_decide_eq_false_2. }
  split.
  { intros m s H Hn. unfold correct_payload, read_level. rewrite H.
    by rewrite bool_decide_eq_true_2. }
  split; [exact sat_handleMessage_level_kept|].
  split; [apply handleAll_levels|].
  intros m1 ms m2 s tr lvl Hg Ha Hl Hne Hns Hu.
  cbn [handleAll].
  destruct (Hchoice m1 s tr lvl Hg Ha Hl) as (s' & pre & o & rescue & E & Hlv & _).
  rewrite E. unfold correct_payload, read_level. rewrite Hu.
  rewrite (handleAll_levels env ms s' _ (userPhone_of m1) Hns), (Hlv Hne), lookup_insert_eq.
  pose proof (levelMap_value_nonempty _ _ Hl) as Hnil.
  by destruct lvl.
Qed.

(** ** The warm-up *)

Lemma flag_kept_refl s : flag_kept s s.
Proof. by intros H. Qed.

Lemma flag_kept_trans a b c : flag_kept a b -> flag_kept b c -> flag_kept a c.
Proof. unfold flag_kept. auto. Qed.

(** A message that gets to the warm-up block before the warm-up sets the
    flag and only then suspends, on the send of the notice. *)
Lemma handleMessage_first_await m s :
  isGroupMsg m = false -> body_of m <> [] -> warmedUp s = false ->
  exists k,
    handleMessage (Some m) s =
    Await (SendText (userPhone_of m) preparing_notice) (set_warmedUp true s) k.
Proof.
  intros Hg Hb Hw.
  unfold handleMessage, try_catch. cbn [handleMessage_try]. rewrite Hg.
  rewrite bool_decide_eq_false_2 by done.
  unfold bind at 1. unfold warmUp, bind at 1. cbn [get_store bindR]. rewrite Hw.
  cbn [negb]. unfold bind at 1. cbn [modify bindR]. unfold try_catch at 1.
  unfold bind at 1. cbn [await bindR catchR]. by eexists.
Qed.

(** What one message does to the flag and to the health endpoint. *)
Lemma exec_handleMessage_warm env message s tr :
  exists s' ext,
    exec env (handleMessage message) s tr = (Return tt, s', tr ++ ext) /\
    warmedUp s' = warmedUp s || triggers_warmUp message /\
    length (calls is_health ext) <= default_tries /\
    (calls is_health ext <> [] ->
       warmedUp s = false /\ triggers_warmUp message = true).
Proof.
  assert (forall (ext : Trace),
            Forall (fun x => is_health (fst x) = false) ext -> calls is_health ext = [])
    as Hnone.
  { induction 1 as [|[c o] ext Hc _ IH]; [done|].
    unfold calls in *. simpl in *. by rewrite Hc. }
  destruct message as [m|].
  2:{ rewrite exec_handleMessage. cbn [handleMessage_try]. rewrite exec_throw.
      cbn [barrier]. eexists _, [_]. split; [done|].
      cbn [triggers_warmUp]. rewrite orb_false_r. repeat split; try done.
      simpl. lia. }
  cbn [triggers_warmUp].
  destruct (isGroupMsg m) eqn:Hg.
  { rewrite exec_handleMessage_group by done. exists s, []. rewrite app_nil_r.
    rewrite orb_false_r. repeat split; try done. simpl. lia. }
  destruct (decide (body_of m = [])) as [Hb|Hb].
  { rewrite exec_handleMessage_empty by done. exists s, []. rewrite app_nil_r.
    rewrite bool_decide_eq_true_2 by done. cbn [negb andb]. rewrite orb_false_r.
    repeat split; try done. simpl. lia. }
  rewrite bool_decide_eq_false_2 by done. cbn [negb andb]. rewrite orb_true_r.
  destruct (exec_handleMessage_routed env m s tr Hg Hb)
    as (sw & pre & E & _ & _ & Hw & Hwarm & _ & Hh & _). rewrite E.
  destruct (sat_run (fun c => is_health c = false) flag_kept flag_kept_refl flag_kept_trans
              settled env (route m (userPhone_of m) (body_of m) sw) sw (tr ++ pre))
    as (c & s1 & ext & Er & Hc & Hk & Hp).
  { apply (sat_route (fun c => is_health c = false) flag_kept
             flag_kept_refl flag_kept_trans); try done; by intros ? ? H. }
  unfold exec. rewrite Er.
  destruct (barrier_result env (Some m) c s1 ((tr ++ pre) ++ ext))
    as (s' & rescue & -> & _ & Hw' & Hno & Hyes).
  exists s', (pre ++ ext ++ rescue). rewrite <- !app_assoc.
  split; [by destruct c as [[]|[|e]|]|].
  split; [rewrite Hw'; by apply Hk|].
  assert (calls is_health rescue = []) as Hr.
  { destruct c as [a|e|];
      try (by destruct (Hno ltac:(done)) as [_ ->]).
    by rewrite (Hyes _ eq_refl). }
  rewrite !calls_app, (Hnone ext Hp), Hr, !app_nil_r.
  split; [done|]. intros Hne.
  split; [|done]. destruct (warmedUp s); [|done].
  by destruct (Hwarm eq_refl) as [_ ->].
Qed.

Lemma handleAll_warm env ms :
  forall s tr,
    exists s' ext,
      handleAll env ms s tr = (s', tr ++ ext) /\
      length (calls is_health ext) <= default_tries /\
      (warmedUp s = true -> calls is_health ext = [] /\ warmedUp s' = true) /\
      (warmedUp s' = true \/
       (warmedUp s' = false /\ calls is_health ext = [] /\
        Forall (fun x => triggers_warmUp x = false) ms)).
Proof.
  induction ms as [|message ms IH]; intros s tr.
  - exists s, []. cbn [handleAll]. rewrite app_nil_r.
    split; [done|]. split; [simpl; lia|]. split; [done|].
    destruct (warmedUp s); auto.
  - cbn [handleAll].
    destruct (exec_handleMessage_warm env message s tr)
      as (s1 & ext1 & E & Hw1 & Hl1 & Hh1).
    rewrite E.
    destruct (IH s1 (tr ++ ext1)) as (s' & ext & E' & Hl & Hwarm & Hend).
    exists s', (ext1 ++ ext). rewrite E', <- app_assoc. split; [done|].
    rewrite calls_app, length_app.
    destruct (warmedUp s) eqn:Hw.
    + cbn [orb] in Hw1. destruct (Hwarm Hw1) as [Hnone Hs'].
      assert (calls is_health ext1 = []) as ->.
      { destruct (calls is_health ext1) eqn:Hx; [done|].
        by destruct Hh1 as [[=] _]. }
      rewrite Hnone. simpl. split; [lia|]. split; [done|]. by left.
    + cbn [orb] in Hw1. split; [|split; [done|]].
      * destruct (triggers_warmUp message) eqn:Ht.
        -- destruct (Hwarm Hw1) as [-> _]. simpl. lia.
        -- assert (calls is_health ext1 = []) as ->.
           { destruct (calls is_health ext1) eqn:Hx; [done|].
             by destruct Hh1 as [_ [=]]. }
           simpl. lia.
      * destruct Hend as [H|(H1 & H2 & H3)]; [by left|]. right.
        split; [done|].
        destruct (triggers_warmUp message) eqn:Ht.
        { destruct (Hwarm Hw1) as [_ Hs']. congruence. }
        assert (calls is_health ext1 = []) as ->.
        { destruct (calls is_health ext1) eqn:Hx; [done|].
          by destruct Hh1 as [_ [=]]. }
        rewrite H2. split; [done|]. by constructor.
Qed.

(** The warm-up block of a first message, call by call: the notice, then,
    only if the client accepted it, the attempts of the probe. *)
Lemma exec_warmUp_cold env userPhone s tr :
  warmedUp s = false ->
  exists sw,
    exec env (warmUp userPhone) s tr =
    (Return tt, sw,
     tr ++ (SendText userPhone preparing_notice,
            answer env tr (SendText userPhone preparing_notice))
        :: (if is_resolved (answer env tr (SendText userPhone preparing_notice))
            then retry_calls health_delays GetHealth
                   (attempts (axios_get_health env) (length (calls is_health tr))
                      default_tries) 0
            else [])) /\
    userLevels sw = userLevels s /\ warmedUp sw = true.
Proof.
  intros Hw. unfold warmUp. rewrite exec_bind, exec_get_store, Hw. cbn [negb].
  rewrite exec_bind, exec_modify, exec_try_catch, exec_bind, exec_await.
  destruct (answer env tr (SendText userPhone preparing_notice)) as [d|e] eqn:Ho;
    cbn [completion_of is_resolved].
  - rewrite exec_bind. unfold getHealthWithRetry.
    rewrite exec_getHealthWithRetry_loop. cbn zeta.
    assert (length (calls is_health
                      (tr ++ [(SendText userPhone preparing_notice, Resolved d)])) =
            length (calls is_health tr)) as Hn.
    { rewrite calls_app. unfold calls. cbn [List.filter fst is_health].
      by rewrite app_nil_r. }
    rewrite Hn.
    set (outs := attempts _ _ _).
    pose proof (retry_result_settled outs Undefined (attempts_nonempty _ _ _)) as Hs.
    destruct (retry_result outs Undefined) as [ok|[|o]|]; try done.
    + rewrite exec_console. eexists. split; [by rewrite <- app_assoc|]. by split.
    + cbn [caught]. rewrite exec_bind, exec_ret, exec_console.
      eexists. split; [by rewrite <- app_assoc|]. by split.
  - cbn [caught]. rewrite exec_bind, exec_ret, exec_console.
    eexists. split; [reflexivity|]. by split.
Qed.

(** The probe starts with a request, not with a pause. *)
Lemma retry_calls_health_head env p :
  exists more,
    retry_calls health_delays GetHealth
      (attempts (axios_get_health env) p default_tries) 0 =
    (GetHealth, axios_get_health env p) :: more.
Proof.
  unfold default_tries. cbn [attempts].
  destruct (axios_get_health env p); cbn [retry_calls];
    change (backoff_calls health_delays 0) with (@nil (Call * Outcome));
    cbn [app]; eexists; reflexivity.
Qed.

(** The first two suspensions of a first message: the notice and, when it
    is accepted, the request to [/health], whatever store the handler
    resumes with. *)
Lemma handleMessage_first_await_probe m s :
  isGroupMsg m = false -> body_of m <> [] -> warmedUp s = false ->
  exists k,
    handleMessage (Some m) s =
    Await (SendText (userPhone_of m) preparing_notice) (set_warmedUp true s) k /\
    forall d s1, exists k', k (Resolved d) s1 = Await GetHealth s1 k'.
Proof.
  intros Hg Hb Hw.
  unfold handleMessage, try_catch. cbn [handleMessage_try]. rewrite Hg.
  rewrite bool_decide_eq_false_2 by done.
  unfold bind at 1. unfold warmUp, bind at 1. cbn [get_store bindR]. rewrite Hw.
  cbn [negb]. unfold bind at 1. cbn [modify bindR]. unfold try_catch at 1.
  unfold bind at 1. cbn [await bindR catchR].
  eexists. split; [reflexivity|].
  intros d s1. cbn beta. cbn [settle].
  unfold getHealthWithRetry, default_tries. cbn [getHealthWithRetry_loop].
  change (backoff health_delays 0) with (@ret unit tt).
  lazy [bind bindR try_catch catchR ret await].
  eexists. reflexivity.
Qed.

(** What follows the warm-up block in a run requests no [/health]. *)
Lemma exec_handleMessage_after_warmUp env m s tr :
  isGroupMsg m = false -> body_of m <> [] ->
  exists sw pre s' rest,
    exec env (warmUp (userPhone_of m)) s tr = (Return tt, sw, tr ++ pre) /\
    exec env (handleMessage (Some m)) s tr = (Return tt, s', tr ++ pre ++ rest) /\
    calls is_health rest = [] /\
    warmedUp s' = true.
Proof.
  intros Hg Hb.
  destruct (exec_handleMessage_routed env m s tr Hg Hb)
    as (sw & pre & E & Ew & _ & Hsw & _).
  destruct (sat_run (fun c => is_health c = false) flag_kept flag_kept_refl flag_kept_trans
              settled env (route m (userPhone_of m) (body_of m) sw) sw (tr ++ pre))
    as (c & s1 & ext & Er & Hc & Hk & Hp).
  { apply (sat_route (fun c => is_health c = false) flag_kept
             flag_kept_refl flag_kept_trans); try done; by intros ? ? H. }
  destruct (barrier_result env (Some m) c s1 ((tr ++ pre) ++ ext))
    as (s2 & rescue & Eb & _ & Hw2 & Hno & Hyes).
  exists sw, pre, s2, (ext ++ rescue).
  split; [exact Ew|]. split.
  { rewrite E. unfold exec. rewrite Er, Eb, <- !app_assoc.
    by destruct c as [[]|[|e]|]. }
  split; [|rewrite Hw2; by apply Hk].
  assert (calls is_health ext = []) as Hext.
  { clear -Hp. induction Hp as [|[c0 o0] ext Hc0 _ IH]; [reflexivity|].
    unfold calls in *. simpl in *. by rewrite Hc0. }
  rewrite calls_app, Hext.
  destruct c as [a|t|].
  - destruct Hno as [_ ->]; [intros t; discriminate|reflexivity].
  - rewrite (Hyes t eq_refl). reflexivity.
  - destruct Hno as [_ ->]; [intros t; discriminate|reflexivity].
Qed.

(** C4.  The warm-up probe runs at most once in a process.  Over any
    messages handled one after the other, [/health] is requested at most
    [default_tries] times, the attempts of one probe; once [warmedUp] is
    set, no message requests it again.  The flag is set by the first
    message that gets to the warm-up block whatever becomes of the probe,
    and it is set before the handler first suspends; no stretch of any
    handler clears it, and a handler that starts with the flag set never
    requests [/health], however the handlers are interleaved. *)
Theorem warmUp_runs_at_most_once :
  (forall env ms s tr,
     exists s' ext,
       handleAll env ms s tr = (s', tr ++ ext) /\
       length (calls is_health ext) <= default_tries /\
       (warmedUp s = true -> calls is_health ext = [] /\ warmedUp s' = true) /\
       (warmedUp s' = true \/
        (calls is_health ext = [] /\
         Forall (fun x => triggers_warmUp x = false) ms))) /\
  (forall env message s tr,
     exists s' ext,
       exec env (handleMessage message) s tr = (Return tt, s', tr ++ ext) /\
       warmedUp s' = warmedUp s || triggers_warmUp message) /\
  (forall m s,
     isGroupMsg m = false -> body_of m <> [] -> warmedUp s = false ->
     exists k,
       handleMessage (Some m) s =
       Await (SendText (userPhone_of m) preparing_notice) (set_warmedUp true s) k) /\
  (forall message s,
     sat (fun _ => True) flag_kept (fun c => c = Return tt) s (handleMessage message s)) /\
  (forall message s,
     warmedUp s = true ->
     sat (fun c => is_health c = false) flag_kept (fun c => c = Return tt) s
         (handleMessage message s)).
Proof.
  split; [|split; [|split; [|split]]].
  - intros env ms s tr.
    destruct (handleAll_warm env ms s tr) as (s' & ext & E & Hl & Hw & Hend).
    exists s', ext. split; [exact E|]. split; [exact Hl|]. split; [exact Hw|].
    destruct Hend as [H|(_ & H1 & H2)]; [by left|by right].
  - intros env message s tr.
    destruct (exec_handleMessage_warm env message s tr) as (s' & ext & E & Hw & _).
    by exists s', ext.
  - apply handleMessage_first_await.
  - intros message s.
    apply (sat_handleMessage (fun _ => True) flag_kept flag_kept_refl flag_kept_trans);
      try done; by intros ? ? H.
  - intros message s Hw.
    apply (sat_handleMessage_warm (fun c => is_health c = false) flag_kept
             flag_kept_refl flag_kept_trans); try done; by intros ? ? H.
Qed.

(** C5 (as amended).  The first message that is not from a group and has a
    non-empty trimmed body triggers the warm-up whatever its media type
    and whatever its body says: the handler sets [warmedUp] and its first
    call, before the audio check and the router, is the send of the
    "preparing" notice to the sender; when the client accepts the notice
    the next call is the request to [/health], the readiness probe, and
    when it rejects the notice the probe is skipped and [/health] is not
    requested at all. *)
Theorem first_routed_message_triggers_warmUp m s :
  isGroupMsg m = false -> body_of m <> [] -> warmedUp s = false ->
  (exists k,
     handleMessage (Some m) s =
     Await (SendText (userPhone_of m) preparing_notice) (set_warmedUp true s) k /\
     forall d s1, exists k', k (Resolved d) s1 = Await GetHealth s1 k') /\
  (forall env tr,
     exists s' rest,
       exec env (handleMessage (Some m)) s tr =
       (Return tt, s',
        tr ++ (SendText (userPhone_of m) preparing_notice,
               client_sendText env (length (calls is_send tr))
                 (userPhone_of m) preparing_notice) :: rest) /\
       warmedUp s' = true /\
       (is_resolved (client_sendText env (length (calls is_send tr))
                       (userPhone_of m) preparing_notice) = true ->
        exists rest',
          rest = (GetHealth, axios_get_health env (length (calls is_health tr))) :: rest') /\
       (is_resolved (client_sendText env (length (calls is_send tr))
                       (userPhone_of m) preparing_notice) = false ->
        calls is_health rest = [])).
Proof.
  intros Hg Hb Hw.
  split; [exact (handleMessage_first_await_probe m s Hg Hb Hw)|].
  intros env tr.
  destruct (exec_handleMessage_after_warmUp env m s tr Hg Hb)
    as (sw & pre & s' & rest & Ew & E & Hh & Hs').
  destruct (exec_warmUp_cold env (userPhone_of m) s tr Hw) as (sw' & Ec & _).
  rewrite Ew in Ec. injection Ec as _ Hpre. apply app_inv_head in Hpre.
  unfold answer in Hpre. subst pre.
  set (o := client_sendText env (length (calls is_send tr)) (userPhone_of m)
              preparing_notice) in *.
  eexists s', _. split; [rewrite E; cbn [app]; reflexivity|].
  split; [exact Hs'|].
  destruct (is_resolved o).
  - split; [|intros [=]]. intros _.
    destruct (retry_calls_health_head env (length (calls is_health tr))) as [more Hm].
    unfold default_tries in Hm. cbn [attempts] in Hm. rewrite Hm.
    cbn [app]. eexists. reflexivity.
  - split; [intros [=]|]. intros _. exact Hh.
Qed.

(** C6 (as amended).  For a message that is not from a group, has a
    non-empty trimmed body and is an audio or voice note: once the warm-up
    has happened, the handler sends the disabled-feature notice to the
    sender and stops, with no request to the backend; only if the client
    rejects that send does the top-level [catch] attempt the generic
    notice.  When the message is the first one handled, the warm-up comes
    before the notice: the "preparing" notice and, only if the client
    accepted it, the one to three requests of the health probe.  Whatever
    the store, nothing is posted, and nothing but the generic notice after
    a rejected send follows the notice. *)
Theorem voice_note_gets_disabled_notice env m s tr :
  isGroupMsg m = false -> body_of m <> [] -> is_audio m = true ->
  (warmedUp s = true ->
   exec env (handleMessage (Some m)) s tr =
   match client_sendText env (length (calls is_send tr)) (userPhone_of m)
           audio_disabled_notice with
   | Resolved d =>
     (Return tt, s, tr ++ [(SendText (userPhone_of m) audio_disabled_notice, Resolved d)])
   | Rejected e =>
     (Return tt, add_console (ErrorUnhandled (Err e)) s,
      tr ++ [(SendText (userPhone_of m) audio_disabled_notice, Rejected e);
             (SendText (catch_phone (Some m)) unexpected_notice,
              client_sendText env (S (length (calls is_send tr)))
                (catch_phone (Some m)) unexpected_notice)])
   end) /\
  (exists s' pre o rescue,
     exec env (handleMessage (Some m)) s tr =
     (Return tt, s',
      tr ++ pre ++ (SendText (userPhone_of m) audio_disabled_notice, o) :: rescue) /\
     pre =
       (if warmedUp s then []
        else
          (SendText (userPhone_of m) preparing_notice,
           client_sendText env (length (calls is_send tr)) (userPhone_of m)
             preparing_notice)
          :: (if is_resolved
                   (client_sendText env (length (calls is_send tr)) (userPhone_of m)
                      preparing_notice)
              then retry_calls health_delays GetHealth
                     (attempts (axios_get_health env) (length (calls is_health tr))
                        default_tries) 0
              else [])) /\
     1 <= length (attempts (axios_get_health env) (length (calls is_health tr))
                    default_tries) <= 3 /\
     sent_texts pre = (if warmedUp s then [] else [preparing_notice]) /\
     calls is_post (pre ++ (SendText (userPhone_of m) audio_disabled_notice, o) :: rescue)
       = [] /\
     calls is_health ((SendText (userPhone_of m) audio_disabled_notice, o) :: rescue)
       = [] /\
     (is_resolved o = true -> rescue = []) /\
     (is_resolved o = false ->
        exists o', rescue = [(SendText (catch_phone (Some m)) unexpected_notice, o')])).
Proof.
  intros Hg Hb Ha.
  destruct (exec_handleMessage_routed env m s tr Hg Hb)
    as (sw & pre & E & Ew & _ & _ & Hwarm & Hp & _ & Ht & _).
  rewrite E, route_audio, exec_send_ret by done.
  split.
  - intros Hw. destruct (Hwarm Hw) as [-> ->]. rewrite app_nil_r.
    unfold answer at 1 2.
    destruct (client_sendText env (length (calls is_send tr)) (userPhone_of m)
                audio_disabled_notice) as [d|e]; cbn [barrier]; [reflexivity|].
    rewrite <- app_assoc. cbn [app]. unfold answer.
    rewrite calls_app, length_app. cbn [calls List.filter fst is_send length].
    by rewrite Nat.add_1_r.
  - assert (pre =
       (if warmedUp s then []
        else
          (SendText (userPhone_of m) preparing_notice,
           client_sendText env (length (calls is_send tr)) (userPhone_of m)
             preparing_notice)
          :: (if is_resolved
                   (client_sendText env (length (calls is_send tr)) (userPhone_of m)
                      preparing_notice)
              then retry_calls health_delays GetHealth
                     (attempts (axios_get_health env) (length (calls is_health tr))
                        default_tries) 0
              else []))) as Hpre.
    { destruct (warmedUp s) eqn:Hw.
      - by destruct (Hwarm eq_refl) as [_ ->].
      - destruct (exec_warmUp_cold env (userPhone_of m) s tr Hw) as (sw' & Ec & _).
        rewrite Ew in Ec. injection Ec as _ Hx. apply app_inv_head in Hx.
        exact Hx. }
    assert (1 <= length (attempts (axios_get_health env) (length (calls is_health tr))
                           default_tries) <= 3) as Hlen.
    { split; [|apply attempts_length].
      pose proof (attempts_nonempty (axios_get_health env)
                    (length (calls is_health tr)) 2) as Hne.
      unfold default_tries.
      destruct (attempts (axios_get_health env) (length (calls is_health tr)) 3);
        [done|simpl; lia]. }
    set (o := answer env (tr ++ pre) (SendText (userPhone_of m) audio_disabled_notice)).
    destruct o as [d|e] eqn:Ho; cbn [barrier].
    + exists sw, pre, (Resolved d), []. rewrite <- app_assoc.
      split; [reflexivity|]. split; [exact Hpre|]. split; [exact Hlen|].
      split; [exact Ht|]. split; [by rewrite calls_app, Hp|].
      split; [reflexivity|]. split; [reflexivity|intros [=]].
    + eexists (add_console (ErrorUnhandled (Err e)) sw), pre, (Rejected e),
        [(SendText (catch_phone (Some m)) unexpected_notice, _)].
      rewrite <- !app_assoc.
      split; [reflexivity|]. split; [exact Hpre|]. split; [exact Hlen|].
      split; [exact Ht|]. split; [by rewrite calls_app, Hp|].
      split; [reflexivity|]. split; [intros [=]|]. intros _. by eexists.
Qed.

(** ** The theorems at concrete messages *)

Ltac by_decide := apply (bool_decide_unpack _); vm_compute; exact I.



(** Seven code units in chunks of three. *)
Lemma sendSafe_sends_consecutive_chunks_witness :
  0 < 3 /\
  exists r ext,
    exec (flaky_env 0 (lit "ok")) (sendSafe (lit "u1") (lit "abcdefg") 3) initial_store [] =
      (r, initial_store, [] ++ ext) /\
    concat (chunks_of (lit "abcdefg") 3) = lit "abcdefg".
Proof.
  split; [lia|].
  destruct (sendSafe_sends_consecutive_chunks (flaky_env 0 (lit "ok")) (lit "u1")
              (lit "abcdefg") 3 initial_store [] ltac:(lia))
    as (r & ext & E & _ & _ & _ & Hcat & _).
  exists r, ext. split; [exact E|exact Hcat].
Defined.

Example sendSafe_abcdefg :
  chunks_of (lit "abcdefg") 3 = [lit "abc"; lit "def"; lit "g"] /\
  sent_texts (snd (exec (flaky_env 0 (lit "ok")) (sendSafe (lit "u1") (lit "abcdefg") 3)
                        initial_store []))
  = [lit "abc"; lit "def"; lit "g"].
Proof. split; vm_compute; reflexivity. Qed.

(** A handler that starts with the flag set requests no [/health]. *)
Lemma warmUp_runs_at_most_once_witness :
  warmedUp warm_store = true /\
  sat (fun c => is_health c = false) flag_kept (fun c => c = Return tt) warm_store
      (handleMessage (Some (chat "u1" "hello")) warm_store).
Proof.
  split; [reflexivity|].
  destruct warmUp_runs_at_most_once as (_ & _ & _ & _ & H).
  apply H. reflexivity.
Defined.

(** Two messages with the health endpoint down: the three attempts of the
    one probe, all during the first message. *)
Example warmUp_once_when_backend_down :
  let env := down_env [] in
  let '(s1, tr1) := handleAll env [Some (chat "u1" "hello")] initial_store [] in
  let '(s2, tr2) := handleAll env [Some (chat "u1" "hello"); Some (chat "u2" "hi")]
                      initial_store [] in
  warmedUp s1 = true /\ length (calls is_health tr1) = 3 /\
  warmedUp s2 = true /\ length (calls is_health tr2) = 3 /\
  count_text preparing_notice (sent_texts tr2) = 1.
Proof. vm_compute. by repeat split. Qed.

(** A voice note as first message. *)
Lemma first_routed_message_triggers_warmUp_witness :
  let m := voice_note "u1" "oi" in
  exists k,
    handleMessage (Some m) initial_store =
    Await (SendText (userPhone_of m) preparing_notice)
          (set_warmedUp true initial_store) k.
Proof.
  intros m.
  destruct (first_routed_message_triggers_warmUp m initial_store) as [(k & H & _) _].
  - reflexivity.
  - by_decide.
  - reflexivity.
  - exists k. exact H.
Defined.

(** C5 (as stated) fails: a first message that comes from a group, or
    whose body is blank, triggers nothing; the flag stays unset and no
    notice is sent. *)
Lemma first_group_message_triggers_no_warmUp :
  let env := flaky_env 0 (lit "ok") in
  exec env (handleMessage (Some (group_chat "g1" "hello"))) initial_store [] =
    (Return tt, initial_store, []) /\
  exec env (handleMessage (Some (chat "u1" "   "))) initial_store [] =
    (Return tt, initial_store, []) /\
  warmedUp initial_store = false.
Proof. split; [|split]; vm_compute; reflexivity. Qed.

(** A voice note after the warm-up. *)
Lemma voice_note_gets_disabled_notice_witness :
  let m := voice_note "u1" "oi" in
  exec (flaky_env 0 (lit "ok")) (handleMessage (Some m)) warm_store [] =
  (Return tt, warm_store,
   [] ++ [(SendText (userPhone_of m) audio_disabled_notice, Resolved NoData)]).
Proof.
  intros m.
  destruct (voice_note_gets_disabled_notice (flaky_env 0 (lit "ok")) m warm_store [])
    as [H _].
  - reflexivity.
  - by_decide.
  - reflexivity.
  - exact (H eq_refl).
Defined.

(** C6 (as stated) fails three ways: a voice note without a body gets no
    message at all; a voice note that is the first message also gets the
    warm-up notice, and [/health] is requested; and when the client
    rejects the notice a second send is attempted. *)
Lemma voice_note_not_exactly_one_message :
  let env := flaky_env 0 (lit "ok") in
  exec env (handleMessage (Some (voice_note "u1" ""))) warm_store [] =
    (Return tt, warm_store, []) /\
  (let '(_, _, tr) := exec env (handleMessage (Some (voice_note "u1" "oi")))
                        initial_store [] in
   sent_texts tr = [preparing_notice; audio_disabled_notice] /\
   length (calls is_health tr) = 1) /\
  (let '(_, _, tr) := exec (down_env [0]) (handleMessage (Some (voice_note "u1" "oi")))
                        warm_store [] in
   sent_texts tr = [audio_disabled_notice; unexpected_notice]).
Proof. vm_compute. by repeat split. Qed.

(** The user picks level 3 and then sends a sentence. *)
Lemma level_choice_sets_level_for_later_corrections_witness :
  let env := flaky_env 0 (lit "ok") in
  correct_payload (chat "u1" "I go school yesterday")
    (fst (handleAll env [Some (chat "u1" " 3 "); Some (chat "u2" "1")] initial_store [])) =
  CorrectPayload (body_of (chat "u1" "I go school yesterday"))
    (LevelStr (lit "intermediate")) (userPhone_of (chat "u1" " 3 ")).
Proof.
  intros env.
  destruct (level_choice_sets_level_for_later_corrections env)
    as (_ & _ & _ & _ & _ & _ & _ & _ & _ & _ & H).
  apply (H (chat "u1" " 3 ") [Some (chat "u2" "1")] (chat "u1" "I go school yesterday")
           initial_store [] (lit "intermediate")).
  - reflexivity.
  - reflexivity.
  - by_decide.
  - by_decide.
  - by_decide.
  - reflexivity.
Defined.

(** Handlers are not serialised.  A level choice that is the first message
    is suspended in the warm-up before it stores the level; a sentence of
    the same user handled meanwhile finds the flag set and posts the level
    stored until then. *)
Example level_choice_overtaken_during_warmUp :
  exists s1 k1 s2 k2,
    handleMessage (Some (chat "u1" "3")) initial_store =
    Await (SendText (lit "u1") preparing_notice) s1 k1 /\
    userLevels s1 !! lit "u1" = None /\
    handleMessage (Some (chat "u1" "I go school yesterday")) s1 =
    Await (Post (lit "/correct")
             (CorrectPayload (lit "I go school yesterday") (LevelStr (lit "basic"))
                (lit "u1")))
          s2 k2.
Proof.
  destruct (handleMessage_first_await (chat "u1" "3") initial_store)
    as [k1 E1]; [reflexivity|by_decide|reflexivity|].
  set (m := chat "u1" "I go school yesterday").
  assert (body_of m <> []) as Hb by by_decide.
  assert (toLowerCase (body_of m) ∉ keywords) as Hk by by_decide.
  assert (body_of m ∉ level_digits) as Hd by by_decide.
  destruct (route_default_first_await m (set_warmedUp true initial_store) eq_refl Hk Hd)
    as (s2 & k2 & E2 & _).
  exists (set_warmedUp true initial_store), k1. eexists s2, _.
  split; [exact E1|]. split; [reflexivity|].
  rewrite (handleMessage_warm_route m (set_warmedUp true initial_store) eq_refl Hb eq_refl).
  rewrite E2. cbn [catchR]. reflexivity.
Qed.

(** Ids that a plain object inherits: nothing is stored under
    [__proto__], and with no level stored the level posted for
    [constructor] is the inherited function, not ["basic"]. *)
Example levels_of_inherited_names :
  let env := flaky_env 0 (lit "ok") in
  userLevels (fst (handleAll env [Some (chat "__proto__" "3")] warm_store [])) = ∅ /\
  correct_payload (chat "constructor" "hello") warm_store =
  CorrectPayload (lit "hello") (LevelInherited (lit "constructor")) (lit "constructor") /\
  correct_payload (chat "constructor" "hello")
    (fst (handleAll env [Some (chat "constructor" "3")] warm_store [])) =
  CorrectPayload (lit "hello") (LevelStr (lit "intermediate")) (lit "constructor").
Proof. vm_compute. by repeat split. Qed.

(** C7 (as stated) fails: a ["1"] that comes from a group is ignored, and
    a voice note whose body is ["1"] gets the disabled-feature notice; in
    neither case is a level stored or confirmed. *)
Lemma level_choice_ignored_for_group_and_audio :
  let env := flaky_env 0 (lit "ok") in
  exec env (handleMessage (Some (group_chat "u1" "1"))) warm_store [] =
    (Return tt, warm_store, []) /\
  (let '(_, s, tr) := exec env (handleMessage (Some (voice_note "u1" "1"))) warm_store [] in
   userLevels s !! lit "u1" = None /\ sent_texts tr = [audio_disabled_notice]).
Proof. vm_compute. by repeat split. Qed.

(** [#ReSeTaR] with spaces around, backend up. *)
Lemma resetar_keeps_levels_witness :
  let m := chat "u1" " #ReSeTaR " in
  sat (fun _ => True) levels_kept (fun c => c = Return tt) warm_store
      (handleMessage (Some m) warm_store).
Proof.
  intros m.
  destruct (resetar_keeps_levels m) as [H _].
  - reflexivity.
  - reflexivity.
  - vm_compute. reflexivity.
  - apply H.
Defined.

Example resetar_run :
  let env := flaky_env 1 (lit "ok") in
  let s := set_userLevels (insert (lit "u1") (Some (lit "advanced"))) warm_store in
  let '(r, s', tr) := exec env (handleMessage (Some (chat "u1" "#Resetar"))) s [] in
  r = Return tt /\ userLevels s' = userLevels s /\
  map fst (calls is_post tr) =
    [Post (lit "/resetar") (ResetPayload (lit "u1"));
     Post (lit "/resetar") (ResetPayload (lit "u1"))] /\
  sent_texts tr = [reset_ok_notice].
Proof. vm_compute. by repeat split. Qed.

(** C8 (as stated) fails: a [#resetar] that comes from a group, or that is
    the body of a voice note, does not reach the reset endpoint. *)
Lemma resetar_ignored_for_group_and_audio :
  let env := flaky_env 0 (lit "ok") in
  exec env (handleMessage (Some (group_chat "u1" "#resetar"))) warm_store [] =
    (Return tt, warm_store, []) /\
  (let '(_, _, tr) := exec env (handleMessage (Some (voice_note "u1" "#resetar")))
                        warm_store [] in
   calls is_post tr = [] /\ sent_texts tr = [audio_disabled_notice]).
Proof. vm_compute. by repeat split. Qed.


(** Both markers. *)
Lemma reply_gets_at_most_one_banner_witness :
  banner_of (lit "❌ Ops! ... ✅ Muito bem!") = correct_banner.
Proof.
  destruct (reply_gets_at_most_one_banner (lit "u1") (lit "❌ Ops! ... ✅ Muito bem!"))
    as (_ & _ & H & _).
  apply H. vm_compute. reflexivity.
Defined.

(** ** The retry helper of the first revision *)

Lemma exec_rev1_postWithRetry_loop env path data tries n :
  forall i lastErr s tr,
    exec env (Rev1.postWithRetry_loop path data tries n i lastErr) s tr =
    (let outs := attempts (fun p => api_post env p path data)
                          (length (calls is_post tr)) n in
     (retry_result outs lastErr,
      add_consoles (retry_log (warn_post1 path tries) outs i) s,
      tr ++ rev1_retry_calls (Post path data) tries outs i)).
Proof.
  induction n as [|n IH]; intros i lastErr s tr.
  - simpl. by rewrite add_consoles_nil, app_nil_r.
  - cbn [Rev1.postWithRetry_loop attempts].
    rewrite exec_try_catch, exec_await. unfold answer.
    destruct (api_post env (length (calls is_post tr)) path data) as [d|e] eqn:Ho;
      cbn [completion_of].
    + cbn [rev1_retry_calls retry_log is_resolved app]. unfold retry_result. simpl last.
      by rewrite add_consoles_nil.
    + cbn [caught]. rewrite exec_bind, exec_ret, exec_bind, exec_console, exec_bind.
      cbn [rev1_retry_calls retry_log is_resolved].
      rewrite retry_result_rejected, <- add_consoles_cons.
      destruct (i <? tries - 1).
      * rewrite exec_sleep, IH. cbn zeta.
        rewrite !calls_app. cbn [calls List.filter fst is_post]. rewrite app_nil_r.
        rewrite length_app. cbn [length]. rewrite Nat.add_1_r.
        by rewrite <- !app_assoc.
      * rewrite exec_ret, IH. cbn zeta.
        rewrite !calls_app. cbn [calls List.filter fst is_post].
        rewrite length_app. cbn [length]. rewrite Nat.add_1_r.
        by rewrite <- !app_assoc.
Qed.

Lemma attempt_delays_rev1_from path data tries errs v :
  forall i acc,
    i + length errs < tries ->
    attempt_delays_from acc
      (rev1_retry_calls (Post path data) tries (map Rejected errs ++ [Resolved v]) i) =
    acc :: repeat 800%Z (length errs).
Proof.
  induction errs as [|e errs IH]; intros i acc Hi; [reflexivity|].
  cbn [map app rev1_retry_calls is_resolved attempt_delays_from length].
  assert ((i <? tries - 1) = true) as -> by (apply Nat.ltb_lt; simpl in Hi; lia).
  cbn [app attempt_delays_from]. rewrite (IH (S i)) by (simpl in Hi; lia).
  reflexivity.
Qed.

(** ** More on the two retry loops *)

Lemma attempts_only_last_resolved ask p n :
  forall i o,
    attempts ask p n !! i = Some o -> S i < length (attempts ask p n) ->
    is_resolved o = false.
Proof.
  revert p. induction n as [|n IH]; intros p i o; [done|].
  cbn [attempts]. destruct (ask p) as [d|e].
  - destruct i; simpl; intros _ H; lia.
  - destruct i as [|i]; simpl.
    + by intros [= <-] _.
    + intros Hi Hl. apply (IH (S p) i o Hi). lia.
Qed.

Lemma pauses_retry p delays c outs i :
  p c = true -> (forall d, p (Sleep d) = false) ->
  pauses_before p 0 (retry_calls delays c outs i) =
  map (delay_before delays) (seq i (length outs)).
Proof.
  intros Hc Hs. revert i. induction outs as [|o outs IH]; intros i; [done|].
  cbn [retry_calls length seq map]. rewrite <- IH.
  unfold backoff_calls, delay_before.
  destruct (delays !! i) as [d|]; cbn [default app pauses_before].
  - destruct (d =? 0)%Z eqn:E; cbn [app pauses_before].
    + apply Z.eqb_eq in E. subst. by rewrite Hc.
    + by rewrite Hs, Hc.
  - by rewrite Hc.
Qed.

(** X1.  [getHealthWithRetry]: when the health endpoint rejects the first
    [N - 1] requests and accepts request [N], with [N] at most [tries], the
    probe returns that answer after exactly [N] requests; the pause before
    request [i] is entry [i] of [[0; 1500; 3000]], and none past the end of
    that array.  The level store and the flag are left alone. *)
Theorem getHealthWithRetry_succeeds_on_attempt_N env tries N v s tr :
  1 <= N -> N <= tries ->
  (forall j, j < N - 1 ->
     is_resolved (axios_get_health env (length (calls is_health tr) + j)) = false) ->
  axios_get_health env (length (calls is_health tr) + (N - 1)) = Resolved v ->
  exists s' ext,
    exec env (getHealthWithRetry tries) s tr = (Return v, s', tr ++ ext) /\
    length (calls is_health ext) = N /\
    pauses_before is_health 0 ext = map (delay_before health_delays) (seq 0 N) /\
    (N <= 3 -> pauses_before is_health 0 ext = take N [0; 1500; 3000]%Z) /\
    (forall i, 3 <= i -> delay_before health_delays i = 0%Z) /\
    Forall (fun x => is_health (fst x) = true \/ is_sleep (fst x) = true) ext /\
    userLevels s' = userLevels s /\ warmedUp s' = warmedUp s.
Proof.
  intros H1 Htries Hfail Hok.
  destruct (attempts_success (axios_get_health env) (length (calls is_health tr))
              tries (N - 1) v ltac:(lia) Hfail Hok) as (errs & Hlen & Hatt).
  unfold getHealthWithRetry. rewrite exec_getHealthWithRetry_loop. cbn zeta.
  rewrite Hatt.
  assert (length (map Rejected errs ++ [Resolved v]) = N) as HlenN.
  { rewrite length_app, length_map. simpl. lia. }
  eexists _, _. split.
  { f_equal. f_equal. unfold retry_result. by rewrite last_snoc. }
  rewrite calls_health_retry, length_map, pauses_retry, HlenN by done.
  split; [reflexivity|]. split; [reflexivity|].
  split.
  { intros H3. destruct N as [|[|[|[|N]]]]; try lia; reflexivity. }
  split.
  { intros i Hi. unfold delay_before, health_delays.
    rewrite lookup_ge_None_2; [reflexivity|simpl; lia]. }
  split; [|split; reflexivity].
  generalize (map Rejected errs ++ [Resolved v]) 0. clear.
  intros outs. induction outs as [|o outs IH]; intros i; [constructor|].
  cbn [retry_calls]. apply Forall_app. split.
  - unfold backoff_calls. destruct (health_delays !! i) as [d|]; [|constructor].
    destruct (d =? 0)%Z; [constructor|]. constructor; [by right|constructor].
  - constructor; [by left|apply IH].
Qed.

Lemma getHealthWithRetry_succeeds_on_attempt_N_witness :
  exists s' ext,
    exec {| client_sendText := fun _ _ _ => Resolved NoData;
            api_post := fun _ _ _ => Resolved NoData;
            axios_get_health := fun n => if n <? 2 then Rejected error_503
                                         else Resolved NoData |}
         (getHealthWithRetry 3) initial_store [] = (Return NoData, s', [] ++ ext) /\
    pauses_before is_health 0 ext = [0; 1500; 3000]%Z.
Proof.
  destruct (getHealthWithRetry_succeeds_on_attempt_N
              {| client_sendText := fun _ _ _ => Resolved NoData;
                 api_post := fun _ _ _ => Resolved NoData;
                 axios_get_health := fun n => if n <? 2 then Rejected error_503
                                              else Resolved NoData |}
              3 3 NoData initial_store [])
    as (s' & ext & E & _ & _ & Hp & _).
  - lia.
  - lia.
  - intros j Hj. simpl in *. destruct j as [|[|j]]; [reflexivity|reflexivity|lia].
  - reflexivity.
  - exists s', ext. split; [exact E|]. apply Hp. lia.
Defined.

(** X2.  [getHealthWithRetry] gives up after [tries] rejected requests and
    throws the rejection of the last one; asked to try zero times it makes
    no request and throws [undefined]. *)
Theorem getHealthWithRetry_exhausted env tries s tr :
  (forall j, j < tries ->
     is_resolved (axios_get_health env (length (calls is_health tr) + j)) = false) ->
  exists r s' ext,
    exec env (getHealthWithRetry tries) s tr = (r, s', tr ++ ext) /\
    length (calls is_health ext) = tries /\
    (tries = 0 -> r = Throw Undefined /\ ext = [] /\ s' = s) /\
    (1 <= tries ->
       exists e,
         axios_get_health env (length (calls is_health tr) + (tries - 1)) = Rejected e /\
         r = Throw (Err e)).
Proof.
  intros Hfail.
  destruct (attempts_all_fail (axios_get_health env) (length (calls is_health tr))
              tries Hfail) as (errs & Hlen & Hatt & Hget).
  unfold getHealthWithRetry. rewrite exec_getHealthWithRetry_loop. cbn zeta.
  rewrite Hatt. eexists _, _, _. split; [reflexivity|].
  rewrite calls_health_retry, !length_map.
  split; [exact Hlen|]. split.
  - intros ->. destruct errs; [|done]. cbn. by rewrite add_consoles_nil.
  - intros H1. destruct (last errs) as [e|] eqn:Hlast.
    2:{ apply last_None in Hlast. subst. simpl in *. lia. }
    exists e. split.
    + apply Hget. rewrite last_lookup in Hlast. by rewrite <- Hlen, Nat.sub_1_r.
    + unfold retry_result. apply last_Some in Hlast as [l' ->].
      rewrite map_app. cbn [map]. by rewrite last_snoc.
Qed.

Lemma getHealthWithRetry_exhausted_witness :
  exists r s' ext,
    exec (down_env []) (getHealthWithRetry 3) initial_store [] = (r, s', [] ++ ext) /\
    length (calls is_health ext) = 3.
Proof.
  destruct (getHealthWithRetry_exhausted (down_env []) 3 initial_store [])
    as (r & s' & ext & E & Hl & _).
  - intros j Hj. reflexivity.
  - by exists r, s', ext.
Defined.

(** X3.  [postWithRetry] never posts more than [tries] times and never
    posts again after a success: of the outcomes of its posts only the
    last can be a success, and the run ends as that last post did (or
    throws [undefined] when [tries] is zero and nothing was posted).  When
    it throws after posting, it has posted [tries] times.  Its calls are
    posts of the one request and timers; the level store and the flag are
    left alone. *)
Theorem postWithRetry_attempts_bounded env pathname data tries s tr :
  exists r s' ext,
    exec env (postWithRetry pathname data tries) s tr = (r, s', tr ++ ext) /\
    length (calls is_post ext) <= tries /\
    Forall (fun x => fst x = Post pathname data) (calls is_post ext) /\
    (forall i o, map snd (calls is_post ext) !! i = Some o ->
                 S i < length (calls is_post ext) -> is_resolved o = false) /\
    r = match last (map snd (calls is_post ext)) with
        | Some (Resolved d) => Return d
        | Some (Rejected e) => Throw (Err e)
        | None => Throw Undefined
        end /\
    ((forall d, r <> Return d) -> length (calls is_post ext) = tries) /\
    Forall (fun x => is_post (fst x) = true \/ is_sleep (fst x) = true) ext /\
    userLevels s' = userLevels s /\ warmedUp s' = warmedUp s.
Proof.
  rewrite exec_postWithRetry. cbn zeta.
  set (outs := attempts _ _ _).
  eexists _, _, _. split; [reflexivity|].
  rewrite calls_post_retry, length_map.
  assert (map snd (map (fun o => (Post pathname data, o)) outs) = outs) as Hsnd.
  { rewrite map_map. simpl. apply map_id. }
  rewrite Hsnd.
  split; [apply attempts_length|].
  split; [by apply Forall_map, Forall_forall|].
  split; [apply attempts_only_last_resolved|].
  split.
  { unfold retry_result. by destruct (last outs) as [[d|e]|]. }
  split.
  { intros Hr. apply attempts_failed_length. unfold succeeded.
    unfold retry_result in Hr. fold outs.
    destruct (last outs) as [[d|e]|]; [|done|done].
    by destruct (Hr d). }
  split; [|split; reflexivity].
  generalize 0. clearbody outs. clear.
  induction outs as [|o outs IH]; intros i; [constructor|].
  cbn [retry_calls]. apply Forall_app. split.
  - unfold backoff_calls. destruct (post_delays !! i) as [d|]; [|constructor].
    destruct (d =? 0)%Z; [constructor|]. constructor; [by right|constructor].
  - constructor; [by left|apply IH].
Qed.

(** ** More on [sendSafe] and on the router *)

(** X4.  With a chunk size of zero the loop of [sendSafe] never advances:
    for a non-empty text, whatever bound is put on the number of loop
    tests, the run has not returned when the bound is reached; all it does
    is send empty messages, as many as the bound when the client accepts
    them.  So [sendSafe] itself does not return for such arguments. *)
Theorem sendSafe_zero_never_returns env to text s :
  text <> [] ->
  (forall fuel tr,
     exists r ext,
       exec env (sendSafe_loop to text 0 fuel 0) s tr = (r, s, tr ++ ext) /\
       r <> Return tt /\
       Forall (fun x => fst x = SendText to []) ext /\
       (accepts_all env -> r = Hang /\ length ext = fuel)) /\
  (forall tr, fst (fst (exec env (sendSafe to text 0) s tr)) <> Return tt).
Proof.
  intros Hne.
  assert (0 < length text) as Hlen by (destruct text; [done|simpl; lia]).
  assert (forall fuel tr,
     exists r ext,
       exec env (sendSafe_loop to text 0 fuel 0) s tr = (r, s, tr ++ ext) /\
       r <> Return tt /\
       Forall (fun x => fst x = SendText to []) ext /\
       (accepts_all env -> r = Hang /\ length ext = fuel)) as Hloop.
  { induction fuel as [|fuel IH]; intros tr.
    - exists Hang, []. rewrite app_nil_r. by repeat split.
    - cbn [sendSafe_loop].
      assert ((0 <? length text) = true) as -> by by apply Nat.ltb_lt.
      change (slice text 0 (0 + 0)) with (@nil N). change (0 + 0) with 0.
      rewrite exec_bind, exec_await.
      unfold answer.
      destruct (client_sendText env (length (calls is_send tr)) to []) as [d|e] eqn:Ho;
        cbn [completion_of].
      + destruct (IH (tr ++ [(SendText to [], Resolved d)]))
          as (r & ext & E & Hr & Hall & Hacc).
        exists r, ((SendText to [], Resolved d) :: ext).
        rewrite E, <- app_assoc. split; [reflexivity|]. split; [exact Hr|].
        split; [by constructor|].
        intros Ha. destruct (Hacc Ha) as [-> Hl]. split; [reflexivity|simpl; lia].
      + exists (Throw (Err e)), [(SendText to [], Rejected e)].
        split; [reflexivity|]. split; [done|]. split; [by repeat constructor|].
        intros Ha. specialize (Ha (length (calls is_send tr)) to []).
        rewrite Ho in Ha. discriminate Ha. }
  split; [exact Hloop|].
  intros tr. unfold sendSafe.
  assert ((length text <=? 0) = false) as -> by (apply Nat.leb_gt; lia).
  destruct (Hloop (S (length text)) tr) as (r & ext & E & Hr & _).
  by rewrite E.
Qed.

Lemma sendSafe_zero_never_returns_witness :
  fst (fst (exec (flaky_env 0 (lit "ok")) (sendSafe (lit "u1") (lit "ab") 0)
                 initial_store [])) <> Return tt.
Proof.
  destruct (sendSafe_zero_never_returns (flaky_env 0 (lit "ok")) (lit "u1") (lit "ab")
              initial_store) as [_ H].
  - vm_compute. discriminate.
  - apply H.
Defined.

(** X5.  A message from a group, and a message whose body is missing or
    blank, is dropped at once: the handler returns without a call, a log
    line or a change to the store. *)
Theorem ignored_messages_are_silent m s :
  isGroupMsg m = true \/ body_of m = [] ->
  handleMessage (Some m) s = Done (Return tt) s.
Proof.
  intros H. unfold handleMessage, try_catch. cbn [handleMessage_try].
  destruct (isGroupMsg m); [reflexivity|].
  destruct H as [H|H]; [discriminate H|]. rewrite H. reflexivity.
Qed.

Lemma ignored_messages_are_silent_witness :
  handleMessage (Some (chat "u1" "  ")) initial_store = Done (Return tt) initial_store.
Proof.
  apply ignored_messages_are_silent. right. vm_compute. reflexivity.
Defined.

(** A branch of the router that is one send. *)
Lemma exec_single_send env m s tr text :
  isGroupMsg m = false -> body_of m <> [] ->
  route m (userPhone_of m) (body_of m) = (await (SendText (userPhone_of m) text) ;; ret tt) ->
  exists s' pre o rescue,
    exec env (handleMessage (Some m)) s tr =
    (Return tt, s', tr ++ pre ++ (SendText (userPhone_of m) text, o) :: rescue) /\
    sent_texts pre = (if warmedUp s then [] else [preparing_notice]) /\
    (warmedUp s = true -> pre = []) /\
    calls is_post (pre ++ (SendText (userPhone_of m) text, o) :: rescue) = [] /\
    userLevels s' = userLevels s /\
    (is_resolved o = true -> rescue = []) /\
    (is_resolved o = false ->
       exists o', rescue = [(SendText (catch_phone (Some m)) unexpected_notice, o')]).
Proof.
  intros Hg Hb Hr.
  destruct (exec_handleMessage_routed env m s tr Hg Hb)
    as (sw & pre & E & _ & Hl & _ & Hwarm & Hp & _ & Ht & _).
  rewrite E, Hr, exec_send_ret.
  set (o := answer env (tr ++ pre) (SendText (userPhone_of m) text)).
  destruct o as [d|e] eqn:Ho; cbn [barrier].
  - exists sw, pre, (Resolved d), []. rewrite <- app_assoc.
    split; [reflexivity|]. split; [exact Ht|].
    split; [intros Hw; by destruct (Hwarm Hw)|].
    split; [by rewrite calls_app, Hp|]. split; [exact Hl|].
    split; [reflexivity|intros [=]].
  - exists (add_console (ErrorUnhandled (Err e)) sw), pre, (Rejected e),
      [(SendText (catch_phone (Some m)) unexpected_notice,
        answer env ((tr ++ pre) ++ [(SendText (userPhone_of m) text, Rejected e)])
          (SendText (catch_phone (Some m)) unexpected_notice))].
    rewrite <- !app_assoc.
    split; [reflexivity|]. split; [exact Ht|].
    split; [intros Hw; by destruct (Hwarm Hw)|].
    split; [by rewrite calls_app, Hp|]. split; [exact Hl|].
    split; [intros [=]|]. intros _. by eexists.
Qed.

Lemma keyword_body_nonempty m k :
  k <> [] -> toLowerCase (body_of m) = k -> body_of m <> [].
Proof. intros Hk H E. rewrite E in H. simpl in H. congruence. Qed.

(** X6.  [#ajuda], in any letter case and with blanks around it, from a
    sender that is not a group, in a message that is not audio: the handler
    sends the help text and nothing else (but the warm-up notice of a first
    message, and the generic notice if the client rejects the help text);
    nothing is posted to the backend and the level store is unchanged. *)
Theorem ajuda_sends_help env m s tr :
  isGroupMsg m = false -> is_audio m = false ->
  toLowerCase (body_of m) = lit "#ajuda" ->
  exists s' pre o rescue,
    exec env (handleMessage (Some m)) s tr =
    (Return tt, s', tr ++ pre ++ (SendText (userPhone_of m) helpMessage, o) :: rescue) /\
    sent_texts pre = (if warmedUp s then [] else [preparing_notice]) /\
    (warmedUp s = true -> pre = []) /\
    calls is_post (pre ++ (SendText (userPhone_of m) helpMessage, o) :: rescue) = [] /\
    userLevels s' = userLevels s /\
    (is_resolved o = true -> rescue = []) /\
    (is_resolved o = false ->
       exists o', rescue = [(SendText (catch_phone (Some m)) unexpected_notice, o')]).
Proof.
  intros Hg Ha Hk.
  apply exec_single_send; [exact Hg| |].
  - apply (keyword_body_nonempty m (lit "#ajuda")); [by vm_compute|exact Hk].
  - unfold route. rewrite Ha, Hk. unfold str_eqb.
    by rewrite bool_decide_eq_true_2 by reflexivity.
Qed.

Lemma ajuda_sends_help_witness :
  exists s' pre o rescue,
    exec (flaky_env 0 (lit "ok")) (handleMessage (Some (chat "u1" " #AJUDA "))) warm_store [] =
    (Return tt, s',
     [] ++ pre ++ (SendText (userPhone_of (chat "u1" " #AJUDA ")) helpMessage, o) :: rescue) /\
    userLevels s' = userLevels warm_store.
Proof.
  destruct (ajuda_sends_help (flaky_env 0 (lit "ok")) (chat "u1" " #AJUDA ") warm_store [])
    as (s' & pre & o & rescue & E & _ & _ & _ & Hl & _).
  - reflexivity.
  - reflexivity.
  - vm_compute. reflexivity.
  - by exists s', pre, o, rescue.
Defined.

(** X7.  [#nivel], likewise, gets the level menu and nothing else; no level
    is set and nothing is posted. *)
Theorem nivel_sends_menu env m s tr :
  isGroupMsg m = false -> is_audio m = false ->
  toLowerCase (body_of m) = lit "#nivel" ->
  exists s' pre o rescue,
    exec env (handleMessage (Some m)) s tr =
    (Return tt, s', tr ++ pre ++ (SendText (userPhone_of m) levelMsg, o) :: rescue) /\
    sent_texts pre = (if warmedUp s then [] else [preparing_notice]) /\
    (warmedUp s = true -> pre = []) /\
    calls is_post (pre ++ (SendText (userPhone_of m) levelMsg, o) :: rescue) = [] /\
    userLevels s' = userLevels s /\
    (is_resolved o = true -> rescue = []) /\
    (is_resolved o = false ->
       exists o', rescue = [(SendText (catch_phone (Some m)) unexpected_notice, o')]).
Proof.
  intros Hg Ha Hk.
  apply exec_single_send; [exact Hg| |].
  - apply (keyword_body_nonempty m (lit "#nivel")); [by vm_compute|exact Hk].
  - unfold route. rewrite Ha, Hk.
    assert (str_eqb (lit "#nivel") (lit "#ajuda") = false) as -> by by vm_compute.
    unfold str_eqb. by rewrite bool_decide_eq_true_2 by reflexivity.
Qed.

Lemma nivel_sends_menu_witness :
  exists s' pre o rescue,
    exec (flaky_env 0 (lit "ok")) (handleMessage (Some (chat "u1" "#Nivel"))) warm_store [] =
    (Return tt, s',
     [] ++ pre ++ (SendText (userPhone_of (chat "u1" "#Nivel")) levelMsg, o) :: rescue) /\
    userLevels s' = userLevels warm_store.
Proof.
  destruct (nivel_sends_menu (flaky_env 0 (lit "ok")) (chat "u1" "#Nivel") warm_store [])
    as (s' & pre & o & rescue & E & _ & _ & _ & Hl & _).
  - reflexivity.
  - reflexivity.
  - vm_compute. reflexivity.
  - by exists s', pre, o, rescue.
Defined.

(** ** More on the default path, the warm-up and the reset flow *)

Lemma dispatchReply_banner userPhone botReply :
  dispatchReply userPhone botReply =
  sendSafe userPhone (banner_of botReply ++ botReply) default_maxLen.
Proof.
  unfold dispatchReply, banner_of.
  destruct (includes botReply correct_marker); [reflexivity|].
  destruct (includes botReply incorrect_marker); reflexivity.
Qed.

Lemma send_all_accepted env to texts :
  accepts_all env ->
  forall tr,
    exists ext,
      send_all env to texts tr = (Return tt, tr ++ ext) /\
      map fst ext = map (SendText to) texts.
Proof.
  intros Ha. induction texts as [|t texts IH]; intros tr.
  - exists []. by rewrite app_nil_r.
  - cbn [send_all]. pose proof (Ha (length (calls is_send tr)) to t) as H.
    unfold answer. destruct (client_sendText env _ to t) as [d|e]; [|discriminate H].
    destruct (IH (tr ++ [(SendText to t, Resolved d)])) as (ext & E & Hm).
    exists ((SendText to t, Resolved d) :: ext). rewrite E, <- app_assoc.
    split; [reflexivity|]. simpl. by rewrite Hm.
Qed.

(** The default path when the first post goes through and the client
    accepts the sends. *)
Lemma exec_default_success env m s tr d :
  isGroupMsg m = false -> body_of m <> [] -> is_audio m = false ->
  toLowerCase (body_of m) ∉ keywords -> body_of m ∉ level_digits ->
  api_post env (length (calls is_post tr)) (lit "/correct") (correct_payload m s)
    = Resolved d ->
  accepts_all env ->
  exists s' pre sends,
    exec env (handleMessage (Some m)) s tr =
    (Return tt, s',
     tr ++ pre ++ (Post (lit "/correct") (correct_payload m s), Resolved d) :: sends) /\
    sent_texts pre = (if warmedUp s then [] else [preparing_notice]) /\
    calls is_post pre = [] /\
    map fst sends =
      map (SendText (userPhone_of m))
          (chunks_of (banner_of (botReply_of d) ++ botReply_of d) default_maxLen) /\
    userLevels s' = userLevels s.
Proof.
  intros Hg Hb Ha Hk Hd Hok Hacc.
  destruct (exec_handleMessage_routed env m s tr Hg Hb)
    as (sw & pre & E & _ & Hl & _ & _ & Hp & _ & Ht & _).
  rewrite E, route_default by done. unfold correct.
  rewrite exec_bind, exec_get_store, exec_bind, exec_console, exec_bind, exec_console.
  rewrite exec_bind, exec_try_catch, exec_bind, exec_postWithRetry. cbn zeta.
  rewrite Hl, calls_app, Hp, app_nil_r. fold (correct_payload m s).
  assert (attempts (fun p => api_post env p (lit "/correct") (correct_payload m s))
                   (length (calls is_post tr)) default_tries = [Resolved d]) as Hatt.
  { unfold default_tries. cbn [attempts]. by rewrite Hok. }
  rewrite Hatt. cbn [retry_calls retry_log]. unfold retry_result. cbn [last completion_of].
  change (backoff_calls post_delays 0) with (@nil (Call * Outcome)). cbn [app].
  rewrite exec_ret. cbn iota beta. rewrite exec_bind, exec_console.
  rewrite dispatchReply_banner, exec_sendSafe by (unfold default_maxLen; lia).
  match goal with |- context [send_all env ?to ?texts ?tr0] =>
    destruct (send_all_accepted env to texts Hacc tr0) as (ext & Es & Hm)
  end.
  rewrite Es. cbn [barrier].
  eexists _, pre, ext. rewrite <- !app_assoc.
  split; [reflexivity|]. split; [exact Ht|]. split; [exact Hp|].
  split; [exact Hm|]. cbn. exact Hl.
Qed.

(** X8.  A default-path message whose first post is answered: the handler
    posts [{ user_message, level, phone }] to [/correct] once and, the
    client accepting, forwards the reply after its banner in consecutive
    chunks of at most 3000 code units, and nothing else (but the warm-up
    notice of a first message).  The level store is unchanged. *)
Theorem default_path_forwards_reply env m s tr d :
  isGroupMsg m = false -> body_of m <> [] -> is_audio m = false ->
  toLowerCase (body_of m) ∉ keywords -> body_of m ∉ level_digits ->
  api_post env (length (calls is_post tr)) (lit "/correct") (correct_payload m s)
    = Resolved d ->
  accepts_all env ->
  exists s' pre sends,
    exec env (handleMessage (Some m)) s tr =
    (Return tt, s',
     tr ++ pre ++ (Post (lit "/correct") (correct_payload m s), Resolved d) :: sends) /\
    sent_texts pre = (if warmedUp s then [] else [preparing_notice]) /\
    calls is_post pre = [] /\
    map fst sends =
      map (SendText (userPhone_of m))
          (chunks_of (banner_of (botReply_of d) ++ botReply_of d) default_maxLen) /\
    concat (sent_texts sends) = banner_of (botReply_of d) ++ botReply_of d /\
    userLevels s' = userLevels s.
Proof.
  intros Hg Hb Ha Hk Hd Hok Hacc.
  destruct (exec_default_success env m s tr d Hg Hb Ha Hk Hd Hok Hacc)
    as (s' & pre & sends & E & Ht & Hp & Hm & Hl).
  exists s', pre, sends. split; [exact E|]. split; [exact Ht|]. split; [exact Hp|].
  split; [exact Hm|]. split; [|exact Hl].
  rewrite (sent_texts_sends _ _ _ Hm). apply chunks_of_concat.
  unfold default_maxLen. lia.
Qed.

Lemma default_path_forwards_reply_witness :
  let m := chat "u1" "I go school yesterday" in
  let env := flaky_env 0 (lit "✅ Muito bem!") in
  exists s' pre sends,
    exec env (handleMessage (Some m)) warm_store [] =
    (Return tt, s',
     [] ++ pre ++
     (Post (lit "/correct") (correct_payload m warm_store),
      Resolved (Obj (Some (lit "✅ Muito bem!")))) :: sends) /\
    concat (sent_texts sends) = correct_banner ++ lit "✅ Muito bem!".
Proof.
  intros m env.
  destruct (default_path_forwards_reply env m warm_store []
              (Obj (Some (lit "✅ Muito bem!"))))
    as (s' & pre & sends & E & _ & _ & _ & Hc & _).
  - reflexivity.
  - by_decide.
  - reflexivity.
  - by_decide.
  - by_decide.
  - reflexivity.
  - intros n to text. reflexivity.
  - exists s', pre, sends. split; [exact E|]. rewrite Hc. vm_compute. reflexivity.
Defined.

(** X9.  A backend answer without a usable [reply] (no data, no [reply]
    property, an empty [reply]) is replaced by the fixed fallback text,
    which goes out as one message with no banner. *)
Theorem missing_reply_gets_fallback env m s tr d :
  isGroupMsg m = false -> body_of m <> [] -> is_audio m = false ->
  toLowerCase (body_of m) ∉ keywords -> body_of m ∉ level_digits ->
  api_post env (length (calls is_post tr)) (lit "/correct") (correct_payload m s)
    = Resolved d ->
  accepts_all env ->
  d = NoData \/ d = Obj None \/ d = Obj (Some []) ->
  exists s' pre o,
    exec env (handleMessage (Some m)) s tr =
    (Return tt, s',
     tr ++ pre ++
     [(Post (lit "/correct") (correct_payload m s), Resolved d);
      (SendText (userPhone_of m) fallback_reply, o)]) /\
    sent_texts pre = (if warmedUp s then [] else [preparing_notice]).
Proof.
  intros Hg Hb Ha Hk Hd Hok Hacc Hmiss.
  destruct (exec_default_success env m s tr d Hg Hb Ha Hk Hd Hok Hacc)
    as (s' & pre & sends & E & Ht & _ & Hm & _).
  assert (botReply_of d = fallback_reply) as Hf.
  { by destruct Hmiss as [->|[->| ->]]. }
  rewrite Hf in Hm.
  assert (chunks_of (banner_of fallback_reply ++ fallback_reply) default_maxLen
          = [fallback_reply]) as Hch by (vm_compute; reflexivity).
  rewrite Hch in Hm.
  destruct sends as [|[c o] [|x sends]]; try discriminate Hm.
  injection Hm as Hc. simpl in Hc. subst c.
  exists s', pre, o. split; [exact E|exact Ht].
Qed.

Lemma missing_reply_gets_fallback_witness :
  let m := chat "u1" "I go school yesterday" in
  let env := {| client_sendText := fun _ _ _ => Resolved NoData;
                api_post := fun _ _ _ => Resolved (Obj None);
                axios_get_health := fun _ => Resolved NoData |} in
  exists s' pre o,
    exec env (handleMessage (Some m)) warm_store [] =
    (Return tt, s',
     [] ++ pre ++
     [(Post (lit "/correct") (correct_payload m warm_store), Resolved (Obj None));
      (SendText (userPhone_of m) fallback_reply, o)]).
Proof.
  intros m env.
  destruct (missing_reply_gets_fallback env m warm_store [] (Obj None))
    as (s' & pre & o & E & _).
  - reflexivity.
  - by_decide.
  - reflexivity.
  - by_decide.
  - by_decide.
  - reflexivity.
  - intros n to text. reflexivity.
  - right. left. reflexivity.
  - by exists s', pre, o.
Defined.

(** ** Rejected sends *)

Lemma calls_none (p : Call -> bool) (ext : Trace) :
  Forall (fun x => p (fst x) = false) ext -> calls p ext = [].
Proof.
  induction 1 as [|[c o] ext Hc _ IH]; [reflexivity|].
  unfold calls in *. simpl in *. by rewrite Hc.
Qed.

(** X10.  When the client rejects the "preparing" notice of the first routed
    message, the warm-up block is left at once: the flag stays set, the
    message is still routed, and [/health] is requested neither for this
    message nor for any message handled after it. *)
Theorem rejected_notice_skips_health_probe env m ms s tr e :
  isGroupMsg m = false -> body_of m <> [] -> warmedUp s = false ->
  client_sendText env (length (calls is_send tr)) (userPhone_of m) preparing_notice
    = Rejected e ->
  exists sw s' ext,
    exec env (handleMessage (Some m)) s tr =
    barrier env (Some m)
      (exec env (route m (userPhone_of m) (body_of m)) sw
         (tr ++ [(SendText (userPhone_of m) preparing_notice, Rejected e)])) /\
    handleAll env (Some m :: ms) s tr =
    (s', tr ++ (SendText (userPhone_of m) preparing_notice, Rejected e) :: ext) /\
    calls is_health ext = [] /\
    warmedUp s' = true.
Proof.
  intros Hg Hb Hw Hrej.
  destruct (exec_handleMessage_routed env m s tr Hg Hb)
    as (sw & pre & E & Ew & _ & Hsw & _).
  destruct (exec_warmUp env (userPhone_of m) s tr) as (sw' & pre' & E' & _ & _ & _ & Hcold).
  rewrite Ew in E'. injection E' as _ Hpre. apply app_inv_head in Hpre. subst pre'.
  destruct (Hcold Hw) as (outs & _ & Hpre). unfold answer in Hpre.
  rewrite Hrej in Hpre. cbn [is_resolved] in Hpre. subst pre.
  destruct (sat_run (fun c => is_health c = false) flag_kept flag_kept_refl flag_kept_trans
              settled env (route m (userPhone_of m) (body_of m) sw) sw
              (tr ++ [(SendText (userPhone_of m) preparing_notice, Rejected e)]))
    as (c & s1 & ext & Er & Hc & Hk & Hp).
  { apply (sat_route (fun c => is_health c = false) flag_kept
             flag_kept_refl flag_kept_trans); try done; by intros ? ? H. }
  destruct (barrier_result env (Some m) c s1
              ((tr ++ [(SendText (userPhone_of m) preparing_notice, Rejected e)]) ++ ext))
    as (s2 & rescue & Eb & _ & Hw2 & Hno & Hyes).
  destruct (handleAll_warm env ms s2
              (((tr ++ [(SendText (userPhone_of m) preparing_notice, Rejected e)]) ++ ext)
               ++ rescue))
    as (s' & more & Ea & _ & Hwarm & _).
  assert (warmedUp s2 = true) as Hs2 by (rewrite Hw2; by apply Hk).
  destruct (Hwarm Hs2) as [Hmore Hs'].
  exists sw, s', (ext ++ rescue ++ more).
  split; [exact E|]. split.
  { cbn [handleAll]. rewrite E. unfold exec. rewrite Er, Eb, Ea.
    f_equal. rewrite <- !app_assoc. reflexivity. }
  split; [|exact Hs'].
  rewrite !calls_app, Hmore, app_nil_r, (calls_none _ _ Hp).
  destruct c as [a|t|].
  - destruct Hno as [_ ->]; [intros t; discriminate|reflexivity].
  - rewrite (Hyes t eq_refl). reflexivity.
  - destruct Hno as [_ ->]; [intros t; discriminate|reflexivity].
Qed.

Lemma rejected_notice_skips_health_probe_witness :
  let m := chat "u1" "#nivel" in
  let s := initial_store in
  exists sw s' ext,
    exec (down_env [0]) (handleMessage (Some m)) s [] =
    barrier (down_env [0]) (Some m)
      (exec (down_env [0]) (route m (userPhone_of m) (body_of m)) sw
         ([] ++ [(SendText (userPhone_of m) preparing_notice, Rejected send_failed)])) /\
    handleAll (down_env [0]) [Some m; Some (chat "u2" "hello")] s [] =
    (s', [] ++ (SendText (userPhone_of m) preparing_notice, Rejected send_failed) :: ext) /\
    calls is_health ext = [] /\
    warmedUp s' = true.
Proof.
  intros m s.
  apply (rejected_notice_skips_health_probe (down_env [0]) m [Some (chat "u2" "hello")]
           s [] send_failed).
  - reflexivity.
  - by_decide.
  - reflexivity.
  - reflexivity.
Defined.

(** X11.  The notice of the top-level [catch] is addressed to [message.from],
    or to ['unknown'], and never to [message.sender.id]: when a message
    carries its sender only as [sender.id] and the client rejects the
    answer, the answer went to that id and the notice goes to
    ['unknown']. *)
Theorem rescue_notice_ignores_sender_id env m s tr c r e :
  isGroupMsg m = false -> body_of m <> [] -> is_audio m = true -> warmedUp s = true ->
  from m = None -> sender m = Some {| id := Some (c :: r) |} ->
  client_sendText env (length (calls is_send tr)) (c :: r) audio_disabled_notice
    = Rejected e ->
  exists s' o,
    exec env (handleMessage (Some m)) s tr =
    (Return tt, s',
     tr ++ [(SendText (c :: r) audio_disabled_notice, Rejected e);
            (SendText (lit "unknown") unexpected_notice, o)]).
Proof.
  intros Hg Hb Ha Hw Hf Hs Hrej.
  assert (userPhone_of m = c :: r) as Hu.
  { unfold userPhone_of. rewrite Hf, Hs. reflexivity. }
  assert (catch_phone (Some m) = lit "unknown") as Hc.
  { unfold catch_phone. rewrite Hf. reflexivity. }
  destruct (exec_handleMessage_routed env m s tr Hg Hb)
    as (sw & pre & E & _ & _ & _ & Hwarm & _).
  destruct (Hwarm Hw) as [-> ->]. rewrite app_nil_r in E.
  rewrite E, (route_audio m _ _ Ha), exec_send_ret, Hu.
  assert (answer env tr (SendText (c :: r) audio_disabled_notice) = Rejected e) as ->
    by exact Hrej.
  cbn [barrier]. rewrite Hc, <- app_assoc.
  eexists _, _. reflexivity.
Qed.

Lemma rescue_notice_ignores_sender_id_witness :
  let m := {| isGroupMsg := false; from := None;
              sender := Some {| id := Some (lit "u1") |};
              body := Some (lit "voice"); type := Some (lit "ptt") |} in
  exists s' o,
    exec (down_env [0]) (handleMessage (Some m)) warm_store [] =
    (Return tt, s',
     [] ++ [(SendText (lit "u1") audio_disabled_notice, Rejected send_failed);
            (SendText (lit "unknown") unexpected_notice, o)]).
Proof.
  intros m.
  apply (rescue_notice_ignores_sender_id (down_env [0]) m warm_store []
           117%N [49%N] send_failed).
  - reflexivity.
  - by_decide.
  - reflexivity.
  - reflexivity.
  - reflexivity.
  - reflexivity.
  - reflexivity.
Defined.

(** X12.  [#resetar] when the backend performs the reset but the client
    rejects the confirmation: that send sits in the same [try] as the post,
    so the handler goes on to tell the user that the reset failed; nothing
    is posted again. *)
Theorem reset_confirmation_rejected_reports_failure env m s tr d e :
  isGroupMsg m = false -> is_audio m = false ->
  toLowerCase (body_of m) = lit "#resetar" -> warmedUp s = true ->
  api_post env (length (calls is_post tr)) (lit "/resetar") (ResetPayload (userPhone_of m))
    = Resolved d ->
  client_sendText env (length (calls is_send tr)) (userPhone_of m) reset_ok_notice
    = Rejected e ->
  exists s' o rescue,
    exec env (handleMessage (Some m)) s tr =
    (Return tt, s',
     tr ++ [(Post (lit "/resetar") (ResetPayload (userPhone_of m)), Resolved d);
            (SendText (userPhone_of m) reset_ok_notice, Rejected e);
            (SendText (userPhone_of m) reset_failed_notice, o)] ++ rescue) /\
    calls is_post rescue = [] /\
    (is_resolved o = true -> rescue = []).
Proof.
  intros Hg Ha Hk Hw Hpost Hsend.
  pose proof (body_of_reset_nonempty m Hk) as Hb.
  destruct (exec_handleMessage_routed env m s tr Hg Hb)
    as (sw & pre & E & _ & _ & _ & Hwarm & _).
  destruct (Hwarm Hw) as [-> ->]. rewrite app_nil_r in E.
  rewrite E, (route_resetar m _ _ Ha Hk).
  destruct (exec_resetar env (userPhone_of m) s tr) as (s1 & Er & _).
  cbn zeta in Er. rewrite Er.
  assert (attempts (fun p => api_post env p (lit "/resetar") (ResetPayload (userPhone_of m)))
                   (length (calls is_post tr)) default_tries = [Resolved d]) as ->.
  { unfold default_tries. cbn [attempts]. by rewrite Hpost. }
  cbn [retry_calls]. change (backoff_calls post_delays 0) with (@nil (Call * Outcome)).
  cbn [app]. unfold succeeded. cbn [last]. unfold reset_replies.
  set (tr1 := tr ++ [(Post (lit "/resetar") (ResetPayload (userPhone_of m)), Resolved d)]).
  assert (answer env tr1 (SendText (userPhone_of m) reset_ok_notice) = Rejected e) as ->.
  { unfold answer, tr1. rewrite calls_app. cbn [calls List.filter fst is_send].
    by rewrite app_nil_r. }
  cbn [is_resolved].
  set (o := answer env _ (SendText (userPhone_of m) reset_failed_notice)).
  unfold after_sends. cbn [last].
  destruct o as [d'|e'] eqn:Ho; cbn [barrier].
  - exists s1, (Resolved d'), []. unfold tr1.
    split; [|by split]. rewrite <- !app_assoc. reflexivity.
  - unfold tr1. rewrite <- !app_assoc. cbn [app].
    eexists _, (Rejected e'), [(SendText (catch_phone (Some m)) unexpected_notice, _)].
    split; [reflexivity|]. split; [reflexivity|intros [=]].
Qed.

Lemma reset_confirmation_rejected_reports_failure_witness :
  let m := chat "u1" "#resetar" in
  let env := {| client_sendText := fun n _ _ =>
                  if bool_decide (n = 0) then Rejected send_failed else Resolved NoData;
                api_post := fun _ _ _ => Resolved NoData;
                axios_get_health := fun _ => Resolved NoData |} in
  exists s' o rescue,
    exec env (handleMessage (Some m)) warm_store [] =
    (Return tt, s',
     [] ++ [(Post (lit "/resetar") (ResetPayload (userPhone_of m)), Resolved NoData);
            (SendText (userPhone_of m) reset_ok_notice, Rejected send_failed);
            (SendText (userPhone_of m) reset_failed_notice, o)] ++ rescue) /\
    calls is_post rescue = [] /\
    (is_resolved o = true -> rescue = []).
Proof.
  intros m env.
  apply (reset_confirmation_rejected_reports_failure env m warm_store [] NoData send_failed).
  - reflexivity.
  - reflexivity.
  - by_decide.
  - reflexivity.
  - reflexivity.
  - reflexivity.
Defined.

(** ** The retry helper of the first revision, continued *)

(** A rejected post of the first revision followed by its pause. *)
Lemma rev1_calls_success c tries errs v :
  forall i,
    i + length errs < tries ->
    rev1_retry_calls c tries (map Rejected errs ++ [Resolved v]) i =
    flat_map (fun e => [(c, Rejected e); (Sleep 800, Resolved NoData)]) errs ++
    [(c, Resolved v)].
Proof.
  induction errs as [|e errs IH]; intros i Hi; [reflexivity|].
  cbn [map app rev1_retry_calls is_resolved flat_map length] in *.
  assert ((i <? tries - 1) = true) as -> by (apply Nat.ltb_lt; lia).
  cbn [app]. rewrite (IH (S i)) by lia. reflexivity.
Qed.

Lemma rev1_calls_all_fail c tries errs e :
  forall i,
    i + S (length errs) = tries ->
    rev1_retry_calls c tries (map Rejected (errs ++ [e])) i =
    flat_map (fun x => [(c, Rejected x); (Sleep 800, Resolved NoData)]) errs ++
    [(c, Rejected e)].
Proof.
  induction errs as [|x errs IH]; intros i Hi.
  - cbn [map app rev1_retry_calls is_resolved flat_map length] in *.
    assert ((i <? tries - 1) = false) as -> by (apply Nat.ltb_ge; lia).
    reflexivity.
  - cbn [map app rev1_retry_calls is_resolved flat_map length] in *.
    assert ((i <? tries - 1) = true) as -> by (apply Nat.ltb_lt; lia).
    cbn [app]. rewrite (IH (S i)) by lia. reflexivity.
Qed.

Lemma rev1_pauses_posts path data (errs : list JsError) :
  calls is_post
    (flat_map (fun e => [(Post path data, Rejected e); (Sleep 800, Resolved NoData)]) errs) =
  map (fun e => (Post path data, Rejected e)) errs /\
  calls is_sleep
    (flat_map (fun e => [(Post path data, Rejected e); (Sleep 800, Resolved NoData)]) errs) =
  map (fun _ => (Sleep 800, Resolved NoData)) errs.
Proof.
  induction errs as [|e errs [IH1 IH2]]; [done|].
  cbn [flat_map app]. unfold calls in *. cbn [List.filter fst is_post is_sleep map].
  by rewrite IH1, IH2.
Qed.

(** X13.  The first revision's [postWithRetry]: when the backend rejects the
    first [N - 1] posts and accepts post [N], with [N] at most [tries], it
    returns that answer after exactly [N] posts, each rejected post
    followed by one pause of 800 ms: the time slept before attempt [i] is 0
    for the first and 800 ms for every other, so from the third attempt on
    the pauses do not grow. *)
Theorem rev1_postWithRetry_succeeds_on_attempt_N env pathname data tries N v s tr :
  1 <= N -> N <= tries ->
  (forall j, j < N - 1 ->
     is_resolved (api_post env (length (calls is_post tr) + j) pathname data) = false) ->
  api_post env (length (calls is_post tr) + (N - 1)) pathname data = Resolved v ->
  exists s' errs,
    let ext :=
      flat_map (fun e => [(Post pathname data, Rejected e); (Sleep 800, Resolved NoData)])
               errs ++ [(Post pathname data, Resolved v)] in
    exec env (Rev1.postWithRetry pathname data tries) s tr = (Return v, s', tr ++ ext) /\
    length errs = N - 1 /\
    length (calls is_post ext) = N /\
    attempt_delays ext = 0%Z :: repeat 800%Z (N - 1) /\
    (3 <= N -> strictly_increasing (attempt_delays ext) = false) /\
    userLevels s' = userLevels s /\ warmedUp s' = warmedUp s.
Proof.
  intros H1 Htries Hfail Hok.
  destruct (attempts_success (fun p => api_post env p pathname data)
              (length (calls is_post tr)) tries (N - 1) v ltac:(lia) Hfail Hok)
    as (errs & Hlen & Hatt).
  unfold Rev1.postWithRetry. rewrite exec_rev1_postWithRetry_loop. cbn zeta.
  rewrite Hatt. eexists _, errs. cbn zeta.
  pose proof (rev1_calls_success (Post pathname data) tries errs v 0 ltac:(simpl; lia))
    as Hcalls.
  split.
  { rewrite Hcalls. f_equal. f_equal. unfold retry_result. by rewrite last_snoc. }
  split; [exact Hlen|].
  assert (attempt_delays
            (flat_map (fun e => [(Post pathname data, Rejected e);
                                 (Sleep 800, Resolved NoData)]) errs
             ++ [(Post pathname data, Resolved v)]) = 0%Z :: repeat 800%Z (N - 1)) as Hd.
  { rewrite <- Hcalls, <- Hlen. unfold attempt_delays.
    apply attempt_delays_rev1_from. simpl. lia. }
  split.
  { rewrite calls_app. destruct (rev1_pauses_posts pathname data errs) as [-> _].
    rewrite length_app, length_map, Hlen. simpl. lia. }
  split; [exact Hd|]. split; [|split; reflexivity].
  intros H3. rewrite Hd.
  destruct N as [|[|[|N]]]; [lia..|]. reflexivity.
Qed.

Lemma rev1_postWithRetry_succeeds_on_attempt_N_witness :
  exists s' errs,
    let ext :=
      flat_map (fun e => [(Post (lit "/correct") (ResetPayload (lit "u1")), Rejected e);
                          (Sleep 800, Resolved NoData)])
               errs ++
      [(Post (lit "/correct") (ResetPayload (lit "u1")), Resolved (Obj (Some (lit "ok"))))] in
    exec (flaky_env 2 (lit "ok"))
         (Rev1.postWithRetry (lit "/correct") (ResetPayload (lit "u1")) 3) initial_store [] =
    (Return (Obj (Some (lit "ok"))), s', [] ++ ext) /\
    attempt_delays ext = [0; 800; 800]%Z /\
    strictly_increasing (attempt_delays ext) = false.
Proof.
  destruct (rev1_postWithRetry_succeeds_on_attempt_N (flaky_env 2 (lit "ok"))
              (lit "/correct") (ResetPayload (lit "u1")) 3 3 (Obj (Some (lit "ok")))
              initial_store [])
    as (s' & errs & E & _ & _ & Hd & Hs & _).
  - lia.
  - lia.
  - intros j Hj. simpl in *. destruct j as [|[|j]]; [reflexivity|reflexivity|lia].
  - reflexivity.
  - exists s', errs. cbn zeta in *. split; [exact E|]. split; [exact Hd|].
    apply Hs. lia.
Defined.

(** X14.  The first revision's [postWithRetry] gives up after [tries]
    rejected posts and throws the rejection of the last one; it pauses
    800 ms after each rejected post but the last, [tries - 1] pauses in
    all, so that nothing is awaited between the last rejection and the
    throw. *)
Theorem rev1_postWithRetry_exhausted env pathname data tries s tr :
  1 <= tries ->
  (forall j, j < tries ->
     is_resolved (api_post env (length (calls is_post tr) + j) pathname data) = false) ->
  exists e s' errs,
    let ext :=
      flat_map (fun x => [(Post pathname data, Rejected x); (Sleep 800, Resolved NoData)])
               errs ++ [(Post pathname data, Rejected e)] in
    exec env (Rev1.postWithRetry pathname data tries) s tr = (Throw (Err e), s', tr ++ ext) /\
    api_post env (length (calls is_post tr) + (tries - 1)) pathname data = Rejected e /\
    length (calls is_post ext) = tries /\
    length (calls is_sleep ext) = tries - 1 /\
    userLevels s' = userLevels s /\ warmedUp s' = warmedUp s.
Proof.
  intros H1 Hfail.
  destruct (attempts_all_fail (fun p => api_post env p pathname data)
              (length (calls is_post tr)) tries Hfail) as (errs & Hlen & Hatt & Hget).
  destruct (last errs) as [e|] eqn:Hlast.
  2:{ apply last_None in Hlast. subst. simpl in *. lia. }
  pose proof Hlast as Hlook. rewrite last_lookup in Hlook.
  apply last_Some in Hlast as [errs' ->].
  rewrite length_app in Hlen. cbn [length] in Hlen.
  exists e. eexists _, errs'. cbn zeta.
  unfold Rev1.postWithRetry. rewrite exec_rev1_postWithRetry_loop. cbn zeta.
  rewrite Hatt, (rev1_calls_all_fail (Post pathname data) tries errs' e 0) by lia.
  split.
  { f_equal. f_equal. unfold retry_result. rewrite map_app. cbn [map].
    by rewrite last_snoc. }
  split.
  { apply Hget. rewrite <- Hlook. f_equal. rewrite length_app. simpl. lia. }
  rewrite !calls_app. destruct (rev1_pauses_posts pathname data errs') as [-> ->].
  rewrite !length_app, !length_map. cbn [calls List.filter fst is_post is_sleep length].
  split; [lia|]. split; [lia|]. split; reflexivity.
Qed.

Lemma rev1_postWithRetry_exhausted_witness :
  exists e s' errs,
    let ext :=
      flat_map (fun x => [(Post (lit "/correct") (ResetPayload (lit "u1")), Rejected x);
                          (Sleep 800, Resolved NoData)])
               errs ++ [(Post (lit "/correct") (ResetPayload (lit "u1")), Rejected e)] in
    exec (down_env [])
         (Rev1.postWithRetry (lit "/correct") (ResetPayload (lit "u1")) Rev1.default_tries)
         initial_store [] = (Throw (Err e), s', [] ++ ext) /\
    length (calls is_sleep ext) = 1.
Proof.
  destruct (rev1_postWithRetry_exhausted (down_env []) (lit "/correct")
              (ResetPayload (lit "u1")) Rev1.default_tries initial_store [])
    as (e & s' & errs & E & _ & _ & Hs & _).
  - unfold Rev1.default_tries. lia.
  - intros j Hj. reflexivity.
  - exists e, s', errs. cbn zeta in *. split; [exact E|exact Hs].
Defined.

(** ** The handler of the first revision *)

Lemma exec_rev1_handleMessage env message s tr :
  exec env (Rev1.handleMessage message) s tr =
  barrier env message (exec env (Rev1.handleMessage_try message) s tr).
Proof.
  unfold Rev1.handleMessage. rewrite exec_try_catch.
  destruct (exec env (Rev1.handleMessage_try message) s tr) as [[c s1] tr1].
  destruct c as [a|e|]; [done| |done]. cbn [barrier].
  rewrite exec_bind, exec_console, exec_try_catch, exec_bind, exec_await.
  by destruct (answer env tr1 _).
Qed.

Lemma exec_rev1_postWithRetry env path data tries s tr :
  exec env (Rev1.postWithRetry path data tries) s tr =
  (let outs := attempts (fun p => api_post env p path data)
                        (length (calls is_post tr)) tries in
   (retry_result outs Undefined,
    add_consoles (retry_log (warn_post1 path tries) outs 0) s,
    tr ++ rev1_retry_calls (Post path data) tries outs 0)).
Proof. apply exec_rev1_postWithRetry_loop. Qed.

Lemma calls_rev1 p c tries outs i :
  (forall d, p (Sleep d) = false) ->
  calls p (rev1_retry_calls c tries outs i) =
  if p c then map (fun o => (c, o)) outs else [].
Proof.
  intros Hs. revert i. induction outs as [|o outs IH]; intros i.
  - by destruct (p c).
  - cbn [rev1_retry_calls map]. unfold calls in *. cbn [List.filter fst].
    rewrite List.filter_app, IH.
    assert (List.filter (fun x : Call * Outcome => p (fst x))
              (if is_resolved o then []
               else if i <? tries - 1 then [(Sleep 800, Resolved NoData)] else []) = [])
      as ->.
    { destruct (is_resolved o); [reflexivity|].
      destruct (i <? tries - 1); [|reflexivity].
      cbn [List.filter fst]. by rewrite Hs. }
    by destruct (p c).
Qed.

(** The [#resetar] branch of the first revision. *)
Lemma exec_rev1_resetar env u s tr :
  let outs := attempts (fun p => api_post env p (lit "/resetar") (ResetPayload u))
                       (length (calls is_post tr)) Rev1.default_tries in
  let tr1 := tr ++ rev1_retry_calls (Post (lit "/resetar") (ResetPayload u))
                     Rev1.default_tries outs 0 in
  exists s',
    exec env (Rev1.resetar u) s tr =
    (after_sends (reset_replies env u tr1 (succeeded outs)), s',
     tr1 ++ reset_replies env u tr1 (succeeded outs)) /\
    userLevels s' = userLevels s /\ warmedUp s' = warmedUp s.
Proof.
  intros outs tr1. unfold Rev1.resetar.
  rewrite exec_try_catch, exec_bind, exec_rev1_postWithRetry. cbn zeta.
  fold outs. fold tr1.
  pose proof (retry_result_settled outs Undefined (attempts_nonempty _ _ _)) as Hs.
  unfold succeeded, reset_replies, after_sends. unfold retry_result in *.
  destruct (last outs) as [[d|e]|]; cbn [completion_of] in *; [| |done].
  - rewrite exec_send_ret.
    destruct (answer env tr1 (SendText u reset_ok_notice)) as [d'|e'];
      cbn [is_resolved].
    + eexists. split; [reflexivity|]. split; reflexivity.
    + cbn [caught]. rewrite exec_bind, exec_ret, exec_bind, exec_console, exec_send_ret.
      rewrite <- app_assoc. cbn [app].
      destruct (answer env (tr1 ++ [(SendText u reset_ok_notice, Rejected e')])
                  (SendText u reset_failed_notice));
        eexists; (split; [reflexivity|]); split; reflexivity.
  - cbn [caught]. rewrite exec_bind, exec_ret, exec_bind, exec_console, exec_send_ret.
    destruct (answer env tr1 (SendText u reset_failed_notice));
      eexists; (split; [reflexivity|]); split; reflexivity.
Qed.

Lemma exec_rev1_dispatchReply env u r s tr :
  exec env (Rev1.dispatchReply u r) s tr =
  (match answer env tr (SendText u (banner_of r ++ r)) with
   | Resolved _ => Return tt
   | Rejected e => Throw (Err e)
   end, s,
   tr ++ [(SendText u (banner_of r ++ r), answer env tr (SendText u (banner_of r ++ r)))]).
Proof.
  unfold Rev1.dispatchReply, banner_of.
  destruct (includes r correct_marker); [apply exec_send_ret|].
  destruct (includes r incorrect_marker); apply exec_send_ret.
Qed.

(** The default path of the first revision: its posts, then one send, of
    the whole reply or of the failure notice. *)
Lemma exec_rev1_correct env u b s tr :
  let payload := CorrectPayload b (read_level (userLevels s) u) u in
  let outs := attempts (fun p => api_post env p (lit "/correct") payload)
                       (length (calls is_post tr)) Rev1.default_tries in
  let tr1 := tr ++ rev1_retry_calls (Post (lit "/correct") payload)
                     Rev1.default_tries outs 0 in
  let text := match last outs with
              | Some (Resolved d) => banner_of (botReply_of d) ++ botReply_of d
              | _ => Rev1.backend_failed_notice
              end in
  exists s',
    exec env (Rev1.correct u b) s tr =
    (match answer env tr1 (SendText u text) with
     | Resolved _ => Return tt
     | Rejected e => Throw (Err e)
     end, s', tr1 ++ [(SendText u text, answer env tr1 (SendText u text))]) /\
    userLevels s' = userLevels s /\ warmedUp s' = warmedUp s.
Proof.
  intros payload outs tr1 text. unfold Rev1.correct.
  rewrite exec_bind, exec_get_store, exec_bind, exec_console, exec_bind, exec_console.
  rewrite exec_bind, exec_try_catch, exec_bind, exec_rev1_postWithRetry. cbn zeta.
  fold payload. fold outs. fold tr1.
  pose proof (retry_result_settled outs Undefined (attempts_nonempty _ _ _)) as Hs.
  unfold retry_result in *. subst text.
  destruct (last outs) as [[d|e]|]; cbn [completion_of] in *; [| |done].
  - rewrite exec_ret. cbn iota beta. rewrite exec_bind, exec_console.
    rewrite exec_rev1_dispatchReply.
    eexists. split; [reflexivity|]. split; reflexivity.
  - cbn [caught]. rewrite exec_bind, exec_ret, exec_bind, exec_console, exec_bind, exec_await.
    destruct (answer env tr1 (SendText u Rev1.backend_failed_notice)) as [d|e'];
      cbn [completion_of].
    + rewrite exec_ret. cbn iota beta. rewrite exec_ret.
      eexists. split; [reflexivity|]. split; reflexivity.
    + eexists. split; [reflexivity|]. split; reflexivity.
Qed.

Lemma send_step_facts env to text s tr :
  exists c ext,
    exec env (await (SendText to text) ;; ret tt) s tr = (c, s, tr ++ ext) /\
    settled c /\
    calls is_health ext = [] /\ calls is_post ext = [] /\
    length (calls is_send ext) = 1.
Proof.
  rewrite exec_send_ret.
  destruct (answer env tr (SendText to text)) as [d|e]; eexists _, [_];
    (split; [reflexivity|]); by repeat split.
Qed.

Lemma reset_replies_facts env u tr ok :
  settled (after_sends (reset_replies env u tr ok)) /\
  calls is_health (reset_replies env u tr ok) = [] /\
  calls is_post (reset_replies env u tr ok) = [] /\
  1 <= length (calls is_send (reset_replies env u tr ok)) <= 2.
Proof.
  unfold reset_replies, after_sends. destruct ok.
  - destruct (answer env tr (SendText u reset_ok_notice)) as [d|e]; cbn [is_resolved].
    + unfold calls. cbn [last List.filter fst is_health is_post is_send length].
      repeat split; lia.
    + destruct (answer env _ (SendText u reset_failed_notice)) as [d'|e'];
        unfold calls; cbn [last List.filter fst is_health is_post is_send length];
        repeat split; lia.
  - destruct (answer env tr (SendText u reset_failed_notice)) as [d'|e'];
      unfold calls; cbn [last List.filter fst is_health is_post is_send length];
      repeat split; lia.
Qed.

Lemma rev1_route_default m userPhone body :
  is_audio m = false -> toLowerCase body ∉ keywords -> body ∉ level_digits ->
  Rev1.route m userPhone body = Rev1.correct userPhone body.
Proof.
  intros Ha Hk Hd. unfold Rev1.route. rewrite Ha.
  unfold keywords in Hk. rewrite !not_elem_of_cons in Hk.
  destruct Hk as (H1 & H2 & H3 & _).
  unfold str_eqb. rewrite !bool_decide_eq_false_2 by done. done.
Qed.

(** A routed message in the first revision. *)
Lemma exec_rev1_route env m s tr :
  isGroupMsg m = false ->
  exists c s1 ext,
    exec env (Rev1.route m (userPhone_of m) (body_of m)) s tr = (c, s1, tr ++ ext) /\
    settled c /\
    calls is_health ext = [] /\
    length (calls is_post ext) <= Rev1.default_tries /\
    1 <= length (calls is_send ext) <= 2 /\
    warmedUp s1 = warmedUp s /\
    userLevels s1 = levels_after (Some m) (userLevels s).
Proof.
  intros Hg. unfold Rev1.route, levels_after, is_level_choice. rewrite Hg.
  destruct (is_audio m) eqn:Ha; cbn [negb andb].
  { destruct (send_step_facts env (userPhone_of m) audio_disabled_notice s tr)
      as (c & ext & E & Hc & Hh & Hp & Hs).
    exists c, s, ext. rewrite E, Hh, Hp, Hs. cbn [length].
    repeat split; try done; lia. }
  destruct (decide (body_of m ∈ level_digits)) as [Hd|Hd].
  { destruct (digit_not_keyword _ Hd) as (-> & -> & _). fold level_digits.
    rewrite !bool_decide_eq_true_2 by done.
    rewrite exec_bind, exec_modify.
    destruct (send_step_facts env (userPhone_of m)
                (level_confirmation (prop_get levelMap (body_of m)))
                (set_userLevels
                   (assign_level (userPhone_of m) (prop_get levelMap (body_of m))) s) tr)
      as (c & ext & E & Hc & Hh & Hp & Hs).
    eexists c, _, ext. rewrite E, Hh, Hp, Hs. cbn [length].
    split; [reflexivity|]. repeat split; try done; lia. }
  fold level_digits. rewrite !bool_decide_eq_false_2 by done.
  destruct (str_eqb _ (lit "#ajuda")).
  { destruct (send_step_facts env (userPhone_of m) Rev1.helpMessage s tr)
      as (c & ext & E & Hc & Hh & Hp & Hs).
    exists c, s, ext. rewrite E, Hh, Hp, Hs. cbn [length].
    repeat split; try done; lia. }
  destruct (str_eqb _ (lit "#nivel")).
  { destruct (send_step_facts env (userPhone_of m) levelMsg s tr)
      as (c & ext & E & Hc & Hh & Hp & Hs).
    exists c, s, ext. rewrite E, Hh, Hp, Hs. cbn [length].
    repeat split; try done; lia. }
  destruct (str_eqb _ (lit "#resetar")).
  - destruct (exec_rev1_resetar env (userPhone_of m) s tr) as (s1 & E & Hl & Hw).
    cbn zeta in E. rewrite E, <- app_assoc.
    match goal with |- context [reset_replies env ?u ?t ?ok] =>
      destruct (reset_replies_facts env u t ok) as (Hc & Hh & Hp & Hs)
    end.
    eexists _, s1, _. split; [reflexivity|]. split; [exact Hc|].
    rewrite !calls_app, Hh, Hp, !calls_rev1 by done. cbn [is_health is_post is_send].
    rewrite !app_nil_r, length_map. cbn [app].
    split; [reflexivity|]. split; [apply attempts_length|].
    split; [exact Hs|]. split; [exact Hw|exact Hl].
  - destruct (exec_rev1_correct env (userPhone_of m) (body_of m) s tr) as (s1 & E & Hl & Hw).
    cbn zeta in E. rewrite E, <- app_assoc.
    eexists _, s1, _. split; [reflexivity|].
    split; [by destruct (answer env _ _)|].
    rewrite !calls_app, !calls_rev1 by done. cbn [is_health is_post is_send].
    unfold calls. cbn [List.filter fst is_health is_post is_send app length].
    rewrite !app_nil_r, length_map.
    split; [reflexivity|]. split; [apply attempts_length|].
    split; [lia|]. split; [exact Hw|exact Hl].
Qed.

(** What [levels_after] comes to: a level choice gives the sender's id a
    property of its own, except under [__proto__], where it stores
    nothing; what is stored for anyone else stays. *)
Lemma levels_after_spec message levels :
  (forall m lvl,
     message = Some m -> isGroupMsg m = false -> is_audio m = false ->
     (body_of m, lvl) ∈ levelMap -> userPhone_of m <> lit "__proto__" ->
     levels_after message levels = <[userPhone_of m := Some lvl]> levels) /\
  (forall m,
     message = Some m -> userPhone_of m = lit "__proto__" ->
     levels_after message levels = levels) /\
  (forall u,
     chooses_level u message = false ->
     levels_after message levels !! u = levels !! u).
Proof.
  split; [|split].
  - intros m lvl -> Hg Ha Hl Hne. cbn [levels_after]. unfold is_level_choice.
    rewrite Hg, Ha. cbn [negb andb].
    rewrite bool_decide_eq_true_2 by (apply level_digit_mapped; eauto).
    rewrite (levelMap_get _ _ Hl). unfold assign_level, str_eqb.
    by rewrite bool_decide_eq_false_2.
  - intros m -> He. cbn [levels_after].
    destruct (is_level_choice m); [|reflexivity].
    unfold assign_level, str_eqb. by rewrite bool_decide_eq_true_2.
  - intros u Hn. destruct message as [m|]; [|reflexivity].
    cbn [levels_after chooses_level] in *.
    destruct (is_level_choice m); [|reflexivity]. cbn [andb] in Hn.
    apply bool_decide_eq_false in Hn. unfold assign_level.
    destruct (str_eqb (userPhone_of m) (lit "__proto__")); [reflexivity|].
    by rewrite lookup_insert_ne.
Qed.

Lemma exec_rev1_handleMessage_facts env message s tr :
  exists s' ext,
    exec env (Rev1.handleMessage message) s tr = (Return tt, s', tr ++ ext) /\
    calls is_health ext = [] /\
    length (calls is_post ext) <= 2 /\
    length (calls is_send ext) <= 3 /\
    warmedUp s' = warmedUp s /\
    userLevels s' = levels_after message (userLevels s).
Proof.
  rewrite exec_rev1_handleMessage.
  destruct message as [m|].
  2:{ cbn [Rev1.handleMessage_try]. rewrite exec_throw. cbn [barrier].
      eexists _, [_]. split; [reflexivity|]. unfold calls.
      cbn [List.filter fst is_health is_post is_send length].
      repeat split; lia. }
  cbn [Rev1.handleMessage_try].
  destruct (isGroupMsg m) eqn:Hg.
  { rewrite exec_ret. cbn [barrier]. exists s, []. rewrite app_nil_r.
    unfold levels_after, is_level_choice. rewrite Hg. cbn.
    repeat split; lia. }
  destruct (decide (body_of m = [])) as [Hb|Hb].
  { rewrite bool_decide_eq_true_2 by done. rewrite exec_ret. cbn [barrier].
    exists s, []. rewrite app_nil_r.
    unfold levels_after, is_level_choice. rewrite Hb.
    rewrite (bool_decide_eq_false_2 _ nil_not_digit), !andb_false_r. cbn.
    repeat split; lia. }
  rewrite bool_decide_eq_false_2 by done.
  destruct (exec_rev1_route env m s tr Hg)
    as (c & s1 & ext & E & Hc & Hh & Hp & Hs & Hw & Hl).
  rewrite E.
  destruct (barrier_result env (Some m) c s1 (tr ++ ext))
    as (s' & rescue & Eb & Hl' & Hw' & Hno & Hyes).
  rewrite Eb. exists s', (ext ++ rescue). rewrite <- app_assoc.
  split; [by destruct c as [[]|[|e]|]|].
  assert (calls is_health rescue = [] /\ calls is_post rescue = [] /\
          length (calls is_send rescue) <= 1) as (Hrh & Hrp & Hrs).
  { destruct c as [a|t|].
    - destruct Hno as [_ ->]; [intros t; discriminate|]. cbn. repeat split; lia.
    - rewrite (Hyes t eq_refl). unfold calls.
      cbn [List.filter fst is_health is_post is_send length]. repeat split; lia.
    - destruct Hno as [_ ->]; [intros t; discriminate|]. cbn. repeat split; lia. }
  rewrite !calls_app, Hh, Hrh, Hrp, !app_nil_r, length_app.
  unfold Rev1.default_tries in Hp.
  split; [reflexivity|]. split; [exact Hp|]. split; [lia|].
  split; [by rewrite Hw'|by rewrite Hl'].
Qed.

(** X15.  The first revision's [handleMessage] never raises either: every
    run ends in a plain return.  It never requests [/health] and leaves the
    warm-up flag alone, posts at most twice and sends at most three
    messages per inbound message, and changes the level store only as a
    level choice does: the choice gives the sender's id a property of its
    own holding the mapped level, except that under the id [__proto__] a
    plain object stores nothing; what is stored for anyone else stays. *)
Theorem rev1_handleMessage_never_raises env message s tr :
  exists s' ext,
    exec env (Rev1.handleMessage message) s tr = (Return tt, s', tr ++ ext) /\
    calls is_health ext = [] /\
    length (calls is_post ext) <= 2 /\
    length (calls is_send ext) <= 3 /\
    warmedUp s' = warmedUp s /\
    userLevels s' = levels_after message (userLevels s) /\
    (forall m lvl,
       message = Some m -> isGroupMsg m = false -> is_audio m = false ->
       (body_of m, lvl) ∈ levelMap -> userPhone_of m <> lit "__proto__" ->
       userLevels s' = <[userPhone_of m := Some lvl]> (userLevels s)) /\
    (forall m,
       message = Some m -> userPhone_of m = lit "__proto__" ->
       userLevels s' = userLevels s) /\
    (forall u,
       chooses_level u message = false ->
       userLevels s' !! u = userLevels s !! u).
Proof.
  destruct (exec_rev1_handleMessage_facts env message s tr)
    as (s' & ext & E & Hh & Hp & Hs & Hw & Hl).
  destruct (levels_after_spec message (userLevels s)) as (H1 & H2 & H3).
  exists s', ext.
  split; [exact E|]. split; [exact Hh|]. split; [exact Hp|]. split; [exact Hs|].
  split; [exact Hw|]. split; [exact Hl|]. rewrite Hl.
  split; [exact H1|]. split; [exact H2|exact H3].
Qed.

(** X16.  The first revision forwards a reply of any length in a single
    message: when the first post is answered, the handler posts once and
    sends the banner and the whole reply in one [sendText]; only when the
    client rejects that send does the generic notice follow. *)
Theorem rev1_reply_sent_in_one_message env m s tr d :
  isGroupMsg m = false -> body_of m <> [] -> is_audio m = false ->
  toLowerCase (body_of m) ∉ keywords -> body_of m ∉ level_digits ->
  api_post env (length (calls is_post tr)) (lit "/correct") (correct_payload m s)
    = Resolved d ->
  exists s' o rescue,
    exec env (Rev1.handleMessage (Some m)) s tr =
    (Return tt, s',
     tr ++ [(Post (lit "/correct") (correct_payload m s), Resolved d);
            (SendText (userPhone_of m) (banner_of (botReply_of d) ++ botReply_of d), o)]
        ++ rescue) /\
    (is_resolved o = true -> rescue = []) /\
    (is_resolved o = false ->
       exists o', rescue = [(SendText (catch_phone (Some m)) unexpected_notice, o')]).
Proof.
  intros Hg Hb Ha Hk Hd Hok.
  rewrite exec_rev1_handleMessage. cbn [Rev1.handleMessage_try]. rewrite Hg.
  rewrite bool_decide_eq_false_2 by done.
  rewrite rev1_route_default by done.
  destruct (exec_rev1_correct env (userPhone_of m) (body_of m) s tr) as (s1 & E & _).
  cbn zeta in E. fold (correct_payload m s) in E.
  assert (attempts (fun p => api_post env p (lit "/correct") (correct_payload m s))
                   (length (calls is_post tr)) Rev1.default_tries = [Resolved d]) as Hatt.
  { unfold Rev1.default_tries. cbn [attempts]. by rewrite Hok. }
  rewrite Hatt in E. cbn [last rev1_retry_calls is_resolved app] in E.
  rewrite E.
  set (text := banner_of (botReply_of d) ++ botReply_of d).
  set (tr1 := tr ++ [(Post (lit "/correct") (correct_payload m s), Resolved d)]).
  destruct (answer env tr1 (SendText (userPhone_of m) text)) as [d'|e'];
    cbn [barrier]; unfold tr1; rewrite <- !app_assoc; cbn [app].
  - exists s1, (Resolved d'), []. split; [reflexivity|].
    split; [reflexivity|intros [=]].
  - eexists _, (Rejected e'),
      [(SendText (catch_phone (Some m)) unexpected_notice, _)].
    split; [reflexivity|]. split; [intros [=]|]. intros _. by eexists.
Qed.

Lemma rev1_reply_sent_in_one_message_witness :
  let m := chat "u1" "I go school yesterday" in
  let d := Obj (Some (lit "✅ Muito bem!")) in
  exists s' o rescue,
    exec (flaky_env 0 (lit "✅ Muito bem!")) (Rev1.handleMessage (Some m)) initial_store [] =
    (Return tt, s',
     [] ++ [(Post (lit "/correct") (correct_payload m initial_store), Resolved d);
            (SendText (userPhone_of m) (banner_of (botReply_of d) ++ botReply_of d), o)]
        ++ rescue) /\
    (is_resolved o = true -> rescue = []).
Proof.
  intros m d.
  destruct (rev1_reply_sent_in_one_message (flaky_env 0 (lit "✅ Muito bem!")) m
              initial_store [] d)
    as (s' & o & rescue & E & Hr & _).
  - reflexivity.
  - by_decide.
  - reflexivity.
  - by_decide.
  - by_decide.
  - reflexivity.
  - by exists s', o, rescue.
Defined.

(** X17.  The first revision when both of its posts are rejected: one pause
    of 800 ms between them, then the failure notice of that revision, once;
    the handler returns. *)
Theorem rev1_exhausted_retries_reach_user env m s tr e1 e2 :
  isGroupMsg m = false -> body_of m <> [] -> is_audio m = false ->
  toLowerCase (body_of m) ∉ keywords -> body_of m ∉ level_digits ->
  api_post env (length (calls is_post tr)) (lit "/correct") (correct_payload m s)
    = Rejected e1 ->
  api_post env (S (length (calls is_post tr))) (lit "/correct") (correct_payload m s)
    = Rejected e2 ->
  exists s' o rescue,
    exec env (Rev1.handleMessage (Some m)) s tr =
    (Return tt, s',
     tr ++ [(Post (lit "/correct") (correct_payload m s), Rejected e1);
            (Sleep 800, Resolved NoData);
            (Post (lit "/correct") (correct_payload m s), Rejected e2);
            (SendText (userPhone_of m) Rev1.backend_failed_notice, o)]
        ++ rescue) /\
    (is_resolved o = true -> rescue = []) /\
    (is_resolved o = false ->
       exists o', rescue = [(SendText (catch_phone (Some m)) unexpected_notice, o')]).
Proof.
  intros Hg Hb Ha Hk Hd H1 H2.
  rewrite exec_rev1_handleMessage. cbn [Rev1.handleMessage_try]. rewrite Hg.
  rewrite bool_decide_eq_false_2 by done.
  rewrite rev1_route_default by done.
  destruct (exec_rev1_correct env (userPhone_of m) (body_of m) s tr) as (s1 & E & _).
  cbn zeta in E. fold (correct_payload m s) in E.
  assert (attempts (fun p => api_post env p (lit "/correct") (correct_payload m s))
                   (length (calls is_post tr)) Rev1.default_tries
          = [Rejected e1; Rejected e2]) as Hatt.
  { unfold Rev1.default_tries. cbn [attempts]. by rewrite H1, H2. }
  assert (rev1_retry_calls (Post (lit "/correct") (correct_payload m s))
            Rev1.default_tries [Rejected e1; Rejected e2] 0 =
          [(Post (lit "/correct") (correct_payload m s), Rejected e1);
           (Sleep 800, Resolved NoData);
           (Post (lit "/correct") (correct_payload m s), Rejected e2)]) as Hcalls.
  { generalize (Post (lit "/correct") (correct_payload m s)). reflexivity. }
  rewrite Hatt, Hcalls in E.
  revert E. generalize Rev1.backend_failed_notice. intros notice E.
  cbn [last] in E. rewrite E.
  set (tr1 := tr ++ [(Post (lit "/correct") (correct_payload m s), Rejected e1);
                     (Sleep 800, Resolved NoData);
                     (Post (lit "/correct") (correct_payload m s), Rejected e2)]).
  destruct (answer env tr1 (SendText (userPhone_of m) notice))
    as [d'|e']; cbn [barrier]; unfold tr1; rewrite <- !app_assoc; cbn [app].
  - exists s1, (Resolved d'), []. split; [reflexivity|].
    split; [reflexivity|intros [=]].
  - eexists _, (Rejected e'),
      [(SendText (catch_phone (Some m)) unexpected_notice, _)].
    split; [reflexivity|]. split; [intros [=]|]. intros _. by eexists.
Qed.

Lemma rev1_exhausted_retries_reach_user_witness :
  let m := chat "u1" "I go school yesterday" in
  exists s' o rescue,
    exec (down_env []) (Rev1.handleMessage (Some m)) initial_store [] =
    (Return tt, s',
     [] ++ [(Post (lit "/correct") (correct_payload m initial_store), Rejected error_503);
            (Sleep 800, Resolved NoData);
            (Post (lit "/correct") (correct_payload m initial_store), Rejected error_503);
            (SendText (userPhone_of m) Rev1.backend_failed_notice, o)]
        ++ rescue) /\
    (is_resolved o = true -> rescue = []).
Proof.
  intros m.
  destruct (rev1_exhausted_retries_reach_user (down_env []) m initial_store []
              error_503 error_503)
    as (s' & o & rescue & E & Hr & _).
  - reflexivity.
  - by_decide.
  - reflexivity.
  - by_decide.
  - by_decide.
  - reflexivity.
  - reflexivity.
  - by exists s', o, rescue.
Defined.

(** X18.  Once the warm-up has happened, the current revision handles a
    message exactly as the first one did (same completion, same store, same
    calls) unless the message is routed to [#ajuda], to [#resetar] or to
    the default path: that is, for a null message, a group message, a blank
    body, an audio message, [#nivel] and a level choice. *)
Theorem revisions_agree_on_simple_messages env message s tr :
  warmedUp s = true ->
  (forall m, message = Some m ->
     isGroupMsg m = false -> body_of m <> [] -> is_audio m = false ->
     toLowerCase (body_of m) = lit "#nivel" \/ body_of m ∈ level_digits) ->
  exec env (handleMessage message) s tr = exec env (Rev1.handleMessage message) s tr.
Proof.
  intros Hw Hm. rewrite exec_handleMessage, exec_rev1_handleMessage. f_equal.
  destruct message as [m|]; [|reflexivity].
  cbn [handleMessage_try Rev1.handleMessage_try].
  destruct (isGroupMsg m) eqn:Hg; [reflexivity|].
  destruct (decide (body_of m = [])) as [Hb|Hb].
  { by rewrite !bool_decide_eq_true_2 by done. }
  rewrite !bool_decide_eq_false_2 by done.
  rewrite exec_bind.
  destruct (exec_warmUp env (userPhone_of m) s tr) as (sw & pre & E & _ & _ & Hwarm & _).
  destruct (Hwarm Hw) as [-> ->]. rewrite E, app_nil_r.
  f_equal. unfold route, Rev1.route.
  destruct (is_audio m) eqn:Ha; [reflexivity|].
  destruct (Hm m eq_refl Hg Hb Ha) as [Hn|Hd].
  - rewrite Hn. reflexivity.
  - destruct (digit_not_keyword _ Hd) as (-> & -> & _). fold level_digits.
    by rewrite !bool_decide_eq_true_2 by done.
Qed.

Lemma revisions_agree_on_simple_messages_witness :
  exec (down_env [0]) (handleMessage (Some (chat "u1" "3"))) warm_store [] =
  exec (down_env [0]) (Rev1.handleMessage (Some (chat "u1" "3"))) warm_store [].
Proof.
  apply revisions_agree_on_simple_messages.
  - reflexivity.
  - intros m [= <-] _ _ _. right. by_decide.
Defined.

(** ** Configuration *)

Lemma strip_trailing_slashes_spec s :
  last (strip_trailing_slashes s) <> Some 47%N /\
  exists k, s = strip_trailing_slashes s ++ repeat 47%N k.
Proof.
  induction s as [|c r [IHl [k IHk]]]; [split; [discriminate|by exists 0]|].
  cbn [strip_trailing_slashes].
  destruct (strip_trailing_slashes r) as [|c' r'] eqn:E.
  - destruct (N.eqb_spec c 47) as [->|Hc].
    + split; [discriminate|]. exists (S k). by rewrite IHk at 1.
    + split; [cbn; congruence|]. exists k. by rewrite IHk at 1.
  - split.
    + by rewrite last_cons_cons.
    + exists k. by rewrite IHk at 1.
Qed.

(** X19.  The configured backend address: whatever [BACKEND_URL] is set to
    (or the default when it is unset or empty), the address used never ends
    in a slash and differs from the configured value only by the slashes
    dropped from its end, so that the probe's address ends in exactly
    [/health] after a character that is not a slash (or is [/health]
    alone). *)
Theorem BACKEND_URL_has_no_trailing_slash env_value :
  last (BACKEND_URL env_value) <> Some 47%N /\
  (exists k,
     or_str env_value (lit "http://localhost:8000") =
     BACKEND_URL env_value ++ repeat 47%N k) /\
  (last (or_str env_value (lit "http://localhost:8000")) <> Some 47%N ->
   BACKEND_URL env_value = or_str env_value (lit "http://localhost:8000")) /\
  health_url env_value = BACKEND_URL env_value ++ 47%N :: lit "health".
Proof.
  unfold health_url, BACKEND_URL.
  generalize (or_str env_value (lit "http://localhost:8000")). intros s.
  destruct (strip_trailing_slashes_spec s) as [Hl [k Hk]].
  split; [exact Hl|]. split; [by exists k|]. split; [|reflexivity].
  intros Hs. destruct k as [|k].
  - simpl in Hk. by rewrite app_nil_r in Hk.
  - exfalso. apply Hs. rewrite Hk.
    replace (repeat 47%N (S k)) with (repeat 47%N k ++ [47%N]).
    + by rewrite app_assoc, last_snoc.
    + clear. induction k as [|k IH]; [reflexivity|]. simpl. by rewrite IH.
Qed.
